(** * toych: layers, parameters and optimizers

    A shallow embedding of [layers.py] (Parameter, Layer, Dense, RBF) and
    of [toych/optim.py] (Optimizer, SGD, Adam).

    Numbers.  The Python code computes on numpy arrays of floats.  The
    embedding is generic in the scalar type: every definition is written
    over a type [A] that carries the operations numpy uses ([Scalar A]),
    and a theorem that needs algebra assumes the ring or field laws of
    [A] explicitly.  Rounding is therefore not modelled; the results hold
    for exact arithmetic (integers, rationals, reals).

    Arrays.  An [ndarray] has rank 0, 1 or 2, which is all the two layers
    and the optimizers use.  Python exceptions are values of [exn] and a
    call that may raise returns a [result]. *)

From Stdlib Require Import ZArith List Ascii String Ring Field Lia Bool.
From Stdlib Require Import Reals Lra.
From stdpp Require Import gmap strings list fin_maps.

Local Open Scope nat_scope.

(* ===================================================================== *)
(** ** Exceptions and fallible computations *)
(* ===================================================================== *)

Inductive exn : Type :=
| AssertionError
| ValueError
| TypeError
| IndexError
| AttributeError
| AxisError.

Inductive result (X : Type) : Type :=
| Ok (x : X)
| Raise (e : exn).
Arguments Ok {X} x.
Arguments Raise {X} e.

#[export] Instance result_ret : MRet result := fun X x => Ok x.
#[export] Instance result_bind : MBind result := fun X Y f r =>
  match r with
  | Ok x => f x
  | Raise e => Raise e
  end.
#[export] Instance result_fmap : FMap result := fun X Y f r =>
  match r with
  | Ok x => Ok (f x)
  | Raise e => Raise e
  end.

(** [mapR f l]: run [f] on every element, left to right, stopping at the
    first exception. *)
Fixpoint mapR {X Y} (f : X -> result Y) (l : list X) : result (list Y) :=
  match l with
  | [] => Ok []
  | x :: l' => y ← f x; ys ← mapR f l'; Ok (y :: ys)
  end.

(** [zipR f u v]: pairwise, for lists of equal length. *)
Fixpoint zipR {X Y Z} (f : X -> Y -> result Z) (u : list X) (v : list Y)
  : result (list Z) :=
  match u, v with
  | [], [] => Ok []
  | x :: u', y :: v' => z ← f x y; zs ← zipR f u' v'; Ok (z :: zs)
  | _, _ => Raise ValueError
  end.

(** [filterR f l]: Python's [filter] with a test that may raise. *)
Fixpoint filterR {X} (f : X -> result bool) (l : list X) : result (list X) :=
  match l with
  | [] => Ok []
  | x :: l' =>
      b ← f x; xs ← filterR f l'; Ok (if b : bool then x :: xs else xs)
  end.

(** [foldR f l s]: a [for] loop over [l] threading the state [s]. *)
Fixpoint foldR {X S} (f : S -> X -> result S) (l : list X) (s : S) : result S :=
  match l with
  | [] => Ok s
  | x :: l' => s' ← f s x; foldR f l' s'
  end.

(* ===================================================================== *)
(** ** Scalars *)
(* ===================================================================== *)

(** The operations on array elements that the code uses. *)
Class Scalar (A : Type) := {
  zero : A;
  one : A;
  add : A -> A -> A;
  mul : A -> A -> A;
  sub : A -> A -> A;
  opp : A -> A;
  div : A -> A -> A;
  inv : A -> A;
  sqrt : A -> A;
  exp : A -> A;
  abs : A -> A;
  leb : A -> A -> bool;
}.

Declare Scope scalar_scope.
Delimit Scope scalar_scope with sc.
Notation "x + y" := (add x y) : scalar_scope.
Notation "x * y" := (mul x y) : scalar_scope.
Notation "x - y" := (sub x y) : scalar_scope.
Notation "x / y" := (div x y) : scalar_scope.
Notation "- x" := (opp x) : scalar_scope.
Notation "0" := zero : scalar_scope.
Notation "1" := one : scalar_scope.

Section ScalarOps.
Context {A : Type} `{Scalar A}.

(** Python's [x ** n] for a natural exponent. *)
Fixpoint pow (x : A) (n : nat) : A :=
  match n with
  | O => one
  | S n' => mul x (pow x n')
  end.

(** A Python int used where a float is expected. *)
Fixpoint of_nat (n : nat) : A :=
  match n with
  | O => zero
  | S n' => add one (of_nat n')
  end.

Definition ltb (x y : A) : bool := negb (leb y x).

(** [sum] of a list, numpy order (left to right from 0). *)
Definition sum (l : list A) : A := fold_left add l zero.

Definition dot (u v : list A) : A := sum (zip_with mul u v).
End ScalarOps.

(* ===================================================================== *)
(** ** A fragment of numpy *)
(* ===================================================================== *)

Module np.
Section Arrays.
Context {A : Type} `{Scalar A}.

(** Arrays of rank 0, 1 and 2.  A matrix is the list of its rows, so a
    matrix without rows carries no number of columns; the statements
    below are about matrices with at least one row wherever numpy's
    answer depends on that number.  A Python number is a [Num] as well. *)
Inductive ndarray : Type :=
| Num (x : A)
| Vec (v : list A)
| Mat (m : list (list A)).

Definition ncols (m : list (list A)) : nat :=
  match m with
  | [] => 0
  | r :: _ => length r
  end.

(** [np.shape] *)
Definition shape (a : ndarray) : list nat :=
  match a with
  | Num _ => []
  | Vec v => [length v]
  | Mat m => [length m; ncols m]
  end.

(** A matrix with [n] rows of [c] entries each. *)
Definition rect (n c : nat) (m : list (list A)) : Prop :=
  length m = n /\ Forall (fun r => length r = c) m.

(** [m.T] for a matrix given by its rows.  A matrix without rows has no
    column count here: numpy keeps the shape [(0, c)] and transposes it
    to [(c, 0)], which this model does not tell from [(0, 0)].  The
    statements keep away from it: they are about matrices with at least
    one row. *)
Definition transpose (m : list (list A)) : list (list A) :=
  map (fun j => map (fun r => nth j r zero) m) (seq 0 (ncols m)).

(** [a.T] *)
Definition T (a : ndarray) : ndarray :=
  match a with
  | Mat m => Mat (transpose m)
  | _ => a
  end.

(** Broadcasting of one axis: equal lengths pair up, a length-1 side is
    repeated, anything else is a [ValueError]. *)
Definition bc {X Y Z} (f : X -> Y -> result Z) (u : list X) (v : list Y)
  : result (list Z) :=
  if length u =? length v then zipR f u v
  else match u, v with
       | [x], _ => mapR (f x) v
       | _, [y] => mapR (fun x => f x y) u
       | _, _ => Raise ValueError
       end.

Definition bc1 (f : A -> A -> A) (u v : list A) : result (list A) :=
  bc (fun x y => Ok (f x y)) u v.

(** An elementwise binary operator with numpy broadcasting. *)
Definition bop (f : A -> A -> A) (a b : ndarray) : result ndarray :=
  match a, b with
  | Num x, Num y => Ok (Num (f x y))
  | Num x, Vec v => Ok (Vec (map (f x) v))
  | Num x, Mat m => Ok (Mat (map (map (f x)) m))
  | Vec u, Num y => Ok (Vec (map (fun x => f x y) u))
  | Mat m, Num y => Ok (Mat (map (map (fun x => f x y)) m))
  | Vec u, Vec v => Vec <$> bc1 f u v
  | Vec u, Mat m => Mat <$> bc (bc1 f) [u] m
  | Mat m, Vec v => Mat <$> bc (bc1 f) m [v]
  | Mat m, Mat m' => Mat <$> bc (bc1 f) m m'
  end.

Definition shape_eqb (a b : ndarray) : bool :=
  bool_decide (shape a = shape b).

(** The in-place operators [a += b], [a -= b], [a *= b] on an array [a]:
    the broadcast result must fit [a]. *)
Definition iop (f : A -> A -> A) (a b : ndarray) : result ndarray :=
  r ← bop f a b;
  if shape_eqb r a then Ok r else Raise ValueError.

(** The augmented assignments [x += b], [x *= b] on a name or attribute
    [x] that may hold a Python number (such as the [0] of a fresh
    gradient): a number is rebound to the result, an array is updated in
    place. *)
Definition aug (f : A -> A -> A) (a b : ndarray) : result ndarray :=
  match a with
  | Num _ => bop f a b
  | _ => iop f a b
  end.

(** An elementwise function ([np.sqrt], [np.abs], [x ** 2], ...). *)
Definition amap (f : A -> A) (a : ndarray) : ndarray :=
  match a with
  | Num x => Num (f x)
  | Vec v => Vec (map f v)
  | Mat m => Mat (map (map f) m)
  end.

(** One row of a matrix product. *)
Definition row_matmul (r : list A) (b : list (list A)) : result (list A) :=
  if length r =? length b then Ok (map (dot r) (transpose b))
  else Raise ValueError.

Definition row_dot (r v : list A) : result A :=
  if length r =? length v then Ok (dot r v) else Raise ValueError.

(** [a @ b] *)
Definition matmul (a b : ndarray) : result ndarray :=
  match a, b with
  | Mat m, Mat m' => Mat <$> mapR (fun r => row_matmul r m') m
  | Mat m, Vec v => Vec <$> mapR (fun r => row_dot r v) m
  | Vec u, Mat m' => Vec <$> row_matmul u m'
  | Vec u, Vec v => Num <$> row_dot u v
  | _, _ => Raise ValueError
  end.

(** [np.sum(a, axis=0)] *)
Definition sum_axis0 (a : ndarray) : result ndarray :=
  match a with
  | Num _ => Raise AxisError
  | Vec v => Ok (Num (sum v))
  | Mat m => Ok (Vec (map sum (transpose m)))
  end.

(** [np.insert(a, 0, values, axis=0)].  [values] is broadcast to the
    shape of one entry of [a] along axis 0.  [Dense.backward] passes
    values of one rank less than [a]; values of rank 2 cannot arise from
    arrays of rank at most 2. *)
Definition insert0 (a values : ndarray) : result ndarray :=
  match a, values with
  | Num _, _ => Raise AxisError
  | Vec v, Num x => Ok (Vec (x :: v))
  | Vec v, Vec xs => Ok (Vec (xs ++ v))
  | Mat m, Num x => Ok (Mat (repeat x (ncols m) :: m))
  | Mat [], Vec xs => Ok (Mat [xs])
  | Mat m, Vec xs =>
      if length xs =? ncols m then Ok (Mat (xs :: m))
      else match xs with
           | [x] => Ok (Mat (repeat x (ncols m) :: m))
           | _ => Raise ValueError
           end
  | _, Mat _ => Raise ValueError
  end.

(** [a[i]] *)
Definition item (a : ndarray) (i : nat) : result ndarray :=
  match a with
  | Num _ => Raise IndexError
  | Vec v => match v !! i with Some x => Ok (Num x) | None => Raise IndexError end
  | Mat m => match m !! i with Some r => Ok (Vec r) | None => Raise IndexError end
  end.

(** [a[i, j]] *)
Definition item2 (a : ndarray) (i j : nat) : result A :=
  match a with
  | Mat m =>
      match m !! i with
      | Some r => match r !! j with Some x => Ok x | None => Raise IndexError end
      | None => Raise IndexError
      end
  | _ => Raise IndexError
  end.

(** [a[1:]] *)
Definition from1 (a : ndarray) : result ndarray :=
  match a with
  | Num _ => Raise IndexError
  | Vec v => Ok (Vec (tail v))
  | Mat m => Ok (Mat (tail m))
  end.

(** [a[k] = x], where [x] has the shape of [a[k]]. *)
Definition setitem (a : ndarray) (k : nat) (x : ndarray) : result ndarray :=
  match a, x with
  | Mat m, Vec r =>
      match m !! k with
      | Some r0 =>
          if length r =? length r0 then Ok (Mat (<[k := r]> m))
          else Raise ValueError
      | None => Raise IndexError
      end
  | Vec v, Num y =>
      match v !! k with
      | Some _ => Ok (Vec (<[k := y]> v))
      | None => Raise IndexError
      end
  | Num _, _ => Raise IndexError
  | _, _ => Raise ValueError
  end.

(** [np.reshape(a, [n, -1])] where [n] is [len(a)] for a batch and 1
    otherwise, as [Layer._wrapped_forward] calls it. *)
Definition reshape_rows (a : ndarray) : result ndarray :=
  match a with
  | Num x => Ok (Mat [[x]])
  | Vec v => Ok (Mat [v])
  | Mat [] => Raise ValueError
  | Mat m => Ok (Mat m)
  end.

(** First index of a maximal entry, scanning left to right. *)
Fixpoint argmax_from (best : A) (ibest i : nat) (l : list A) : nat :=
  match l with
  | [] => ibest
  | x :: l' =>
      if ltb best x then argmax_from x i (S i) l'
      else argmax_from best ibest (S i) l'
  end.

Definition argmax_row (r : list A) : result nat :=
  match r with
  | [] => Raise ValueError
  | x :: r' => Ok (argmax_from x 0 1 r')
  end.

(** [np.argmax(a, axis=1)] *)
Definition argmax_axis1 (a : ndarray) : result (list nat) :=
  match a with
  | Mat m => mapR argmax_row m
  | _ => Raise AxisError
  end.

(** [np.full(size, x)] for a size of rank at most 2. *)
Inductive size_t : Type :=
| SInt (n : nat)
| SList1 (n : nat)
| SList2 (n c : nat).

Definition full_num (size : size_t) (x : A) : ndarray :=
  match size with
  | SInt n | SList1 n => Vec (repeat x n)
  | SList2 n c => Mat (repeat (repeat x c) n)
  end.

(** [np.full(size, value)]: [value] is broadcast into the new array. *)
Definition full (size : size_t) (value : ndarray) : result ndarray :=
  iop (fun _ y => y) (full_num size zero) value.

End Arrays.
Arguments ndarray A : clear implicits.
End np.
Import np.

(* ===================================================================== *)
(** ** layers.py *)
(* ===================================================================== *)

Section Layers.
Context {A : Type} `{Scalar A}.

(** *** class Parameter(np.ndarray) *)

(** A Parameter is an array with two optional instance attributes;
    [None] in [_grad] or [_dirty] stands for an attribute that has not
    been set ([hasattr] is false). *)
Record Parameter_t : Type := mkParameter {
  value : ndarray A;
  _grad : option (ndarray A);
  _dirty : option bool;
}.

(** One draw of [np.random.normal(loc, scale, size)]. *)
Variable normal : A -> A -> size_t -> result (ndarray A).

(** [Parameter.__new__(cls, value=None, *, size=None, mean=0, scale=None)] *)
Definition Parameter_new (value : option (ndarray A)) (size : option size_t)
    (mean : A) (scale : option A) : result Parameter_t :=
  match value with
  | None =>
      match size with
      | None => Raise AssertionError
      | Some size =>
          let scale :=
            match scale with
            | None =>
                let length :=
                  match size with
                  | SInt n => n
                  | SList1 n => n
                  | SList2 n _ => n
                  end in
                div one (sqrt (of_nat length))
            | Some scale => scale
            end in
          param ← normal mean scale size;
          Ok (mkParameter param None None)
      end
  | Some value =>
      value ← match size with
              | Some size => full size value
              | None => Ok value
              end;
      Ok (mkParameter value None None)
  end.

(** The [grad] property.  Reading it on a fresh Parameter creates the
    two attributes, so the getter returns the Parameter as well. *)
Definition grad (self : Parameter_t) : Parameter_t * ndarray A :=
  match _grad self with
  | None => (mkParameter (value self) (Some (Num zero)) (Some false), Num zero)
  | Some g => (self, g)
  end.

(** The setter of [grad]. *)
Definition set_grad (self : Parameter_t) (v : ndarray A) : Parameter_t :=
  mkParameter (value self) (Some v) (Some true).

Definition zero_grad (self : Parameter_t) : Parameter_t :=
  mkParameter (value self) (Some (Num zero)) (Some false).

(** The [need_update] property reads [_dirty] without a default. *)
Definition need_update (self : Parameter_t) : result bool :=
  match _dirty self with
  | Some b => Ok b
  | None => Raise AttributeError
  end.

(** [self.grad += g]: read through the getter, add, write through the
    setter. *)
Definition grad_iadd (self : Parameter_t) (g : ndarray A) : result Parameter_t :=
  let '(self, old) := grad self in
  new ← aug add old g;
  Ok (set_grad self new).

(** *** class Layer *)

(** Activations and dropout come from the module [functions], which is
    not part of the sources; a layer holds them as a pair of functions. *)
Record Activation : Type := mkActivation {
  act_call : ndarray A -> result (ndarray A);
  act_backward : ndarray A -> result (ndarray A);
}.

Record Dropout : Type := mkDropout {
  drop_call : ndarray A -> result (ndarray A);
  drop_backward : ndarray A -> result (ndarray A);
}.

(** The attributes [Layer.__init__] sets, and [own] for those of the
    subclass.  [dropout] is the last attribute [__init__] assigns, after
    the call of [setup]: [None] stands for the attribute not being
    assigned yet ([self.dropout] raises [AttributeError]), [Some None]
    for the value [None], [Some (Some d)] for a [Dropout].  The dict
    [parameters] that [Layer.__setattr__] keeps next to the attributes is
    not a field of this record (it is modelled on its own in the module
    [Attr] below): a statement about a [Layer] speaks of the attributes
    listed here. *)
Record Layer (S : Type) : Type := mkLayer {
  size : nat;
  input : option (ndarray A);
  output : option (ndarray A);
  input_dim : option nat;
  activation : option Activation;
  _built : bool;
  dropout : option (option Dropout);
  own : S;
}.
Arguments mkLayer {S}.
Arguments size {S}.
Arguments input {S}.
Arguments output {S}.
Arguments input_dim {S}.
Arguments activation {S}.
Arguments _built {S}.
Arguments dropout {S}.
Arguments own {S}.

Definition set_io {S} (self : Layer S) (i o : option (ndarray A)) : Layer S :=
  mkLayer (size self) i o (input_dim self) (activation self) (_built self)
          (dropout self) (own self).

Definition set_input_dim {S} (self : Layer S) (d : option nat) : Layer S :=
  mkLayer (size self) (input self) (output self) d (activation self)
          (_built self) (dropout self) (own self).

(** [self.dropout = d] *)
Definition set_dropout {S} (self : Layer S) (d : option Dropout) : Layer S :=
  mkLayer (size self) (input self) (output self) (input_dim self)
          (activation self) (_built self) (Some d) (own self).

(** Reading [self.dropout]. *)
Definition get_dropout {S} (self : Layer S) : result (option Dropout) :=
  match dropout self with
  | Some d => Ok d
  | None => Raise AttributeError
  end.

Definition set_sub {S} (self : Layer S) (s : S) : Layer S :=
  mkLayer (size self) (input self) (output self) (input_dim self)
          (activation self) (_built self) (dropout self) s.

(** The abstract methods, as the subclass defines them. *)
Class LayerImpl (S : Type) := {
  setup : Layer S -> option nat -> result (Layer S);
  forward : Layer S -> ndarray A -> result (ndarray A);
  backward : Layer S -> ndarray A -> bool -> result (Layer S * option (ndarray A));
}.

(** [Layer.__repr__], and [RBF.__repr__] which calls it.  The text is
    built from the name of the class, [self.size], [self.activation] and
    [self.dropout] ([RBF] adds [self.sigma]); only [setup] asks for it,
    to print it, so what matters of it here is that building it reads
    [self.dropout]. *)
Definition Layer_repr {S} (self : Layer S) : result unit :=
  _ ← get_dropout self;
  Ok tt.

(** [Layer.setup], which the subclasses call first.  Its last statement
    prints the layer. *)
Definition Layer_setup {S} (self : Layer S) (input_dim' : option nat)
  : result (Layer S) :=
  self ← match input_dim' with
         | None =>
             match input_dim self with
             | None => Raise AssertionError
             | Some _ => Ok self
             end
         | Some d => Ok (set_input_dim self (Some d))
         end;
  _ ← Layer_repr self;
  Ok self.

(** [Layer.__init__(self, size, *, input_dim=None, activation, dropout)].
    [s] holds what the subclass constructor has set before it calls
    [super().__init__].  [setup] is called before [self.dropout] is
    assigned. *)
Definition Layer_init {S} `{LayerImpl S} (s : S) (size : nat)
    (input_dim : option nat) (activation : option Activation)
    (dropout : option Dropout) : result (Layer S) :=
  let self := mkLayer size None None None activation false None s in
  self ← match input_dim with
         | Some d => setup self (Some d)
         | None => Ok self
         end;
  Ok (set_dropout self dropout).

(** [Layer._wrapped_forward], which [__getattribute__] returns for the
    name [forward].  The two assignments to [self.input] and
    [self.output] are assignments to the fields of the record; what
    [Layer.__setattr__] does to the dict [parameters] on the way is not
    part of the record. *)
Definition _wrapped_forward {S} `{LayerImpl S} (self : Layer S)
    (input : ndarray A) : result (Layer S * ndarray A) :=
  let batch := 1 <? length (shape input) in
  input ← reshape_rows input;
  output ← forward self input;
  let self := set_io self (Some input) (Some output) in
  output ← match activation self with
           | Some a => act_call a output
           | None => Ok output
           end;
  drop ← get_dropout self;
  output ← match drop with
           | Some d => drop_call d output
           | None => Ok output
           end;
  output ← (if batch then Ok output else item output 0);
  Ok (self, output).

(** [Layer._wrapped_backward], returned for the name [backward].  The
    keyword arguments are [pass_error].  As in [_wrapped_forward], the
    dict [parameters] is not part of the record. *)
Definition _wrapped_backward {S} `{LayerImpl S} (self : Layer S)
    (error : ndarray A) (pass_error : bool)
  : result (Layer S * option (ndarray A)) :=
  match output self with
  | None => Ok (self, None)
  | Some out =>
      drop ← get_dropout self;
      error ← match drop with
              | Some d => drop_backward d error
              | None => Ok error
              end;
      error ← match activation self with
              | Some a => g ← act_backward a out; aug mul error g
              | None => Ok error
              end;
      '(self, error) ← backward self error pass_error;
      Ok (set_io self None None, error)
  end.

(** *** class Dense(Layer) *)

Record Dense : Type := mkDense {
  with_bias : bool;
  weights : option Parameter_t;
}.

Definition get_weights (self : Layer Dense) : result Parameter_t :=
  match weights (own self) with
  | Some w => Ok w
  | None => Raise AttributeError
  end.

(** [Dense.setup] *)
Definition Dense_setup (self : Layer Dense) (input_dim : option nat)
  : result (Layer Dense) :=
  self ← Layer_setup self input_dim;
  match input_dim with
  | None => Raise TypeError
  | Some d =>
      let rows := d + (if with_bias (own self) then 1 else 0) in
      w ← Parameter_new None (Some (SList2 rows (size self))) zero None;
      Ok (set_sub self (mkDense (with_bias (own self)) (Some w)))
  end.

(** [Dense.forward] *)
Definition Dense_forward (self : Layer Dense) (input : ndarray A)
  : result (ndarray A) :=
  w ← get_weights self;
  if with_bias (own self) then
    bias ← item (value w) 0;
    weights ← from1 (value w);
    y ← matmul input weights;
    bop add y bias
  else
    matmul input (value w).

(** [Dense.backward] *)
Definition Dense_backward (self : Layer Dense) (error : ndarray A)
    (pass_error : bool) : result (Layer Dense * option (ndarray A)) :=
  inp ← match input self with
        | Some i => Ok i
        | None => Raise AttributeError
        end;
  grad ← matmul (T inp) error;
  grad ← (if with_bias (own self) then
            grad_b ← sum_axis0 error;
            insert0 grad grad_b
          else Ok grad);
  w ← get_weights self;
  w ← grad_iadd w grad;
  let self := set_sub self (mkDense (with_bias (own self)) (Some w)) in
  if pass_error then
    w1 ← from1 (value w);
    e ← matmul error (T w1);
    Ok (self, Some e)
  else Ok (self, None).

#[export] Instance Dense_impl : LayerImpl Dense := {
  setup := Dense_setup;
  forward := Dense_forward;
  backward := Dense_backward;
}.

(** *** class RBF(Layer) *)

Record RBF : Type := mkRBF {
  sigma : A;
  move_centers : bool;
  centers_mean : A;
  centers_dev : option A;
  step_size : A;
  update_neighbors : bool;
  nb_radius : A;
  centers : option Parameter_t;
}.

Definition set_centers (self : Layer RBF) (c : Parameter_t) : Layer RBF :=
  let r := own self in
  set_sub self (mkRBF (sigma r) (move_centers r) (centers_mean r)
                      (centers_dev r) (step_size r) (update_neighbors r)
                      (nb_radius r) (Some c)).

Definition get_centers (self : Layer RBF) : result Parameter_t :=
  match centers (own self) with
  | Some c => Ok c
  | None => Raise AttributeError
  end.

(** [RBF.setup] *)
Definition RBF_setup (self : Layer RBF) (input_dim : option nat)
  : result (Layer RBF) :=
  self ← Layer_setup self input_dim;
  match input_dim with
  | None => Raise TypeError
  | Some d =>
      c ← Parameter_new None (Some (SList2 (size self) d))
            (centers_mean (own self)) (centers_dev (own self));
      Ok (set_centers self c)
  end.

(** [RBF.distance(x, y)] for two rows: [np.sum(np.abs(x - y), axis=-1)] *)
Definition distance (x y : list A) : result A :=
  d ← bc1 sub x y;
  Ok (sum (map abs d)).

Definition two : A := add one one.

(** [RBF.gaussian_rbf(x, mu)] for two rows. *)
Definition gaussian_rbf (self : Layer RBF) (x mu : list A) : result A :=
  d ← distance x mu;
  Ok (exp (div (opp (pow d 2)) (mul two (pow (sigma (own self)) 2)))).

(** [RBF.forward].  [_wrapped_forward] always passes a matrix; the
    intermediate [input[:, None]] of rank 3 is not built: entry [(i, k)]
    of the result is the activation of row [i] at center [k]. *)
Definition RBF_forward (self : Layer RBF) (input : ndarray A)
  : result (ndarray A) :=
  c ← get_centers self;
  match input with
  | Mat xs =>
      let mus :=
        match value c with
        | Mat mus => mus
        | Vec mu => [mu]
        | Num x => [[x]]
        end in
      Mat <$> mapR (fun x => mapR (gaussian_rbf self x) mus) xs
  | _ => Raise IndexError
  end.

(** The test of the [filter] in [RBF.backward]. *)
Definition is_neighbor (self : Layer RBF) (out : ndarray A) (i j k : nat)
  : result bool :=
  oj ← item2 out i j;
  ok ← item2 out i k;
  Ok (leb (abs (sub oj ok)) (nb_radius (own self))).

(** The set [nodes_to_update] for row [i] and winner [j]. *)
Definition nodes_to_update (self : Layer RBF) (out : ndarray A) (i j : nat)
  : result (gset nat) :=
  if update_neighbors (own self) then
    neighbors ← filterR (is_neighbor self out i j) (seq 0 (size self));
    Ok ({[ j ]} ∪ list_to_set neighbors)
  else Ok {[ j ]}.

(** The body of the inner loop: [self.centers[k] += step_size * delta]. *)
Definition move_center (self : Layer RBF) (i k : nat) : result (Layer RBF) :=
  inp ← match input self with
        | Some a => Ok a
        | None => Raise TypeError
        end;
  x ← item inp i;
  c ← get_centers self;
  ck ← item (value c) k;
  delta ← bop sub x ck;
  step ← bop mul (Num (step_size (own self))) delta;
  ck' ← aug add ck step;
  v ← setitem (value c) k ck';
  Ok (set_centers self (mkParameter v (_grad c) (_dirty c))).

(** The body of the outer loop, for row [i] with winner [j]. *)
Definition update_row (self : Layer RBF) (out : ndarray A) (ij : nat * nat)
  : result (Layer RBF) :=
  nodes ← nodes_to_update self out ij.1 ij.2;
  foldR (fun self k => move_center self ij.1 k) (elements nodes) self.

(** [RBF.backward] *)
Definition RBF_backward (self : Layer RBF) (error : ndarray A)
    (pass_error : bool) : result (Layer RBF * option (ndarray A)) :=
  if negb (move_centers (own self)) then Ok (self, None)
  else
    out ← match output self with
          | Some o => Ok o
          | None => Raise AxisError
          end;
    winners ← argmax_axis1 out;
    self ← foldR (fun self ij => update_row self out ij)
                 (zip (seq 0 (length winners)) winners) self;
    Ok (self, None).

#[export] Instance RBF_impl : LayerImpl RBF := {
  setup := RBF_setup;
  forward := RBF_forward;
  backward := RBF_backward;
}.

End Layers.

Arguments Parameter_t A : clear implicits.
Arguments Activation A : clear implicits.
Arguments Dropout A : clear implicits.
Arguments Layer A S : clear implicits.
Arguments mkLayer {A S}.
Arguments size {A S}.
Arguments input {A S}.
Arguments output {A S}.
Arguments input_dim {A S}.
Arguments activation {A S}.
Arguments _built {A S}.
Arguments dropout {A S}.
Arguments own {A S}.
Arguments Dense A : clear implicits.
Arguments RBF A : clear implicits.

(** *** Comparing and hashing a Parameter *)

Section ParameterProtocol.
Context {A : Type} `{Scalar A}.

(** [Parameter] defines neither [__eq__] nor [__hash__]; it has those of
    [np.ndarray].  [p == q] compares the entries one by one, with
    broadcasting, and gives an array of booleans; [ndarray.__hash__] is
    [None], so that hashing a Parameter raises [TypeError]. *)
Definition eqb (x y : A) : bool := leb x y && leb y x.

Definition eq_rows (u v : list A) : result (list bool) :=
  bc (fun x y => Ok (eqb x y)) u v.

(** [a == b] on arrays *)
Definition ndarray_eq (a b : ndarray A) : result (ndarray bool) :=
  match a, b with
  | Num x, Num y => Ok (Num (eqb x y))
  | Num x, Vec v => Ok (Vec (map (eqb x) v))
  | Num x, Mat m => Ok (Mat (map (map (eqb x)) m))
  | Vec u, Num y => Ok (Vec (map (fun x => eqb x y) u))
  | Mat m, Num y => Ok (Mat (map (map (fun x => eqb x y)) m))
  | Vec u, Vec v => Vec <$> eq_rows u v
  | Vec u, Mat m => Mat <$> bc eq_rows [u] m
  | Mat m, Vec v => Mat <$> bc eq_rows m [v]
  | Mat m, Mat m' => Mat <$> bc eq_rows m m'
  end.

(** [p == q] on Parameters *)
Definition Parameter_eq (p q : Parameter_t A) : result (ndarray bool) :=
  ndarray_eq (value p) (value q).

(** [hash(p)] *)
Definition Parameter_hash (p : Parameter_t A) : result Z := Raise TypeError.

(** [d[p] = x] on a dict, given by its entries with their hashes: the
    key is hashed first. *)
Definition dict_setitem {X} (d : list (Z * (Parameter_t A * X)))
    (p : Parameter_t A) (x : X) : result (list (Z * (Parameter_t A * X))) :=
  k ← Parameter_hash p;
  Ok ((k, (p, x)) :: d).

End ParameterProtocol.

(** [a.all()] on an array of booleans *)
Definition all_true (a : ndarray bool) : bool :=
  match a with
  | Num b => b
  | Vec v => forallb (fun b => b) v
  | Mat m => forallb (forallb (fun b => b)) m
  end.

(* ===================================================================== *)
(** ** Attribute assignment on a Layer *)
(* ===================================================================== *)

(** [Layer.__setattr__] works on the attributes of the instance, whatever
    their names and values; it is modelled on the instance dictionary. *)
Module Attr.

(** A Python object reference. *)
Definition ref := positive.

(** The values that matter to [__setattr__]: a Parameter (by reference),
    a dict with string keys, and two kinds of value that are neither. *)
#[local] Unset Elimination Schemes.
Inductive pyval : Type :=
| VParameter (p : ref)
| VDict (d : gmap string pyval)
| VNone
| VInt (z : Z).
#[local] Set Elimination Schemes.

(** The instance dictionary of a Layer. *)
Abbreviation instance := (gmap string pyval).

(** [isinstance(value, Parameter)] *)
Definition isinstance_Parameter (value : pyval) : bool :=
  match value with
  | VParameter _ => true
  | _ => false
  end.

(** [hasattr(self, name)] for a name that is not a class attribute. *)
Definition hasattr (self : instance) (name : string) : bool :=
  bool_decide (is_Some (self !! name)).

(** [getattr(self, name)] for a name that is not a class attribute. *)
Definition getattr (self : instance) (name : string) : result pyval :=
  match self !! name with
  | Some v => Ok v
  | None => Raise AttributeError
  end.

(** [object.__setattr__(self, name, value)].  A name for which the type
    holds a data descriptor is handed to it: [__dict__] replaces the
    whole instance dictionary and takes a dict only, [__class__] takes a
    class only (no [pyval] is one), [__weakref__] cannot be written.  The
    class attribute [activation] is a descriptor of the module
    [functions], which is not part of the sources: the statements below
    leave it out.  Every other name is stored in the instance
    dictionary. *)
Definition object_setattr (self : instance) (name : string) (value : pyval)
  : result instance :=
  if decide (name = "__dict__") then
    match value with
    | VDict d => Ok d
    | _ => Raise TypeError
    end
  else if decide (name = "__class__") then Raise TypeError
  else if decide (name = "__weakref__") then Raise AttributeError
  else Ok (<[name := value]> self).

(** [x[name] = value] *)
Definition py_setitem (x : pyval) (name : string) (value : pyval)
  : result pyval :=
  match x with
  | VDict d => Ok (VDict (<[name := value]> d))
  | VParameter _ => Raise IndexError
  | _ => Raise TypeError
  end.

(** [name in x] *)
Definition py_contains (x : pyval) (name : string) : result bool :=
  match x with
  | VDict d => Ok (bool_decide (is_Some (d !! name)))
  | VParameter _ => Ok false
  | _ => Raise TypeError
  end.

(** [del x[name]] *)
Definition py_delitem (x : pyval) (name : string) : result pyval :=
  match x with
  | VDict d => Ok (VDict (delete name d))
  | VParameter _ => Raise ValueError
  | _ => Raise TypeError
  end.

(** [Layer.__setattr__(self, name, value)].  [self.parameters] is a
    mutable dict: the item assignment and the deletion change the dict
    that the attribute [parameters] refers to. *)
Definition __setattr__ (self : instance) (name : string) (value : pyval)
  : result instance :=
  self ← (if hasattr self "parameters" then Ok self
          else object_setattr self "parameters" (VDict ∅));
  self ←
    (if isinstance_Parameter value then
       parameters ← getattr self "parameters";
       parameters ← py_setitem parameters name value;
       Ok (<["parameters" := parameters]> self)
     else
       parameters ← getattr self "parameters";
       found ← py_contains parameters name;
       if found : bool then
         parameters ← py_delitem parameters name;
         Ok (<["parameters" := parameters]> self)
       else Ok self);
  object_setattr self name value.

(** A sequence of assignments [self.name = value], in order. *)
Definition assign_all (self : instance) (l : list (string * pyval))
  : result instance :=
  foldR (fun self nv => __setattr__ self nv.1 nv.2) l self.

(** [name] is a key of [self.parameters]. *)
Definition is_key (self : instance) (name : string) : Prop :=
  exists d, self !! "parameters" = Some (VDict d) /\ is_Some (d !! name).

(** The attribute [name] is bound to a Parameter. *)
Definition bound_to_Parameter (self : instance) (name : string) : Prop :=
  exists p, self !! name = Some (VParameter p).

(** The map [parameters] tracks the Parameter-valued attributes. *)
Definition synced (self : instance) : Prop :=
  forall name, is_key self name <-> bound_to_Parameter self name.

(** The attribute [parameters] is unset or holds a dict. *)
Definition parameters_ok (self : instance) : Prop :=
  self !! "parameters" = None \/
  exists d, self !! "parameters" = Some (VDict d).

(** Names whose assignment is not an update of the instance dictionary
    next to [parameters], or whose value is not what reading the
    attribute gives: [parameters] itself; the descriptors [activation],
    [__dict__], [__class__] and [__weakref__]; and [forward] and
    [backward], which [Layer.__getattribute__] answers with the wrapped
    methods whatever the instance dictionary holds. *)
Definition reserved (name : string) : Prop :=
  name ∈ ["parameters"; "activation"; "__dict__"; "__class__";
          "__weakref__"; "forward"; "backward"].

(** [object.__setattr__] on a name that is not reserved. *)
Definition plain (name : string) : Prop :=
  name <> "__dict__" /\ name <> "__class__" /\ name <> "__weakref__".

End Attr.

(* ===================================================================== *)
(** ** toych/optim.py *)
(* ===================================================================== *)

Module optim.
Section Optim.
Context {A : Type} `{Scalar A}.

(** A Python object reference. *)
Definition ref := positive.

(** Modelled from the spec: class [Param] of [toych/core.py], which the
    optimizers import and which is not part of the sources.  By the spec
    a parameter is a tensor with an identity and an accumulated gradient
    slot that is absent after it has been cleared; it compares and hashes
    by identity.  A [Param] object lives in a heap under its reference,
    and a dict keyed by [Param]s is a map keyed by references. *)
Record Param : Type := mkParam {
  data : ndarray A;
  param_grad : option (ndarray A);
}.

Abbreviation heap := (gmap ref Param).

(** Modelled from the spec: [Param.has_grad] and [Param.del_grad]. *)
Definition has_grad (p : Param) : bool :=
  match param_grad p with
  | Some _ => true
  | None => false
  end.

Definition del_grad (p : Param) : Param := mkParam (data p) None.

(** [p.grad] once [has_grad] holds. *)
Definition get_grad (p : Param) : result (ndarray A) :=
  match param_grad p with
  | Some g => Ok g
  | None => Raise AttributeError
  end.

Definition get_param (h : heap) (par : ref) : result Param :=
  match h !! par with
  | Some p => Ok p
  | None => Raise AssertionError
  end.

(** *** class Optimizer *)

(** The values [reg] may hold besides [None]: a callable, a string,
    anything else.  [truthy] is the truth value of the object ([0],
    [False] and the empty containers are false; a function is true, a
    callable object is what its [__bool__] or [__len__] says); a string
    is true unless it is empty. *)
Inductive reg_t : Type :=
| RegFun (truthy : bool) (f : ndarray A -> result (ndarray A))
| RegStr (s : string)
| RegOther (truthy : bool).

(** [bool(reg)] *)
Definition reg_truth (r : reg_t) : bool :=
  match r with
  | RegFun truthy _ => truthy
  | RegStr EmptyString => false
  | RegStr _ => true
  | RegOther truthy => truthy
  end.

Record Optimizer : Type := mkOptimizer {
  lr : A;
  reg : option reg_t;
  lamb : A;
  grad_lim : option A;
}.

(** The subclass: its state, its [update], and the attributes it shares
    with [Optimizer]. *)
Class OptimizerImpl (St : Type) := {
  base : St -> Optimizer;
  update : St -> heap -> ref -> result (St * heap);
}.

Definition is_zero (x : A) : bool := leb x zero && leb zero x.

(** All entries of an array, in order. *)
Definition flat (a : ndarray A) : list A :=
  match a with
  | Num x => [x]
  | Vec v => v
  | Mat m => concat m
  end.

(** [a.min()] and [a.max()] *)
Definition amin (a : ndarray A) : result A :=
  match flat a with
  | [] => Raise ValueError
  | x :: l => Ok (fold_left (fun b y => if ltb y b then y else b) l x)
  end.

Definition amax (a : ndarray A) : result A :=
  match flat a with
  | [] => Raise ValueError
  | x :: l => Ok (fold_left (fun b y => if ltb b y then y else b) l x)
  end.

(** Python's [max(x, y)] *)
Definition max2 (x y : A) : A := if ltb x y then y else x.

(** [Optimizer.shrink_grad] *)
Definition shrink_grad (lim : A) (param : Param) : result Param :=
  g ← get_grad param;
  lo ← amin g;
  hi ← amax g;
  let scale := div lim (max2 (opp lo) hi) in
  if negb (ltb zero scale) then Raise AssertionError
  else if ltb scale one then
    g ← aug mul g (Num scale);
    Ok (mkParam (data param) (Some g))
  else Ok param.

Definition lower_ascii (c : ascii) : ascii :=
  let n := nat_of_ascii c in
  if (65 <=? n) && (n <=? 90) then ascii_of_nat (n + 32) else c.

(** [s.lower()] on ASCII letters. *)
Fixpoint lower (s : string) : string :=
  match s with
  | EmptyString => EmptyString
  | String c s' => String (lower_ascii c) (lower s')
  end.

(** [np.sign] of one entry. *)
Definition sign (x : A) : A :=
  if ltb zero x then one else if ltb x zero then opp one else zero.

(** [Optimizer.regularize] *)
Definition regularize (self : Optimizer) (param : Param) : result Param :=
  match reg self with
  | None => Ok param
  | Some r =>
      if negb (reg_truth r) then Ok param
      else
        reg ← match r with
              | RegFun _ f => f (data param)
              | RegStr s =>
                  if bool_decide (lower s ∈ ["l1"; "lasso"]) then
                    Ok (amap sign (data param))
                  else if bool_decide (lower s ∈ ["l2"; "ridge"]) then
                    Ok (data param)
                  else Raise ValueError
              | RegOther _ => Raise TypeError
              end;
        step ← bop mul (Num (mul (lr self) (lamb self))) reg;
        d ← iop sub (data param) step;
        Ok (mkParam d (param_grad param))
  end.

(** The body of the loop of [Optimizer.__call__].  The scope
    [Param.not_training()] around the loop only switches the recording of
    gradients off; it does not enter the arithmetic. *)
Definition step {St} `{OptimizerImpl St} (s : St * heap) (par : ref)
  : result (St * heap) :=
  let '(self, h) := s in
  p ← get_param h par;
  if negb (has_grad p) then Raise AssertionError
  else
    h ← match grad_lim (base self) with
        | Some lim =>
            if is_zero lim then Ok h
            else p ← shrink_grad lim p; Ok (<[par := p]> h)
        | None => Ok h
        end;
    '(self, h) ← update self h par;
    p ← get_param h par;
    p ← regularize (base self) p;
    Ok (self, <[par := del_grad p]> h).

(** [Optimizer.__call__(self, parameters)] *)
Definition Optimizer_call {St} `{OptimizerImpl St} (self : St) (h : heap)
    (parameters : list ref) : result (St * heap) :=
  foldR step parameters (self, h).

(** *** class SGD(Optimizer) *)

Record SGD : Type := mkSGD {
  sgd_base : Optimizer;
  mom : A;
  old_delta : gmap ref (ndarray A);
}.

(** [SGD.update] *)
Definition SGD_update (self : SGD) (h : heap) (par : ref)
  : result (SGD * heap) :=
  p ← get_param h par;
  g ← get_grad p;
  delta ← match old_delta self !! par with
          | Some od =>
              x ← bop mul (Num (mom self)) od;
              y ← bop mul (Num (sub one (mom self))) g;
              bop sub x y
          | None => Ok (amap opp g)
          end;
  let self := mkSGD (sgd_base self) (mom self)
                    (<[par := delta]> (old_delta self)) in
  d ← bop mul (Num (lr (sgd_base self))) delta;
  d ← iop add (data p) d;
  Ok (self, <[par := mkParam d (param_grad p)]> h).

#[export] Instance SGD_impl : OptimizerImpl SGD := {
  base := sgd_base;
  update := SGD_update;
}.

(** [SGD.__init__] after [Optimizer.__new__] has set the attributes. *)
Definition SGD_new (o : Optimizer) (mom : A) : SGD := mkSGD o mom ∅.

(** *** class Adam(Optimizer) *)

Record Adam : Type := mkAdam {
  adam_base : Optimizer;
  b1 : A;
  b2 : A;
  eps : A;
  t : nat;
  m : gmap ref (ndarray A);
  v : gmap ref (ndarray A);
}.

(** [d[par]] for a [defaultdict(float)] *)
Definition lookup_default (d : gmap ref (ndarray A)) (par : ref) : ndarray A :=
  default (Num zero) (d !! par).

(** [Adam.update] *)
Definition Adam_update (self : Adam) (h : heap) (par : ref)
  : result (Adam * heap) :=
  p ← get_param h par;
  g ← get_grad p;
  m1 ← (x ← bop mul (Num (b1 self)) (lookup_default (m self) par);
        y ← bop mul (Num (sub one (b1 self))) g;
        bop add x y);
  v1 ← (x ← bop mul (Num (b2 self)) (lookup_default (v self) par);
        y ← bop mul (Num (sub one (b2 self))) (amap (fun x => pow x 2) g);
        bop add x y);
  let self := mkAdam (adam_base self) (b1 self) (b2 self) (eps self)
                     (t self) (<[par := m1]> (m self))
                     (<[par := v1]> (v self)) in
  m_hat ← bop div m1 (Num (sub one (pow (b1 self) (t self))));
  v_hat ← bop div v1 (Num (sub one (pow (b2 self) (t self))));
  num ← bop mul (Num (lr (adam_base self))) m_hat;
  den ← bop add (amap sqrt v_hat) (Num (eps self));
  d ← bop div num den;
  d ← iop sub (data p) d;
  Ok (self, <[par := mkParam d (param_grad p)]> h).

#[export] Instance Adam_impl : OptimizerImpl Adam := {
  base := adam_base;
  update := Adam_update;
}.

(** [Adam.__init__] after [Optimizer.__new__] has set the attributes. *)
Definition Adam_new (o : Optimizer) (b1 b2 eps : A) : Adam :=
  mkAdam o b1 b2 eps 0 ∅ ∅.

(** [Adam.__call__] *)
Definition Adam_call (self : Adam) (h : heap) (params : list ref)
  : result (Adam * heap) :=
  let self := mkAdam (adam_base self) (b1 self) (b2 self) (eps self)
                     (t self + 1) (m self) (v self) in
  Optimizer_call self h params.

End Optim.
Arguments Param A : clear implicits.
Arguments Optimizer A : clear implicits.
Arguments SGD A : clear implicits.
Arguments Adam A : clear implicits.
Arguments reg_t A : clear implicits.
End optim.

(* ===================================================================== *)
(** ** model/__init__.py: Compose *)
(* ===================================================================== *)

Module model.
Section Compose.
Context {X : Type}.

(** The exceptions a call of an operation can end in: the ones of [exn]
    and the [UnboundLocalError] of [Compose.apply]. *)
Inductive pyerror : Type :=
| UnboundLocalError
| Builtin (e : exn).

Inductive outcome : Type :=
| Return (x : X)
| Throw (e : pyerror).

(** An operation: a callable from a value to a value.  Calling a model
    applies it; the recording of the call is not modelled. *)
Definition operation : Type := X -> outcome.

(** The loop of [Compose.apply]: [input] and [output] are the two local
    names, [output] being unbound until the first operation returns. *)
Fixpoint apply_loop (ops : list operation) (input : X) (output : option X)
  : outcome :=
  match ops with
  | [] =>
      match output with
      | Some o => Return o
      | None => Throw UnboundLocalError
      end
  | op :: ops' =>
      match op input with
      | Return r => apply_loop ops' r (Some r)
      | Throw e => Throw e
      end
  end.

(** [Compose.apply(self, input)] with [self.ops = ops] *)
Definition Compose_apply (ops : list operation) (input : X) : outcome :=
  apply_loop ops input None.

(** [Compose.__getitem__]: an index into the tuple of operations. *)
Definition Compose_getitem (ops : list operation) (i : nat)
  : result operation :=
  match ops !! i with
  | Some op => Ok op
  | None => Raise IndexError
  end.

End Compose.
Arguments pyerror : clear implicits.
Arguments outcome X : clear implicits.
Arguments operation X : clear implicits.
End model.

(* ===================================================================== *)
(** ** Two scalar types *)
(* ===================================================================== *)

(** Integers: a commutative ring on which every definition computes.
    [div], [inv], [sqrt] and [exp] are integer operations (floor
    division, integer square root, a power of two) that stand in for the
    real ones when a layer is run on integers; no statement depends on
    their values. *)
#[export] Instance Z_Scalar : Scalar Z := {
  zero := 0%Z;
  one := 1%Z;
  add := Z.add;
  mul := Z.mul;
  sub := Z.sub;
  opp := Z.opp;
  div := Z.div;
  inv := fun x => Z.div 1 x;
  sqrt := Z.sqrt;
  exp := fun x => Z.pow 2 x;
  abs := Z.abs;
  leb := Z.leb;
}.

(** Real numbers: the field the floats approximate. *)
#[export] Instance R_Scalar : Scalar R := {
  zero := 0%R;
  one := 1%R;
  add := Rplus;
  mul := Rmult;
  sub := Rminus;
  opp := Ropp;
  div := Rdiv;
  inv := Rinv;
  sqrt := R_sqrt.sqrt;
  exp := Rtrigo_def.exp;
  abs := Rabs;
  leb := fun x y => if Rle_dec x y then true else false;
}.

(** One possible outcome of [np.random.normal]: every entry is [x]. *)
Definition constant_draw {A} `{Scalar A} (x : A)
  : A -> A -> size_t -> result (ndarray A) :=
  fun _ _ size => Ok (full_num size x).

(* ===================================================================== *)
(** * Properties *)
(* ===================================================================== *)

(** ** Loops that do not raise *)

Section Loops.
Context {X Y Z : Type}.

Lemma mapR_ok (f : X -> result Y) (g : X -> Y) (l : list X) :
  (forall x, x ∈ l -> f x = Ok (g x)) -> mapR f l = Ok (map g l).
Proof.
  induction l as [|x l IH]; intros Hf; simpl; [done|].
  rewrite Hf by left. simpl.
  rewrite IH; [done|]. intros y Hy. apply Hf. by right.
Qed.

Lemma zipR_ok (F : X -> Y -> result Z) (G : X -> Y -> Z) (u : list X) (v : list Y) :
  Forall2 (fun x y => F x y = Ok (G x y)) u v ->
  zipR F u v = Ok (zip_with G u v).
Proof.
  induction 1 as [|x y u v Hxy Huv IH]; simpl; [done|].
  by rewrite Hxy; simpl; rewrite IH.
Qed.

Lemma zipR_pure (G : X -> Y -> Z) (u : list X) (v : list Y) :
  length u = length v ->
  zipR (fun x y => Ok (G x y)) u v = Ok (zip_with G u v).
Proof.
  intros Hl. apply zipR_ok.
  revert v Hl. induction u as [|x u IH]; intros [|y v] Hl;
    simpl in Hl; try discriminate; constructor; auto.
Qed.

End Loops.

(** ** Shapes and values of the numpy fragment *)

(** A bind that returns has returned on the way. *)
Lemma bind_Ok_inv {X Y} (r : result X) (k : X -> result Y) (y : Y) :
  (r ≫= k) = Ok y -> exists x, r = Ok x /\ k x = Ok y.
Proof. destruct r as [x|e]; [eauto|discriminate]. Qed.

Lemma fmap_Ok_inv {X Y} (r : result X) (f : X -> Y) (y : Y) :
  f <$> r = Ok y -> exists x, r = Ok x /\ y = f x.
Proof. destruct r as [x|e]; simpl; [|discriminate]. intros [= <-]. eauto. Qed.

Section ArrayFacts.
Context {A : Type} `{Scalar A}.

(** Matrix product, row by row. *)
Definition mmul (a b : list (list A)) : list (list A) :=
  map (fun r => map (dot r) (transpose b)) a.

(** Entrywise sum of two matrices of one shape. *)
Definition madd (a b : list (list A)) : list (list A) :=
  zip_with (zip_with add) a b.

Lemma rect_cons n c r (m : list (list A)) :
  rect (S n) c (r :: m) <-> length r = c /\ rect n c m.
Proof.
  unfold rect. simpl. rewrite Forall_cons. intuition lia.
Qed.

Lemma rect_ncols n c (m : list (list A)) :
  rect n c m -> 0 < n -> ncols m = c.
Proof.
  intros [Hn Hc] Hpos. destruct m as [|r m]; simpl in *; [lia|].
  by inversion Hc.
Qed.

Lemma rect_elem n c (m : list (list A)) r :
  rect n c m -> r ∈ m -> length r = c.
Proof. intros [_ Hc] Hr. rewrite Forall_forall in Hc. auto. Qed.

Lemma length_transpose (m : list (list A)) :
  length (transpose m) = ncols m.
Proof. unfold transpose. by rewrite length_map, length_seq. Qed.

Lemma rect_transpose n c (m : list (list A)) :
  rect n c m -> 0 < n -> rect c n (transpose m).
Proof.
  intros Hm Hpos. split.
  - rewrite length_transpose. eauto using rect_ncols.
  - apply Forall_forall. intros r Hr. unfold transpose in Hr.
    apply list_elem_of_In, in_map_iff in Hr as (j & <- & _).
    rewrite length_map. apply Hm.
Qed.

Lemma rect_mmul n k c (a b : list (list A)) :
  rect n k a -> rect k c b -> 0 < k -> rect n c (mmul a b).
Proof.
  intros Ha Hb Hk. split.
  - unfold mmul. rewrite length_map. apply Ha.
  - apply Forall_forall. intros r Hr.
    apply list_elem_of_In, in_map_iff in Hr as (r0 & <- & _).
    rewrite length_map, length_transpose. eauto using rect_ncols.
Qed.

Lemma matmul_Mat n k (a b : list (list A)) :
  rect n k a -> length b = k ->
  matmul (Mat a) (Mat b) = Ok (Mat (mmul a b)).
Proof.
  intros Ha Hb. simpl. unfold mmul.
  rewrite (mapR_ok _ (fun r => map (dot r) (transpose b))); [done|].
  intros r Hr. unfold row_matmul.
  rewrite (rect_elem _ _ _ _ Ha Hr), Hb, Nat.eqb_refl. done.
Qed.

Lemma bc1_same (f : A -> A -> A) (u v : list A) :
  length u = length v -> bc1 f u v = Ok (zip_with f u v).
Proof.
  intros Hl. unfold bc1, bc. rewrite Hl, Nat.eqb_refl.
  by apply zipR_pure.
Qed.

Lemma bc_rows_same (f : A -> A -> A) (a b : list (list A)) :
  Forall2 (fun r r' => length r = length r') a b ->
  bc (bc1 f) a b = Ok (zip_with (zip_with f) a b).
Proof.
  intros Hab. unfold bc.
  rewrite (Forall2_length _ _ _ Hab), Nat.eqb_refl.
  apply zipR_ok. eapply Forall2_impl; [exact Hab|].
  intros r r' Hr. by apply bc1_same.
Qed.

Lemma rect_Forall2 n c (a b : list (list A)) :
  rect n c a -> rect n c b ->
  Forall2 (fun r r' => length r = length r') a b.
Proof.
  intros [Hna Hca] [Hnb Hcb].
  apply Forall2_same_length_lookup. split; [lia|].
  intros i r r' Hr Hr'.
  rewrite Forall_forall in Hca, Hcb.
  rewrite (Hca r), (Hcb r'); eauto using list_elem_of_lookup_2.
Qed.

Lemma rect_zip_with n c (f : A -> A -> A) (a b : list (list A)) :
  rect n c a -> rect n c b -> rect n c (zip_with (zip_with f) a b).
Proof.
  intros Ha Hb. split.
  - rewrite length_zip_with. destruct Ha, Hb. lia.
  - apply Forall_forall. intros r Hr.
    apply list_elem_of_lookup in Hr as [i Hi].
    apply lookup_zip_with_Some in Hi as (x & y & -> & Hx & Hy).
    rewrite length_zip_with.
    rewrite (rect_elem _ _ _ _ Ha), (rect_elem _ _ _ _ Hb);
      eauto using list_elem_of_lookup_2. lia.
Qed.

Lemma rect_map n c (f : A -> A) (a : list (list A)) :
  rect n c a -> rect n c (map (map f) a).
Proof.
  intros [Hn Hc]. split; [by rewrite length_map|].
  apply Forall_forall. intros r Hr.
  apply list_elem_of_In, in_map_iff in Hr as (r0 & <- & Hr0).
  rewrite length_map. rewrite Forall_forall in Hc.
  apply Hc. by apply list_elem_of_In.
Qed.

(** Matrix plus row vector, as for the bias. *)
Lemma bop_Mat_Vec n c (f : A -> A -> A) (a : list (list A)) (v : list A) :
  rect n c a -> length v = c ->
  bop f (Mat a) (Vec v) = Ok (Mat (map (fun r => zip_with f r v) a)).
Proof.
  intros Ha Hv. simpl. unfold bc.
  assert (Hrows : forall r, r ∈ a -> bc1 f r v = Ok (zip_with f r v)).
  { intros r Hr. apply bc1_same. rewrite (rect_elem _ _ _ _ Ha Hr). done. }
  destruct a as [|r [|r' a]]; simpl.
  - reflexivity.
  - rewrite Hrows by left. reflexivity.
  - rewrite !Hrows by (repeat constructor). simpl.
    rewrite (mapR_ok _ (fun r => zip_with f r v)); [reflexivity|].
    intros r0 Hr0. apply Hrows. by do 2 right.
Qed.

Lemma bop_Mat_Mat n c (f : A -> A -> A) (a b : list (list A)) :
  rect n c a -> rect n c b ->
  bop f (Mat a) (Mat b) = Ok (Mat (zip_with (zip_with f) a b)).
Proof.
  intros Ha Hb. simpl. rewrite bc_rows_same; [done|].
  eauto using rect_Forall2.
Qed.

Lemma iop_Mat_Mat n c (f : A -> A -> A) (a b : list (list A)) :
  rect n c a -> rect n c b ->
  iop f (Mat a) (Mat b) = Ok (Mat (zip_with (zip_with f) a b)).
Proof.
  intros Ha Hb. unfold iop. erewrite bop_Mat_Mat by eauto. simpl.
  unfold shape_eqb. rewrite bool_decide_eq_true_2; [done|].
  pose proof (rect_zip_with _ _ f _ _ Ha Hb) as Hz.
  simpl. destruct Hz as [Hzn Hzc], Ha as [Han Hac].
  f_equal; [lia|]. f_equal.
  destruct a as [|r a], b as [|r' b]; simpl in *; try done; try lia.
  inversion Hzc; inversion Hac; subst. lia.
Qed.

End ArrayFacts.

(** ** Dense: what one forward and one backward compute *)

Section DenseFacts.
Context {A : Type} `{Scalar A}.
Variable normal : A -> A -> size_t -> result (ndarray A).
#[local] Instance Dense_layer : LayerImpl (Dense A) := Dense_impl normal.
Arguments matmul : simpl never.
Arguments bop : simpl never.
Arguments iop : simpl never.
Arguments sum_axis0 : simpl never.
Arguments insert0 : simpl never.

(** The affine map of a Dense layer on a batch [x], for the weight
    matrix [W] (bias row first when there is a bias). *)
Definition dense_out (bias : bool) (W x : list (list A)) : list (list A) :=
  if bias then map (fun r => zip_with add r (hd [] W)) (mmul x (tail W))
  else mmul x W.

(** The gradient one backward call contributes: the column sums of the
    error for the bias row, then input transposed times error. *)
Definition dense_grad (bias : bool) (x e : list (list A)) : list (list A) :=
  (if bias then [map sum (transpose e)] else []) ++ mmul (transpose x) e.

(** The error passed upstream. *)
Definition dense_upstream (W e : list (list A)) : list (list A) :=
  mmul e (transpose (tail W)).

Definition rows_of (bias : bool) (d : nat) : nat :=
  d + (if bias then 1 else 0).

(** A Dense layer as [setup] leaves it, with weight matrix [W]. *)
Definition built (self : Layer A (Dense A)) (bias : bool) (d s : nat)
    (W : list (list A)) : Prop :=
  with_bias (own self) = bias /\
  (exists w, weights (own self) = Some w /\ value w = Mat W) /\
  rect (rows_of bias d) s W /\
  size self = s /\ input_dim self = Some d.

Lemma rect_tail n c (m : list (list A)) :
  rect (S n) c m -> rect n c (tail m).
Proof.
  destruct m as [|r m]; [intros [? _]; discriminate|].
  intros Hm. by apply rect_cons in Hm as [_ ?].
Qed.

Lemma rect_hd n c (m : list (list A)) :
  rect (S n) c m -> length (hd [] m) = c /\ m = hd [] m :: tail m.
Proof.
  destruct m as [|r m]; [intros [? _]; discriminate|].
  intros Hm. by apply rect_cons in Hm as [? _].
Qed.

Lemma rect_dense_out bias n d s W x :
  rect (rows_of bias d) s W -> rect n d x -> 0 < d ->
  rect n s (dense_out bias W x).
Proof.
  intros HW Hx Hd. unfold dense_out, rows_of in *. destruct bias.
  - replace (d + 1) with (S d) in HW by lia.
    pose proof (rect_tail _ _ _ HW) as Ht.
    pose proof (rect_hd _ _ _ HW) as [Hb _].
    pose proof (rect_mmul _ _ _ _ _ Hx Ht Hd) as [Hn Hc].
    split; [by rewrite length_map|].
    apply Forall_forall. intros r Hr.
    apply list_elem_of_In, in_map_iff in Hr as (r0 & <- & Hr0).
    rewrite length_zip_with, Hb. rewrite Forall_forall in Hc.
    rewrite (Hc r0) by (by apply list_elem_of_In). lia.
  - rewrite Nat.add_0_r in HW. eauto using rect_mmul.
Qed.

Lemma Dense_forward_ok self bias n d s W x :
  built self bias d s W -> rect n d x -> 0 < d ->
  Dense_forward self (Mat x) = Ok (Mat (dense_out bias W x)).
Proof.
  intros (Hb & (w & Hw & HW) & Hrect & _) Hx Hd.
  unfold Dense_forward, get_weights. rewrite Hw. cbn [mbind result_bind].
  rewrite Hb, HW.
  unfold dense_out, rows_of in *. destruct bias.
  - replace (d + 1) with (S d) in Hrect by lia.
    pose proof (rect_tail _ _ _ Hrect) as Ht.
    pose proof (rect_hd _ _ _ Hrect) as [Hlb HWeq].
    destruct W as [|b Wt]; [discriminate|]. simpl in Ht, Hlb |- *.
    rewrite (matmul_Mat n d) by (done || apply Ht).
    cbn [mbind result_bind].
    erewrite bop_Mat_Vec; [done| |done].
    eapply rect_mmul; eauto.
  - rewrite Nat.add_0_r in Hrect.
    rewrite (matmul_Mat n d) by (done || apply Hrect). done.
Qed.

Lemma rect_dense_grad bias n d s x e :
  rect n d x -> rect n s e -> 0 < n ->
  rect (rows_of bias d) s (dense_grad bias x e).
Proof.
  intros Hx He Hn. unfold dense_grad, rows_of.
  pose proof (rect_transpose _ _ _ Hx Hn) as Hxt.
  pose proof (rect_mmul _ _ _ _ _ Hxt He Hn) as [Hgn Hgc].
  destruct bias; simpl.
  - split; [simpl; lia|]. constructor; [|done].
    rewrite length_map, length_transpose. eauto using rect_ncols.
  - rewrite Nat.add_0_r. done.
Qed.

Lemma insert0_grad (a e : list (list A)) :
  insert0 (Mat (mmul a e)) (Vec (map sum (transpose e))) =
  Ok (Mat (map sum (transpose e) :: mmul a e)).
Proof.
  unfold insert0. destruct (mmul a e) as [|r g] eqn:Hg; [done|].
  assert (Hr : length r = length (transpose e)).
  { unfold mmul in Hg. destruct a as [|r0 a]; simplify_eq/=.
    by rewrite length_map. }
  simpl. rewrite length_map, Hr, Nat.eqb_refl. done.
Qed.

(** The gradient slot after [self.weights.grad += G]. *)
Definition accumulate (g0 : option (ndarray A)) (G : list (list A))
  : list (list A) :=
  match g0 with
  | Some (Mat G0) => madd G0 G
  | _ => map (map (add zero)) G
  end.

(** An empty gradient slot, or a matrix of the shape of the weights. *)
Definition grad_slot_ok (g0 : option (ndarray A)) (r s : nat) : Prop :=
  g0 = None \/ exists G0, g0 = Some (Mat G0) /\ rect r s G0.

Lemma rect_accumulate g0 r s G :
  grad_slot_ok g0 r s -> rect r s G -> rect r s (accumulate g0 G).
Proof.
  intros [->|(G0 & -> & HG0)] HG; simpl.
  - by apply rect_map.
  - by apply rect_zip_with.
Qed.

Lemma grad_iadd_ok (w : Parameter_t A) r s G :
  grad_slot_ok (_grad w) r s -> rect r s G ->
  grad_iadd w (Mat G) =
  Ok (mkParameter (value w) (Some (Mat (accumulate (_grad w) G))) (Some true)).
Proof.
  intros Hg HG. unfold grad_iadd, grad.
  destruct Hg as [Hg|(G0 & Hg & HG0)]; rewrite Hg.
  - reflexivity.
  - unfold aug. erewrite iop_Mat_Mat by eauto. reflexivity.
Qed.

Lemma Dense_backward_ok self bias n d s W x e g0 dirty pe :
  own self = mkDense bias (Some (mkParameter (Mat W) g0 dirty)) ->
  input self = Some (Mat x) ->
  rect (rows_of bias d) s W -> rect n d x -> rect n s e ->
  grad_slot_ok g0 (rows_of bias d) s ->
  0 < n -> (pe = true -> 1 < rows_of bias d) ->
  Dense_backward self (Mat e) pe =
  Ok (set_sub self
        (mkDense bias
           (Some (mkParameter (Mat W)
                    (Some (Mat (accumulate g0 (dense_grad bias x e))))
                    (Some true)))),
      if pe then Some (Mat (dense_upstream W e)) else None).
Proof.
  intros Hown Hin HW Hx He Hg Hn Hrows.
  unfold Dense_backward, get_weights. rewrite Hin, Hown.
  cbn [mbind result_bind T with_bias weights].
  pose proof (rect_transpose _ _ _ Hx Hn) as Hxt.
  pose proof (rect_dense_grad bias n d s x e Hx He Hn) as HG.
  rewrite (matmul_Mat d n) by (done || apply He).
  cbn [mbind result_bind].
  assert (Hins :
    (if bias then
       sum_axis0 (Mat e) ≫= (fun grad_b => insert0 (Mat (mmul (transpose x) e)) grad_b)
     else Ok (Mat (mmul (transpose x) e))) = Ok (Mat (dense_grad bias x e))).
  { destruct bias; [|done]. unfold sum_axis0. cbn [mbind result_bind].
    by rewrite insert0_grad. }
  rewrite Hins. cbn [mbind result_bind].
  erewrite grad_iadd_ok; [|exact Hg|exact HG].
  cbn [mbind result_bind value _grad]. destruct pe; [|done].
  specialize (Hrows eq_refl).
  destruct (rows_of bias d) as [|[|k]] eqn:Hk; try lia.
  pose proof (rect_tail _ _ _ HW) as Ht.
  unfold from1. cbn [mbind result_bind T].
  rewrite (matmul_Mat n s); [done|done|].
  rewrite length_transpose. apply (rect_ncols (S k)); [done|lia].
Qed.

Lemma rect_dense_upstream n r s W e :
  rect (S (S r)) s W -> rect n s e -> 0 < s ->
  rect n (S r) (dense_upstream W e).
Proof.
  intros HW He Hs. unfold dense_upstream.
  pose proof (rect_tail _ _ _ HW) as Ht.
  eapply rect_mmul; eauto. apply rect_transpose; [done|lia].
Qed.

(** [_wrapped_forward] and [_wrapped_backward] of a Dense layer that has
    neither activation nor dropout. *)
Lemma wrapped_forward_batch self bias n d s W x :
  built self bias d s W -> rect n d x -> 0 < n -> 0 < d ->
  activation self = None -> dropout self = Some None ->
  _wrapped_forward self (Mat x) =
  Ok (set_io self (Some (Mat x)) (Some (Mat (dense_out bias W x))),
      Mat (dense_out bias W x)).
Proof.
  intros Hb Hx Hn Hd Ha Hdr. unfold _wrapped_forward, get_dropout.
  assert (reshape_rows (Mat x) = Ok (Mat x)) as ->.
  { destruct x; [destruct Hx; simpl in *; lia|done]. }
  cbn [mbind result_bind forward Dense_layer Dense_impl].
  erewrite Dense_forward_ok by eauto.
  cbn [mbind result_bind activation dropout set_io]. rewrite Ha, Hdr.
  reflexivity.
Qed.

Lemma wrapped_backward_cached self bias n d s W x out e g0 dirty pe :
  own self = mkDense bias (Some (mkParameter (Mat W) g0 dirty)) ->
  input self = Some (Mat x) -> output self = Some out ->
  activation self = None -> dropout self = Some None ->
  rect (rows_of bias d) s W -> rect n d x -> rect n s e ->
  grad_slot_ok g0 (rows_of bias d) s ->
  0 < n -> (pe = true -> 1 < rows_of bias d) ->
  _wrapped_backward self (Mat e) pe =
  Ok (set_io
        (set_sub self
           (mkDense bias
              (Some (mkParameter (Mat W)
                       (Some (Mat (accumulate g0 (dense_grad bias x e))))
                       (Some true)))))
        None None,
      if pe then Some (Mat (dense_upstream W e)) else None).
Proof.
  intros Hown Hin Hout Ha Hdr HW Hx He Hg Hn Hrows.
  unfold _wrapped_backward, get_dropout. rewrite Hout, Hdr, Ha.
  cbn [mbind result_bind backward Dense_layer Dense_impl].
  erewrite Dense_backward_ok by eauto. reflexivity.
Qed.

(** A Dense layer constructed without activation and dropout and set up
    with [setup(d)], whose random draw gave the weights [W]. *)
Definition fresh_Dense (bias : bool) (d s : nat) (W : list (list A))
  : Layer A (Dense A) :=
  mkLayer s None None (Some d) None false (Some None)
          (mkDense bias (Some (mkParameter (Mat W) None None))).

(** [self.weights._grad], if both attributes exist. *)
Definition weights_grad (self : Layer A (Dense A)) : option (ndarray A) :=
  w ← weights (own self); _grad w.

Lemma Layer_init_fresh bias d s W :
  normal zero (div one (sqrt (of_nat (rows_of bias d))))
         (SList2 (rows_of bias d) s) = Ok (Mat W) ->
  (L ← Layer_init (mkDense bias None) s None None None; setup L (Some d)) =
  Ok (fresh_Dense bias d s W).
Proof.
  intros Hdraw. unfold Layer_init.
  cbn [mbind result_bind setup Dense_layer Dense_impl]. unfold Dense_setup.
  unfold Layer_setup, Layer_repr, get_dropout.
  cbn [mbind result_bind set_input_dim set_dropout dropout own with_bias size].
  unfold Parameter_new. fold (rows_of bias d). rewrite Hdraw. reflexivity.
Qed.

Lemma built_fresh bias d s W :
  rect (rows_of bias d) s W -> built (fresh_Dense bias d s W) bias d s W.
Proof. intros HW. repeat split; simpl; eauto; apply HW. Qed.

(** *** Shapes through a Dense layer *)

(** A function on arrays that maps a matrix to a matrix of its shape, as
    an elementwise activation or a dropout mask does. *)
Definition keeps_shape (f : ndarray A -> result (ndarray A)) : Prop :=
  forall n c m, rect n c m -> exists m', f (Mat m) = Ok (Mat m') /\ rect n c m'.

(** The activation, if any, keeps the shape of a matrix, and [dropout] is
    [None] or a [Dropout] that keeps it. *)
Definition shape_preserving {S} (self : Layer A S) : Prop :=
  (forall a, activation self = Some a ->
             keeps_shape (act_call a) /\ keeps_shape (act_backward a)) /\
  (exists drop, dropout self = Some drop /\
     forall dr, drop = Some dr ->
                keeps_shape (drop_call dr) /\ keeps_shape (drop_backward dr)).

(** A gradient slot that [grad += G] can add a gradient of shape
    [r x s] to: no gradient yet, a number (the [0] that a read of [grad]
    or [zero_grad] leaves), or a matrix of that shape. *)
Definition grad_slot_fits (g0 : option (ndarray A)) (r s : nat) : Prop :=
  match g0 with
  | None => True
  | Some (Num _) => True
  | Some (Vec _) => False
  | Some (Mat G0) => rect r s G0
  end.

Lemma grad_slot_ok_fits g0 r s : grad_slot_ok g0 r s -> grad_slot_fits g0 r s.
Proof. by intros [->|(G0 & -> & HG0)]. Qed.

Lemma grad_iadd_fits (w : Parameter_t A) r s G :
  grad_slot_fits (_grad w) r s -> rect r s G ->
  exists G',
    grad_iadd w (Mat G) = Ok (mkParameter (value w) (Some (Mat G')) (Some true)).
Proof.
  intros Hg HG. unfold grad_iadd, grad.
  destruct (_grad w) as [[z|v|G0]|] eqn:Hslot; simpl in Hg; try done.
  - eexists. reflexivity.
  - unfold aug. erewrite iop_Mat_Mat by eauto. eexists. reflexivity.
  - eexists. reflexivity.
Qed.

Lemma Dense_backward_fits self n r s W x e g0 dirty :
  own self = mkDense true (Some (mkParameter (Mat W) g0 dirty)) ->
  input self = Some (Mat x) ->
  rect (S (S r)) s W -> rect n (S r) x -> rect n s e ->
  grad_slot_fits g0 (S (S r)) s -> 0 < n ->
  exists L2,
    Dense_backward self (Mat e) true = Ok (L2, Some (Mat (dense_upstream W e))).
Proof.
  intros Hown Hin HW Hx He Hg Hn.
  unfold Dense_backward, get_weights. rewrite Hin, Hown.
  cbn [mbind result_bind T with_bias weights].
  pose proof (rect_transpose _ _ _ Hx Hn) as Hxt.
  pose proof (rect_dense_grad true n (S r) s x e Hx He Hn) as HG.
  unfold rows_of in HG. replace (S r + 1) with (S (S r)) in HG by lia.
  rewrite (matmul_Mat (S r) n) by (done || apply He).
  cbn [mbind result_bind]. unfold sum_axis0. cbn [mbind result_bind].
  rewrite insert0_grad. cbn [mbind result_bind].
  destruct (grad_iadd_fits (mkParameter (Mat W) g0 dirty) (S (S r)) s
              (dense_grad true x e) Hg HG) as (G' & HG').
  unfold dense_grad in HG'. cbn [app] in HG'. rewrite HG'.
  cbn [mbind result_bind value].
  pose proof (rect_tail _ _ _ HW) as Ht.
  unfold from1. cbn [mbind result_bind T].
  rewrite (matmul_Mat n s); [eexists; reflexivity|done|].
  rewrite length_transpose. apply (rect_ncols (S r)); [done|lia].
Qed.

Lemma post_forward_shape {S} (self : Layer A S) n c out :
  shape_preserving self -> rect n c out ->
  exists y,
    (output ← match activation self with
              | Some a => act_call a (Mat out)
              | None => Ok (Mat out)
              end;
     drop ← get_dropout self;
     match drop with
     | Some d => drop_call d output
     | None => Ok output
     end) = Ok (Mat y) /\ rect n c y.
Proof.
  intros [Ha (drop & Hdrop & Hd)] Hout.
  assert (exists y1, match activation self with
                     | Some a => act_call a (Mat out)
                     | None => Ok (Mat out)
                     end = Ok (Mat y1) /\ rect n c y1) as (y1 & -> & Hy1).
  { destruct (activation self) as [a|]; [|eauto].
    destruct (Ha a eq_refl) as [Hc _]. eauto. }
  cbn [mbind result_bind]. unfold get_dropout. rewrite Hdrop.
  cbn [mbind result_bind].
  destruct drop as [dr|]; [|eauto].
  destruct (Hd dr eq_refl) as [Hc _]. eauto.
Qed.

Lemma wrapped_forward_shape self bias n d s W x :
  built self bias d s W -> rect n d x -> 0 < n -> 0 < d ->
  shape_preserving self ->
  exists y,
    _wrapped_forward self (Mat x) =
      Ok (set_io self (Some (Mat x)) (Some (Mat (dense_out bias W x))), Mat y)
    /\ rect n s y.
Proof.
  intros Hb Hx Hn Hd Hsp. unfold _wrapped_forward.
  assert (reshape_rows (Mat x) = Ok (Mat x)) as ->.
  { destruct x; [destruct Hx; simpl in *; lia|done]. }
  cbn [mbind result_bind forward Dense_layer Dense_impl].
  erewrite Dense_forward_ok by eauto.
  cbn [mbind result_bind].
  pose proof (rect_dense_out bias n d s W x) as Hout.
  destruct (post_forward_shape self n s (dense_out bias W x) Hsp)
    as (y & Hy & Hry); [apply Hout; (done || apply Hb)|].
  exists y. split; [|done].
  change (activation (set_io self (Some (Mat x))
                        (Some (Mat (dense_out bias W x)))))
    with (activation self).
  change (get_dropout (set_io self (Some (Mat x))
                         (Some (Mat (dense_out bias W x)))))
    with (get_dropout self).
  destruct (match activation self with
            | Some a => act_call a (Mat (dense_out bias W x))
            | None => Ok (Mat (dense_out bias W x))
            end) as [o|]; [|discriminate].
  cbn [mbind result_bind] in Hy |- *.
  destruct (get_dropout self) as [drop|]; [|discriminate].
  cbn [mbind result_bind] in Hy |- *. rewrite Hy. reflexivity.
Qed.

Lemma wrapped_forward_single_shape self bias d s W v :
  built self bias d s W -> length v = d -> 0 < d ->
  shape_preserving self ->
  exists y,
    _wrapped_forward self (Vec v) =
      Ok (set_io self (Some (Mat [v])) (Some (Mat (dense_out bias W [v]))), Vec y)
    /\ length y = s.
Proof.
  intros Hb Hv Hd Hsp. unfold _wrapped_forward.
  cbn [reshape_rows mbind result_bind forward Dense_layer Dense_impl].
  assert (Hx : rect 1 d [v]) by (split; [done|by constructor]).
  erewrite Dense_forward_ok by eauto.
  cbn [mbind result_bind].
  pose proof (rect_dense_out bias 1 d s W [v]) as Hout.
  destruct (post_forward_shape self 1 s (dense_out bias W [v]) Hsp)
    as (y & Hy & Hry); [apply Hout; (done || apply Hb)|].
  destruct y as [|r y]; [destruct Hry; discriminate|].
  exists r. split; [|by apply rect_cons in Hry as [? _]].
  change (activation (set_io self (Some (Mat [v]))
                        (Some (Mat (dense_out bias W [v])))))
    with (activation self).
  change (get_dropout (set_io self (Some (Mat [v]))
                         (Some (Mat (dense_out bias W [v])))))
    with (get_dropout self).
  destruct (match activation self with
            | Some a => act_call a (Mat (dense_out bias W [v]))
            | None => Ok (Mat (dense_out bias W [v]))
            end) as [o|]; [|discriminate].
  cbn [mbind result_bind] in Hy |- *.
  destruct (get_dropout self) as [drop|]; [|discriminate].
  cbn [mbind result_bind] in Hy |- *. rewrite Hy. reflexivity.
Qed.

Lemma wrapped_backward_shape self n r s W x out e g0 dirty :
  own self = mkDense true (Some (mkParameter (Mat W) g0 dirty)) ->
  input self = Some (Mat x) -> output self = Some (Mat out) ->
  shape_preserving self ->
  rect (S (S r)) s W -> rect n (S r) x -> rect n s out -> rect n s e ->
  grad_slot_fits g0 (S (S r)) s ->
  0 < n -> 0 < s ->
  exists L2 u,
    _wrapped_backward self (Mat e) true = Ok (L2, Some (Mat u)) /\
    rect n (S r) u /\ input L2 = None /\ output L2 = None.
Proof.
  intros Hown Hin Hout [Ha (drop & Hdrop & Hd)] HW Hx Hro He Hg Hn Hs.
  unfold _wrapped_backward, get_dropout. rewrite Hout, Hdrop.
  cbn [mbind result_bind].
  assert (exists e1, match drop with
                     | Some d => drop_backward d (Mat e)
                     | None => Ok (Mat e)
                     end = Ok (Mat e1) /\ rect n s e1) as (e1 & -> & He1).
  { destruct drop as [dr|]; [|eauto].
    destruct (Hd dr eq_refl) as [_ Hc]. eauto. }
  cbn [mbind result_bind].
  assert (exists e2, match activation self with
                     | Some a => g ← act_backward a (Mat out); aug mul (Mat e1) g
                     | None => Ok (Mat e1)
                     end = Ok (Mat e2) /\ rect n s e2) as (e2 & -> & He2).
  { destruct (activation self) as [a|]; [|eauto].
    destruct (Ha a eq_refl) as [_ Hc].
    destruct (Hc _ _ _ Hro) as (g & -> & Hg'). cbn [mbind result_bind].
    unfold aug. erewrite iop_Mat_Mat by eauto.
    eexists. split; [done|]. by apply rect_zip_with. }
  cbn [mbind result_bind backward Dense_layer Dense_impl].
  destruct (Dense_backward_fits self n r s W x e2 g0 dirty) as (L2 & ->);
    try done.
  cbn [mbind result_bind]. do 2 eexists. split; [reflexivity|].
  split; [|done]. eapply rect_dense_upstream; eauto.
Qed.

(** C4 (amended). Shapes through a built Dense layer of output size [s]
    and input dimension [d] whose activation and dropout, if any, keep
    the shape of a matrix: forward on an unbatched [d] returns an
    unbatched [s]; forward on a batch [n, d] returns [n, s]; in a layer
    with bias whose weights hold no gradient yet, a number in its place
    (the [0] that [zero_grad] or a read of [grad] leaves) or a gradient
    of the shape of the weights, backward takes the output-gradient as a
    batch [n, s] ([n = 1] after an unbatched forward) and returns the
    upstream gradient as a batch [n, d]. *)
Theorem Dense_shapes self bias d s W :
  built self bias d s W -> 0 < d -> 0 < s -> shape_preserving self ->
  (forall v, length v = d ->
     exists L1 y, _wrapped_forward self (Vec v) = Ok (L1, Vec y) /\
                  length y = s /\
     (bias = true ->
      (forall w, weights (own self) = Some w ->
                 grad_slot_fits (_grad w) (rows_of bias d) s) ->
      forall e, rect 1 s e ->
        exists L2 u, _wrapped_backward L1 (Mat e) true = Ok (L2, Some (Mat u))
                     /\ rect 1 d u)) /\
  (forall n x, rect n d x -> 0 < n ->
     exists L1 y, _wrapped_forward self (Mat x) = Ok (L1, Mat y) /\
                  rect n s y /\
     (bias = true ->
      (forall w, weights (own self) = Some w ->
                 grad_slot_fits (_grad w) (rows_of bias d) s) ->
      forall e, rect n s e ->
        exists L2 u, _wrapped_backward L1 (Mat e) true = Ok (L2, Some (Mat u))
                     /\ rect n d u)).
Proof.
  intros Hb Hd Hs Hsp.
  assert (Hback : forall n x, rect n d x -> 0 < n -> bias = true ->
            (forall w, weights (own self) = Some w ->
                       grad_slot_fits (_grad w) (rows_of bias d) s) ->
            forall e, rect n s e ->
            exists L2 u,
              _wrapped_backward
                (set_io self (Some (Mat x)) (Some (Mat (dense_out bias W x))))
                (Mat e) true = Ok (L2, Some (Mat u)) /\ rect n d u).
  { intros n x Hx Hn -> Hslot e He.
    destruct Hb as (Hbias & (w & Hw & HW) & Hrect & _).
    specialize (Hslot w Hw).
    destruct self as [sz i o idim act bt dr [b ow]]. simpl in *. subst.
    destruct w as [wv wg wd]. simpl in *. subst.
    destruct d as [|r]; [lia|]. unfold rows_of in *.
    replace (S r + 1) with (S (S r)) in * by lia.
    edestruct (wrapped_backward_shape
                 (set_io (mkLayer sz i o idim act bt dr
                            (mkDense true (Some (mkParameter (Mat W) wg wd))))
                         (Some (Mat x)) (Some (Mat (dense_out true W x))))
                 n r s W x (dense_out true W x) e wg wd)
      as (L2 & u & Hcall & Hu & _); try reflexivity; eauto.
    apply (rect_dense_out true n (S r) s); unfold rows_of;
      [by replace (S r + 1) with (S (S r)) by lia|done|lia]. }
  split.
  - intros v Hv.
    destruct (wrapped_forward_single_shape self bias d s W v)
      as (y & Hy & Hlen); auto.
    do 2 eexists. split; [exact Hy|]. split; [done|].
    intros Hbias Hslot e He. apply Hback; auto.
    split; [done|by constructor].
  - intros n x Hx Hn.
    destruct (wrapped_forward_shape self bias n d s W x)
      as (y & Hy & Hry); auto.
    do 2 eexists. split; [exact Hy|]. split; [done|].
    intros Hbias Hslot e He. by apply Hback.
Qed.

(** *** Claims on Dense, for a commutative ring of scalars *)

Hypothesis Ath : ring_theory zero one add mul sub opp (@eq A).
Add Ring A_ring : Ath.

(** Equal lists and matrices, entry by entry. *)
Ltac by_entries :=
  repeat match goal with
         | |- @eq (list _) (_ :: _) (_ :: _) => apply (f_equal2 cons)
         | |- @eq (list _) [] [] => reflexivity
         | |- Mat _ = Mat _ => apply (f_equal Mat)
         | |- Vec _ = Vec _ => apply (f_equal Vec)
         end;
  try ring.

Lemma add_zero_rows (G : list (list A)) : map (map (add zero)) G = G.
Proof.
  rewrite <- (map_id G) at 2. apply map_ext. intros r.
  rewrite <- (map_id r) at 2. apply map_ext. intros a. ring.
Qed.

(** C2. Gradients accumulate.  Reading [grad] on a Parameter that has
    none recorded gives 0; [grad += G] on a recorded gradient [G0] stores
    [G0 + G]; and after forward, backward, forward, backward on a fresh
    Dense layer the gradient of the weights is the sum of the gradients
    of the two calls, which the first backward alone leaves as that of
    the first call. *)
Theorem gradient_accumulates bias d s W n1 n2 x1 e1 x2 e2 pe1 pe2 :
  rect (rows_of bias d) s W ->
  rect n1 d x1 -> rect n1 s e1 -> rect n2 d x2 -> rect n2 s e2 ->
  0 < n1 -> 0 < n2 -> 0 < d ->
  (pe1 = true \/ pe2 = true -> 1 < rows_of bias d) ->
  (forall p : Parameter_t A, _grad p = None -> (grad p).2 = Num zero) /\
  (forall (p : Parameter_t A) G0 G r c,
      _grad p = Some (Mat G0) -> rect r c G0 -> rect r c G ->
      exists p', grad_iadd p (Mat G) = Ok p' /\
                 _grad p' = Some (Mat (madd G0 G))) /\
  exists L1 y1 L2 u1 L3 y2 L4 u2,
    _wrapped_forward (fresh_Dense bias d s W) (Mat x1) = Ok (L1, y1) /\
    _wrapped_backward L1 (Mat e1) pe1 = Ok (L2, u1) /\
    _wrapped_forward L2 (Mat x2) = Ok (L3, y2) /\
    _wrapped_backward L3 (Mat e2) pe2 = Ok (L4, u2) /\
    weights_grad L2 = Some (Mat (dense_grad bias x1 e1)) /\
    weights_grad L4 =
      Some (Mat (madd (dense_grad bias x1 e1) (dense_grad bias x2 e2))).
Proof.
  intros HW Hx1 He1 Hx2 He2 Hn1 Hn2 Hd Hpe.
  split; [|split].
  - intros p Hp. unfold grad. by rewrite Hp.
  - intros p G0 G r c Hp HG0 HG. eexists. split.
    + eapply grad_iadd_ok; [|exact HG]. right. eauto.
    + simpl. by rewrite Hp.
  - pose proof (rect_dense_grad bias n1 d s x1 e1 Hx1 He1 Hn1) as HG1.
    do 8 eexists. split; [|split; [|split; [|split]]].
    + eapply wrapped_forward_batch; eauto using built_fresh.
    + eapply wrapped_backward_cached; try reflexivity; eauto.
      * by left.
    + eapply wrapped_forward_batch; eauto.
      repeat split; simpl; eauto; apply HW.
    + eapply wrapped_backward_cached; try reflexivity; eauto.
      right. eexists. split; [reflexivity|].
      apply rect_accumulate; [by left|done].
    + split; cbn; by rewrite add_zero_rows.
Qed.

(** The vectors and matrices of the scenario with [input_dim=3, size=2]. *)
Definition outer (u v : list A) : list (list A) :=
  map (fun x => map (mul x) v) u.

Definition n1 : A := of_nat 1.
Definition n2 : A := of_nat 2.
Definition n3 : A := of_nat 3.

(** A built Dense layer with bias whose weights already hold [g0] in
    their gradient slot. *)
Definition Dense_with (d s : nat) (W : list (list A))
    (g0 : option (ndarray A)) (dirty : option bool) : Layer A (Dense A) :=
  mkLayer s None None (Some d) None false (Some None)
          (mkDense true (Some (mkParameter (Mat W) g0 dirty))).

(** C1 (amended). A built Dense layer with bias, [input_dim=3], [size=2]
    and weights [[b0,b1],[w00,w01],[w10,w11],[w20,w21]]: forward on the
    batched row [1,2,3] returns [b + [1,2,3]·W]; backward with the
    output-gradient [1,1] adds to the gradient of the weights the matrix
    whose first row is the column sum of the output-gradient and whose
    other rows are input transposed times output-gradient, which is
    [outer([1,1,2,3],[1,1])] (the 1 of the bias comes first); with
    [pass_error] it returns [[1,1]·W^T] over the rows of [W] without the
    bias row, and [None] without it. *)
Theorem Dense_scenario b0 b1 w00 w01 w10 w11 w20 w21 g0 dirty :
  let W := [[b0; b1]; [w00; w01]; [w10; w11]; [w20; w21]] in
  grad_slot_ok g0 4 2 ->
  exists L1,
    _wrapped_forward (Dense_with 3 2 W g0 dirty) (Mat [[n1; n2; n3]]) =
      Ok (L1, Mat [[ (b0 + (n1 * w00 + n2 * w10 + n3 * w20))%sc;
                     (b1 + (n1 * w01 + n2 * w11 + n3 * w21))%sc ]]) /\
    forall pe, exists L2,
      _wrapped_backward L1 (Mat [[n1; n1]]) pe =
        Ok (L2,
            if pe then
              Some (Mat [[ (n1 * w00 + n1 * w01)%sc;
                           (n1 * w10 + n1 * w11)%sc;
                           (n1 * w20 + n1 * w21)%sc ]])
            else None) /\
      dense_grad true [[n1; n2; n3]] [[n1; n1]] = outer [n1; n1; n2; n3] [n1; n1] /\
      weights_grad L2 =
        Some (Mat (match g0 with
                   | Some (Mat G0) => madd G0 (outer [n1; n1; n2; n3] [n1; n1])
                   | _ => outer [n1; n1; n2; n3] [n1; n1]
                   end)) /\
      input L2 = None /\ output L2 = None.
Proof.
  intros W Hg0.
  assert (HW : rect (rows_of true 3) 2 W) by (split; [done|repeat constructor]).
  assert (Hx : rect 1 3 [[n1; n2; n3]]) by (split; [done|repeat constructor]).
  assert (He : rect 1 2 [[n1; n1]]) by (split; [done|repeat constructor]).
  assert (HG : dense_grad true [[n1; n2; n3]] [[n1; n1]]
               = outer [n1; n1; n2; n3] [n1; n1]).
  { cbv -[zero one add mul sub opp]. by_entries. }
  assert (Hb : built (Dense_with 3 2 W g0 dirty) true 3 2 W).
  { repeat split; simpl; eauto. repeat constructor. }
  eexists. split.
  - erewrite (wrapped_forward_batch _ true 1 3 2 W) by (done || lia).
    f_equal. f_equal. cbv -[zero one add mul sub opp]. by_entries.
  - intros pe. eexists. split; [|split; [exact HG|split]].
    + erewrite (wrapped_backward_cached _ true 1 3 2 W);
        [|reflexivity|reflexivity|reflexivity|reflexivity|reflexivity
         |exact HW|exact Hx|exact He|exact Hg0|lia|intros _; cbv; lia].
      f_equal. f_equal. destruct pe; [|done]. f_equal.
      cbv -[zero one add mul sub opp]. by_entries.
    + cbn -[dense_grad outer madd accumulate n1 n2 n3].
      rewrite HG. f_equal. f_equal.
      destruct Hg0 as [->|(G0 & -> & _)]; [|done].
      unfold accumulate. apply add_zero_rows.
    + done.
Qed.

End DenseFacts.

(** ** Parameter: construction and gradient slot *)

Section ParameterClaims.
Context {A : Type} `{Scalar A}.
Variable normal : A -> A -> size_t -> result (ndarray A).

(** C6. Creating a Parameter with neither a value nor a size raises (the
    Python exception is [AssertionError], the failure the spec calls
    InvalidArgument), whatever [mean] and [scale] are, and so produces no
    Parameter. *)
Theorem Parameter_new_requires_size (mean : A) (scale : option A) :
  Parameter_new normal None None mean scale = Raise AssertionError /\
  (forall p, Parameter_new normal None None mean scale <> Ok p).
Proof. split; [reflexivity|]. intros p. discriminate. Qed.

(** C7. [zero_grad] is idempotent: after one call the gradient reads as
    0 and [need_update] is false, and a second call changes nothing. *)
Theorem zero_grad_idempotent (p : Parameter_t A) :
  let p1 := zero_grad p in
  let p2 := zero_grad p1 in
  grad p1 = (p1, Num zero) /\ need_update p1 = Ok false /\
  grad p2 = (p2, Num zero) /\ need_update p2 = Ok false /\
  p2 = p1.
Proof. repeat split. Qed.

End ParameterClaims.

(** ** Layer: backward without a matching forward *)

Section LayerClaims.
Context {A : Type} `{Scalar A} {S : Type} `{!LayerImpl (A := A) S}.

(** The subclass [setup] does not touch the cache of the layer. *)
Definition setup_keeps_cache : Prop :=
  forall (self self' : Layer A S) d,
    setup self d = Ok self' -> output self = None -> output self' = None.

(** C3. The output cache of a constructed layer is [None]; a backward
    call on a layer whose output cache is [None] returns [None] and
    leaves the layer as it is; a backward call that returns has cleared
    the cache, so that the next backward call returns [None]. *)
Theorem backward_needs_forward :
  setup_keeps_cache ->
  (forall s size d act drop (self : Layer A S),
      Layer_init s size d act drop = Ok self -> output self = None) /\
  (forall s size d act drop (self : Layer A S) error pe,
      Layer_init s size d act drop = Ok self ->
      _wrapped_backward self error pe = Ok (self, None)) /\
  (forall (self : Layer A S) error pe,
      output self = None ->
      _wrapped_backward self error pe = Ok (self, None)) /\
  (forall (self self' : Layer A S) error pe r,
      _wrapped_backward self error pe = Ok (self', r) ->
      output self' = None /\
      (output self <> None -> input self' = None) /\
      forall error' pe',
        _wrapped_backward self' error' pe' = Ok (self', None)).
Proof.
  intros Hsetup.
  assert (Hinit : forall s size d act drop (self : Layer A S),
             Layer_init s size d act drop = Ok self -> output self = None).
  { intros s size d act drop self. unfold Layer_init.
    destruct d as [d|]; cbn [mbind result_bind].
    - destruct (setup _ _) as [self1|] eqn:Hs; [|discriminate].
      cbn [mbind result_bind]. intros [= <-]. simpl.
      by apply (Hsetup _ _ _ Hs).
    - by intros [= <-]. }
  assert (Hnone : forall (self : Layer A S) error pe,
             output self = None ->
             _wrapped_backward self error pe = Ok (self, None)).
  { intros self error pe Hout. unfold _wrapped_backward. by rewrite Hout. }
  assert (Hclear : forall (self self' : Layer A S) error pe r,
             _wrapped_backward self error pe = Ok (self', r) ->
             output self' = None /\ (output self <> None -> input self' = None)).
  { intros self self' error pe r. unfold _wrapped_backward.
    destruct (output self) as [out|] eqn:Hout.
    - intros Hb.
      apply bind_Ok_inv in Hb as (drop & _ & Hb).
      apply bind_Ok_inv in Hb as (e1 & _ & Hb).
      apply bind_Ok_inv in Hb as (e2 & _ & Hb).
      apply bind_Ok_inv in Hb as ([self2 e3] & _ & Hb).
      by injection Hb as <- <-.
    - intros [= <- <-]. by split. }
  repeat split.
  - exact Hinit.
  - intros. apply Hnone. eauto.
  - exact Hnone.
  - eapply Hclear; eauto.
  - eapply Hclear; eauto.
  - intros. apply Hnone. eapply Hclear; eauto.
Qed.

End LayerClaims.

Section SetupFacts.
Context {A : Type} `{Scalar A}.
Variable normal : A -> A -> size_t -> result (ndarray A).

(** [Layer.setup] that returns has set [input_dim] when one is given and
    has read [self.dropout]. *)
Lemma Layer_setup_inv {S} (self self' : Layer A S) (d : option nat) :
  Layer_setup self d = Ok self' ->
  self' = match d with
          | Some k => set_input_dim self (Some k)
          | None => self
          end /\
  is_Some (dropout self) /\
  (d = None -> is_Some (input_dim self)).
Proof.
  unfold Layer_setup, Layer_repr, get_dropout. intros Hs.
  apply bind_Ok_inv in Hs as (self1 & Hd & Hs).
  apply bind_Ok_inv in Hs as ([] & Hrepr & [= <-]).
  apply bind_Ok_inv in Hrepr as (drop & Hdrop & _).
  destruct d as [k|].
  - injection Hd as <-. simpl in Hdrop.
    destruct (dropout self); [|discriminate].
    split; [done|]. split; [eauto|done].
  - destruct (input_dim self) as [k|] eqn:Hk; [|discriminate].
    injection Hd as <-. destruct (dropout self); [|discriminate].
    split; [done|]. split; eauto.
Qed.

Lemma Dense_setup_keeps_cache :
  setup_keeps_cache (LayerImpl0 := Dense_impl normal).
Proof.
  intros self self' d. cbn [setup Dense_impl].
  unfold Dense_setup. intros Hs Hout.
  apply bind_Ok_inv in Hs as (self1 & (-> & _)%Layer_setup_inv & Hs).
  destruct d as [d|]; [|discriminate].
  apply bind_Ok_inv in Hs as (w & _ & [= <-]). exact Hout.
Qed.

Lemma RBF_setup_keeps_cache :
  setup_keeps_cache (LayerImpl0 := RBF_impl normal).
Proof.
  intros self self' d. cbn [setup RBF_impl].
  unfold RBF_setup. intros Hs Hout.
  apply bind_Ok_inv in Hs as (self1 & (-> & _)%Layer_setup_inv & Hs).
  destruct d as [d|]; [|discriminate].
  apply bind_Ok_inv in Hs as (c & _ & [= <-]). exact Hout.
Qed.

End SetupFacts.

(** ** Layer.__setattr__ and the map of parameters *)

Section SetattrClaims.
Import Attr.

Lemma not_reserved_parameters name : ~ reserved name -> name <> "parameters".
Proof.
  unfold reserved. rewrite !elem_of_cons, elem_of_nil. tauto.
Qed.

Lemma not_reserved_plain name : ~ reserved name -> plain name.
Proof.
  unfold reserved, plain. rewrite !elem_of_cons, elem_of_nil. tauto.
Qed.

Lemma object_setattr_plain (self : instance) name value :
  plain name -> object_setattr self name value = Ok (<[name := value]> self).
Proof.
  intros (H1 & H2 & H3). unfold object_setattr.
  by rewrite !decide_False by done.
Qed.

Lemma plain_parameters : plain "parameters".
Proof. by repeat split. Qed.

(** After the first step of [__setattr__] the attribute [parameters]
    holds a dict. *)
Lemma ensure_parameters (self : instance) :
  parameters_ok self -> synced self ->
  let self1 := if hasattr self "parameters" then self
               else <["parameters" := VDict ∅]> self in
  exists d, self1 !! "parameters" = Some (VDict d) /\
            (forall name, is_Some (d !! name) <-> bound_to_Parameter self name) /\
            (forall name, name <> "parameters" -> self1 !! name = self !! name).
Proof.
  intros Hok Hsync. unfold hasattr, object_setattr.
  destruct Hok as [Hnone|(d & Hd)].
  - rewrite bool_decide_eq_false_2 by (rewrite Hnone; by intros [? ?]).
    exists ∅. split; [by rewrite lookup_insert_eq|]. split.
    + intros name. rewrite lookup_empty. split; [by intros [? ?]|].
      intros Hb. apply Hsync in Hb as (d' & Hd' & _). congruence.
    + intros name Hne. by rewrite lookup_insert_ne.
  - rewrite bool_decide_eq_true_2 by (rewrite Hd; eauto).
    exists d. split; [done|]. split; [|done].
    intros name. rewrite <- (Hsync name). unfold is_key. split.
    + intros Hs. eauto.
    + intros (d' & Hd' & Hs). congruence.
Qed.

Lemma setattr_first (self : instance) :
  (if hasattr self "parameters" then Ok self
   else object_setattr self "parameters" (VDict ∅)) =
  Ok (if hasattr self "parameters" then self
      else <["parameters" := VDict ∅]> self).
Proof.
  destruct (hasattr self "parameters"); [done|].
  apply object_setattr_plain, plain_parameters.
Qed.

Lemma setattr_step (self : instance) name value :
  parameters_ok self -> synced self -> name <> "parameters" -> plain name ->
  exists self',
    __setattr__ self name value = Ok self' /\
    parameters_ok self' /\ synced self' /\
    self' !! name = Some value /\
    (is_key self' name <-> isinstance_Parameter value = true).
Proof.
  intros Hok Hsync Hname Hplain.
  destruct (ensure_parameters self Hok Hsync) as (d & Hd & Hkeys & Hrest).
  unfold __setattr__. rewrite setattr_first. cbn [mbind result_bind].
  set (self1 := if hasattr self "parameters" then self
                else <["parameters" := VDict ∅]> self) in *.
  unfold getattr. rewrite Hd. cbn [mbind result_bind].
  assert (Hnotparam : ~ bound_to_Parameter self "parameters").
  { intros (p & Hp). destruct Hok as [Hn|(d' & Hd')]; congruence. }
  set (d' := if isinstance_Parameter value then <[name := value]> d
             else delete name d).
  assert (Hres :
    (if isinstance_Parameter value
     then py_setitem (VDict d) name value ≫=
            (fun parameters => Ok (<["parameters" := parameters]> self1))
     else py_contains (VDict d) name ≫= fun found : bool =>
            if found
            then py_delitem (VDict d) name ≫=
                   (fun parameters => Ok (<["parameters" := parameters]> self1))
            else Ok self1)
    = Ok (<["parameters" := VDict d']> self1)).
  { unfold d'. destruct (isinstance_Parameter value); [done|].
    cbn [py_contains mbind result_bind]. case_bool_decide as Hin; [done|].
    f_equal. rewrite delete_id by (by apply eq_None_not_Some).
    by rewrite insert_id. }
  rewrite Hres. cbn [mbind result_bind].
  rewrite object_setattr_plain by done.
  eexists. split; [reflexivity|].
  assert (Hpar : <[name := value]> (<["parameters" := VDict d']> self1)
                   !! "parameters" = Some (VDict d')).
  { rewrite lookup_insert_ne by done. by rewrite lookup_insert_eq. }
  assert (Hkey : forall n,
             is_key (<[name := value]> (<["parameters" := VDict d']> self1)) n
             <-> is_Some (d' !! n)).
  { intros n. unfold is_key. rewrite Hpar. split.
    - by intros (d0 & [= <-] & Hs).
    - eauto. }
  assert (Hd' : forall n, is_Some (d' !! n) <->
                  (n = name /\ isinstance_Parameter value = true) \/
                  (n <> name /\ bound_to_Parameter self n)).
  { intros n. unfold d'. destruct (isinstance_Parameter value) eqn:Hv.
    - destruct (decide (n = name)) as [->|Hne].
      + rewrite lookup_insert_eq. split; [by left|eauto].
      + rewrite lookup_insert_ne by done. rewrite Hkeys. tauto.
    - destruct (decide (n = name)) as [->|Hne].
      + rewrite lookup_delete_eq. split; [by intros [? ?]|].
        intros [[_ ?]|[? _]]; congruence.
      + rewrite lookup_delete_ne by done. rewrite Hkeys.
        split; [by right|]. intros [[? _]|[_ ?]]; congruence. }
  split; [right; eauto|]. split; [|split].
  - intros n. rewrite Hkey, Hd'. unfold bound_to_Parameter.
    destruct (decide (n = name)) as [->|Hne].
    + rewrite lookup_insert_eq. split.
      * intros [[_ Hv]|[? _]]; [|done].
        destruct value; try discriminate. eauto.
      * intros (p & [= ->]). by left.
    + rewrite lookup_insert_ne by done.
      destruct (decide (n = "parameters")) as [->|Hnp].
      * rewrite lookup_insert_eq. split.
        -- intros [[? _]|[_ Hb]]; [done|]. by destruct Hnotparam.
        -- by intros (p & [=]).
      * rewrite lookup_insert_ne by done. rewrite Hrest by done.
        split; [intros [[? _]|[_ ?]]; done|]. by right.
  - by rewrite lookup_insert_eq.
  - rewrite Hkey, Hd'. split; [intros [[_ ?]|[? _]]; done|]. by left.
Qed.

(** C10 (amended). From a layer whose map [parameters] tracks its
    Parameter-valued attributes (a new instance in particular), every
    sequence of assignments to attributes other than [parameters]
    itself, the descriptors [activation], [__dict__], [__class__] and
    [__weakref__], and the redirected names [forward] and [backward]
    succeeds and leaves a layer in which a name is a key of [parameters]
    exactly when the attribute of that name is bound to a Parameter; one
    more such assignment binds the name to the value, and the name is
    then a key exactly when the value is a Parameter. *)
Theorem setattr_tracks_parameters (self : instance) (l : list (string * pyval)) :
  parameters_ok self -> synced self ->
  Forall (fun nv => ~ reserved nv.1) l ->
  exists self',
    assign_all self l = Ok self' /\
    synced self' /\
    forall name value, ~ reserved name ->
      exists self'',
        __setattr__ self' name value = Ok self'' /\
        self'' !! name = Some value /\
        (is_key self'' name <-> isinstance_Parameter value = true).
Proof.
  intros Hok Hsync Hl.
  assert (Hrun : exists self', assign_all self l = Ok self' /\
                               parameters_ok self' /\ synced self').
  { revert self Hok Hsync. unfold assign_all.
    induction Hl as [|[name value] l Hnv Hl IH]; intros self Hok Hsync.
    - exists self. split; [done|]. by split.
    - simpl in Hnv.
      destruct (setattr_step self name value Hok Hsync
                  (not_reserved_parameters _ Hnv) (not_reserved_plain _ Hnv))
        as (self1 & Hstep & Hok1 & Hsync1 & _).
      destruct (IH self1 Hok1 Hsync1) as (self' & Hrun & Hfin).
      exists self'. split; [|done]. simpl. rewrite Hstep. exact Hrun. }
  destruct Hrun as (self' & Hrun & Hok' & Hsync').
  exists self'. split; [done|]. split; [done|].
  intros name value Hname.
  destruct (setattr_step self' name value Hok' Hsync'
              (not_reserved_parameters _ Hname) (not_reserved_plain _ Hname))
    as (self'' & ? & _ & _ & ? & ?). eauto.
Qed.

Lemma new_instance_synced : parameters_ok ∅ /\ synced ∅.
Proof.
  split; [by left|]. intros name. split.
  - intros (d & Hd & _). by rewrite lookup_empty in Hd.
  - intros (p & Hp). by rewrite lookup_empty in Hp.
Qed.

End SetattrClaims.

(** ** Elementwise operations on arrays of one shape *)

Section Elementwise.
Context {A : Type} `{Scalar A}.

(** Two arrays of the same rank and shape. *)
Definition same_shape (a b : ndarray A) : Prop :=
  match a, b with
  | Num _, Num _ => True
  | Vec u, Vec v => length u = length v
  | Mat m, Mat m' => Forall2 (fun r r' => length r = length r') m m'
  | _, _ => False
  end.

(** The entrywise combination of two arrays of one shape. *)
Definition azip (f : A -> A -> A) (a b : ndarray A) : ndarray A :=
  match a, b with
  | Num x, Num y => Num (f x y)
  | Vec u, Vec v => Vec (zip_with f u v)
  | Mat m, Mat m' => Mat (zip_with (zip_with f) m m')
  | _, _ => a
  end.

Lemma bop_Num_l (f : A -> A -> A) c (a : ndarray A) :
  bop f (Num c) a = Ok (amap (f c) a).
Proof. by destruct a. Qed.

Lemma bop_Num_r (f : A -> A -> A) (a : ndarray A) c :
  bop f a (Num c) = Ok (amap (fun x => f x c) a).
Proof. by destruct a. Qed.

Lemma amap_amap (f g : A -> A) (a : ndarray A) :
  amap f (amap g a) = amap (fun x => f (g x)) a.
Proof.
  destruct a as [x|v|m]; simpl; f_equal.
  - by rewrite map_map.
  - rewrite map_map. apply map_ext. intros r. by rewrite map_map.
Qed.

Lemma amap_id (a : ndarray A) : amap (fun x => x) a = a.
Proof.
  destruct a as [x|v|m]; simpl; f_equal.
  - apply map_id.
  - rewrite <- (map_id m) at 2. apply map_ext. intros r. apply map_id.
Qed.

Lemma amap_ext (f g : A -> A) (a : ndarray A) :
  (forall x, f x = g x) -> amap f a = amap g a.
Proof.
  intros Hfg. destruct a as [x|v|m]; simpl; f_equal; auto.
  - by apply map_ext.
  - apply map_ext. intros r. by apply map_ext.
Qed.

Lemma zip_with_map_same (f : A -> A -> A) (g h : A -> A) (l : list A) :
  zip_with f (map g l) (map h l) = map (fun x => f (g x) (h x)) l.
Proof. induction l; simpl; congruence. Qed.

Lemma bop_same (f : A -> A -> A) (a b : ndarray A) :
  same_shape a b -> bop f a b = Ok (azip f a b).
Proof.
  destruct a as [x|u|m], b as [y|v|m']; simpl; try done.
  - intros Hl. by rewrite bc1_same.
  - intros Hl. by rewrite bc_rows_same.
Qed.

Lemma same_shape_amap_r (g : A -> A) (a b : ndarray A) :
  same_shape a b -> same_shape a (amap g b).
Proof.
  destruct a as [x|u|m], b as [y|v|m']; simpl; try done.
  - by rewrite length_map.
  - intros Hm. apply Forall2_fmap_r.
    eapply Forall2_impl; [exact Hm|]. intros r r' Hr. simpl.
    by rewrite length_map.
Qed.

Lemma azip_amap_same (f : A -> A -> A) (g h : A -> A) (a : ndarray A) :
  azip f (amap g a) (amap h a) = amap (fun x => f (g x) (h x)) a.
Proof.
  destruct a as [x|u|m]; simpl; f_equal.
  - apply zip_with_map_same.
  - induction m as [|r m IH]; simpl; [done|].
    by rewrite zip_with_map_same, IH.
Qed.

Lemma bop_amap_same (f : A -> A -> A) (g h : A -> A) (a : ndarray A) :
  bop f (amap g a) (amap h a) = Ok (amap (fun x => f (g x) (h x)) a).
Proof.
  rewrite bop_same, azip_amap_same; [done|].
  assert (Hs : forall k, same_shape (amap k a) a).
  { intros k. destruct a as [x|u|m]; simpl; try done.
    - by rewrite length_map.
    - apply Forall2_fmap_l. apply Forall_Forall2_diag, Forall_forall.
      intros r _. simpl. by rewrite length_map. }
  apply same_shape_amap_r, Hs.
Qed.

Lemma azip_amap_r (f : A -> A -> A) (u : A -> A) (a b : ndarray A) :
  same_shape a b ->
  azip f a (amap u b) = azip (fun x y => f x (u y)) a b.
Proof.
  destruct a as [x|v|m], b as [y|w|m']; simpl; try done; intros Hs; f_equal.
  - revert w Hs. induction v as [|x v IH]; intros [|y w] Hs;
      simpl in *; try done. f_equal. apply IH. lia.
  - induction Hs as [|r r' m m' Hr Hm IH]; simpl; [done|]. f_equal; [|done].
    clear -Hr. revert r' Hr. induction r as [|x r IH]; intros [|y r'] Hr;
      simpl in *; try done. f_equal. apply IH. lia.
Qed.

Lemma shape_azip (f : A -> A -> A) (a b : ndarray A) :
  same_shape a b -> shape (azip f a b) = shape a.
Proof.
  destruct a as [x|u|m], b as [y|v|m']; simpl; try done.
  - intros Hl. rewrite length_zip_with. f_equal. lia.
  - intros Hm. rewrite length_zip_with.
    rewrite (Forall2_length _ _ _ Hm), Nat.min_id. f_equal. f_equal.
    destruct Hm as [|r r' m m' Hr Hm]; simpl; [done|].
    rewrite length_zip_with. lia.
Qed.

Lemma iop_same (f : A -> A -> A) (a b : ndarray A) :
  same_shape a b -> iop f a b = Ok (azip f a b).
Proof.
  intros Hs. unfold iop. rewrite bop_same by done. cbn [mbind result_bind].
  unfold shape_eqb. by rewrite bool_decide_eq_true_2 by by apply shape_azip.
Qed.

End Elementwise.

(** ** Adam: the first step *)

Section AdamClaims.
Import optim.
Context {A : Type} `{Scalar A}.
Hypothesis Afield :
  field_theory zero one add mul sub opp div inv (@eq A).
Add Field A_field : Afield.

(** The entry-by-entry update of the first Adam step. *)
Definition adam_first (lr eps : A) (x g : A) : A :=
  sub x (div (mul lr g) (add (sqrt (mul g g)) eps)).

Lemma first_moment_corrected (b g : A) :
  sub one b <> zero ->
  div (add (mul b zero) (mul (sub one b) g)) (sub one (pow b 1)) = g.
Proof. intros Hb. simpl. field. exact Hb. Qed.

Lemma second_moment_corrected (b g : A) :
  sub one b <> zero ->
  div (add (mul b zero) (mul (sub one b) (pow g 2))) (sub one (pow b 1))
  = mul g g.
Proof. intros Hb. simpl. field. exact Hb. Qed.

(** C5. One call of a new Adam optimizer (t = 0, no moments, neither
    regularization nor gradient limit) on a parameter [x] with gradient
    [g]: the stored moments are [(1-b1) g] and [(1-b2) g^2], their bias
    corrections at [t = 1] are [g] and [g^2], the parameter becomes
    [x - lr * g / (sqrt (g^2) + eps)] entry by entry, and its gradient is
    cleared. *)
Theorem Adam_first_step (o : Optimizer A) (b1 b2 eps : A)
    (h : gmap ref (Param A))
    (p : ref) (x g : ndarray A) :
  reg o = None -> grad_lim o = None ->
  h !! p = Some (mkParam x (Some g)) ->
  same_shape x g ->
  sub one b1 <> zero -> sub one b2 <> zero ->
  let m1 := amap (fun gi => add (mul b1 zero) (mul (sub one b1) gi)) g in
  let v1 := amap (fun gi => add (mul b2 zero) (mul (sub one b2) (pow gi 2))) g in
  bop div m1 (Num (sub one (pow b1 1))) = Ok g /\
  bop div v1 (Num (sub one (pow b2 1))) = Ok (amap (fun gi => mul gi gi) g) /\
  Adam_call (Adam_new o b1 b2 eps) h [p] =
    Ok (mkAdam o b1 b2 eps 1 {[ p := m1 ]} {[ p := v1 ]},
        <[p := mkParam (azip (adam_first (lr o) eps) x g) None]> h).
Proof.
  intros Hreg Hlim Hp Hs Hb1 Hb2 m1 v1.
  assert (Hm : bop div m1 (Num (sub one (pow b1 1))) = Ok g).
  { unfold m1. rewrite bop_Num_r, amap_amap. f_equal.
    transitivity (amap (fun x => x) g); [|apply amap_id].
    apply amap_ext. intros gi. by apply first_moment_corrected. }
  assert (Hv : bop div v1 (Num (sub one (pow b2 1)))
               = Ok (amap (fun gi => mul gi gi) g)).
  { unfold v1. rewrite bop_Num_r, amap_amap. f_equal.
    apply amap_ext. intros gi. by apply second_moment_corrected. }
  split; [exact Hm|]. split; [exact Hv|].
  assert (Hget : forall (h' : gmap ref (Param A)) q, h' !! p = Some q ->
                   get_param h' p = Ok q).
  { intros h' q Hq. unfold get_param. by rewrite Hq. }
  assert (Hupd :
    Adam_update (mkAdam o b1 b2 eps (0 + 1) ∅ ∅) h p =
    Ok (mkAdam o b1 b2 eps (0 + 1) {[ p := m1 ]} {[ p := v1 ]},
        <[p := mkParam (azip (adam_first (lr o) eps) x g) (Some g)]> h)).
  { unfold Adam_update. rewrite (Hget _ _ Hp).
    cbn [mbind result_bind get_grad param_grad data optim.b1 optim.b2
         optim.eps optim.t optim.m optim.v optim.adam_base].
    unfold lookup_default. rewrite !lookup_empty. cbn [default].
    rewrite !bop_Num_l. cbn [amap mbind result_bind].
    rewrite !bop_Num_l, !amap_amap. cbn [mbind result_bind].
    fold m1 v1. change (0 + 1) with 1. rewrite Hm, Hv.
    cbn [mbind result_bind].
    rewrite bop_Num_l, bop_Num_r, amap_amap. cbn [mbind result_bind].
    rewrite !amap_amap, bop_amap_same. cbn [mbind result_bind].
    rewrite iop_same by (by apply same_shape_amap_r).
    cbn [mbind result_bind]. rewrite azip_amap_r by done.
    rewrite !insert_empty. reflexivity. }
  unfold Adam_call, Adam_new, Optimizer_call.
  cbn [foldR step optim.b1 optim.b2 optim.eps
       optim.t optim.m optim.v optim.adam_base base Adam_impl].
  rewrite (Hget _ _ Hp). cbn [mbind result_bind has_grad param_grad negb].
  rewrite Hlim. cbn [mbind result_bind update Adam_impl].
  rewrite Hupd. cbn [mbind result_bind optim.adam_base].
  rewrite (Hget _ _ (lookup_insert_eq _ _ _)).
  cbn [mbind result_bind]. unfold regularize. rewrite Hreg.
  cbn [mbind result_bind del_grad data].
  rewrite insert_insert_eq. reflexivity.
Qed.

End AdamClaims.

(** ** Parameters as values, optimizer state by identity *)

Section IdentityClaims.
Import optim.
Context {A : Type} `{Scalar A}.

Lemma eq_rows_refl (u : list A) :
  (forall x, leb x x = true) ->
  exists bs, eq_rows u u = Ok bs /\ forallb (fun b => b) bs = true.
Proof.
  intros Hrefl. unfold eq_rows, bc. rewrite Nat.eqb_refl.
  induction u as [|x u (bs & Hbs & Hall)]; simpl; [eauto|].
  rewrite Hbs. simpl. eexists. split; [reflexivity|]. simpl.
  unfold eqb. by rewrite Hrefl, Hall.
Qed.

Lemma ndarray_eq_refl (a : ndarray A) :
  (forall x, leb x x = true) ->
  exists b, ndarray_eq a a = Ok b /\ all_true b = true.
Proof.
  intros Hrefl. destruct a as [x|u|m]; simpl.
  - eexists. split; [reflexivity|]. simpl. unfold eqb. by rewrite Hrefl.
  - destruct (eq_rows_refl u Hrefl) as (bs & -> & Hall). simpl. eauto.
  - unfold bc. rewrite Nat.eqb_refl.
    assert (exists bss, zipR eq_rows m m = Ok bss /\
                        forallb (forallb (fun b => b)) bss = true)
      as (bss & -> & Hall).
    { induction m as [|r m (bss & Hbss & Hall)]; simpl; [eauto|].
      destruct (eq_rows_refl r Hrefl) as (bs & -> & Hbs). simpl.
      rewrite Hbss. simpl. eexists. split; [reflexivity|]. simpl.
      by rewrite Hbs, Hall. }
    simpl. eauto.
Qed.

Lemma SGD_update_new (s0 : SGD A) (h : gmap ref (Param A)) p x g :
  old_delta s0 !! p = None ->
  h !! p = Some (mkParam x (Some g)) -> same_shape x g ->
  exists d,
    SGD_update s0 h p =
    Ok (mkSGD (sgd_base s0) (mom s0) (<[p := amap opp g]> (old_delta s0)),
        <[p := mkParam d (Some g)]> h).
Proof.
  intros Hnew Hp Hs. unfold SGD_update, get_param. rewrite Hp.
  cbn [mbind result_bind get_grad param_grad data]. rewrite Hnew.
  cbn [mbind result_bind sgd_base]. rewrite bop_Num_l, amap_amap.
  cbn [mbind result_bind]. rewrite iop_same by (by apply same_shape_amap_r).
  cbn [mbind result_bind]. eauto.
Qed.

Lemma Adam_update_new (s0 : Adam A) (h : gmap ref (Param A)) p x g :
  optim.m s0 !! p = None -> optim.v s0 !! p = None ->
  h !! p = Some (mkParam x (Some g)) -> same_shape x g ->
  exists m1 v1 d,
    Adam_update s0 h p =
    Ok (mkAdam (adam_base s0) (b1 s0) (b2 s0) (eps s0) (t s0)
               (<[p := m1]> (optim.m s0)) (<[p := v1]> (optim.v s0)),
        <[p := mkParam d (Some g)]> h).
Proof.
  intros Hm Hv Hp Hs. unfold Adam_update, get_param. rewrite Hp.
  cbn [mbind result_bind get_grad param_grad data].
  unfold lookup_default. rewrite Hm, Hv. cbn [default].
  rewrite !bop_Num_l. cbn [amap mbind result_bind].
  rewrite !bop_Num_l, !amap_amap. cbn [mbind result_bind].
  cbn [optim.b1 optim.b2 optim.eps optim.t optim.m optim.v optim.adam_base].
  rewrite !bop_Num_r, !amap_amap. cbn [mbind result_bind].
  rewrite bop_Num_l, bop_Num_r, !amap_amap. cbn [mbind result_bind].
  rewrite bop_amap_same. cbn [mbind result_bind].
  rewrite iop_same by (by apply same_shape_amap_r).
  cbn [mbind result_bind]. eauto.
Qed.

(** C9 (amended). A Parameter of [layers.py] has the comparison and the
    hash of [np.ndarray]: [p == q] is all true whenever [p] and [q] hold
    the same values, whether or not they are one object, and hashing a
    Parameter raises, so that it cannot be the key of a dict.  The state
    of the optimizers is keyed by the identity of the parameter objects:
    two distinct parameters that hold equal values and gradients get two
    entries in [old_delta] of SGD and in [m] and [v] of Adam. *)
Theorem Parameter_value_equality_identity_keys :
  (forall x : A, leb x x = true) ->
  (forall p q : Parameter_t A, value p = value q ->
     exists b, Parameter_eq p q = Ok b /\ all_true b = true) /\
  (forall (p : Parameter_t A), Parameter_hash p = Raise TypeError) /\
  (forall X (d : list (Z * (Parameter_t A * X))) p x,
     dict_setitem d p x = Raise TypeError) /\
  (forall (o : Optimizer A) mom b1 b2 eps (h : gmap ref (Param A)) p q x g,
     p <> q ->
     h !! p = Some (mkParam x (Some g)) ->
     h !! q = Some (mkParam x (Some g)) ->
     same_shape x g ->
     (exists s1 h1 s2 h2,
        SGD_update (SGD_new o mom) h p = Ok (s1, h1) /\
        SGD_update s1 h1 q = Ok (s2, h2) /\
        old_delta s2 !! p = Some (amap opp g) /\
        old_delta s2 !! q = Some (amap opp g) /\
        base.size (old_delta s2) = 2) /\
     (exists s1 h1 s2 h2,
        Adam_update (Adam_new o b1 b2 eps) h p = Ok (s1, h1) /\
        Adam_update s1 h1 q = Ok (s2, h2) /\
        dom (optim.m s2) = {[ p; q ]} /\ dom (optim.v s2) = {[ p; q ]})).
Proof.
  intros Hrefl. split; [|split; [|split]].
  - intros p q Hpq. unfold Parameter_eq. rewrite Hpq.
    by apply ndarray_eq_refl.
  - reflexivity.
  - reflexivity.
  - intros o mom b1 b2 eps h p q x g Hne Hp Hq Hs. split.
    + destruct (SGD_update_new (SGD_new o mom) h p x g) as (d1 & H1);
        [apply lookup_empty|done|done|].
      edestruct (SGD_update_new
                   (mkSGD o mom (<[p := amap opp g]> ∅))
                   (<[p := mkParam d1 (Some g)]> h) q x g) as (d2 & H2).
      { cbn [old_delta]. rewrite lookup_insert_ne by done. apply lookup_empty. }
      { by rewrite lookup_insert_ne. }
      { done. }
      do 4 eexists. split; [exact H1|]. split; [exact H2|].
      cbn [old_delta]. split; [|split].
      * rewrite lookup_insert_ne by done. by rewrite lookup_insert_eq.
      * by rewrite lookup_insert_eq.
      * rewrite map_size_insert_None, map_size_insert_None, map_size_empty;
          [done|apply lookup_empty|].
        rewrite lookup_insert_ne by done. apply lookup_empty.
    + destruct (Adam_update_new (Adam_new o b1 b2 eps) h p x g)
        as (m1 & v1 & d1 & H1); [apply lookup_empty|apply lookup_empty|done|done|].
      edestruct (Adam_update_new
                   (mkAdam o b1 b2 eps 0 (<[p := m1]> ∅) (<[p := v1]> ∅))
                   (<[p := mkParam d1 (Some g)]> h) q x g)
        as (m2 & v2 & d2 & H2).
      { cbn [optim.m]. rewrite lookup_insert_ne by done. apply lookup_empty. }
      { cbn [optim.v]. rewrite lookup_insert_ne by done. apply lookup_empty. }
      { by rewrite lookup_insert_ne. }
      { done. }
      do 4 eexists. split; [exact H1|]. split; [exact H2|].
      cbn [optim.m optim.v]. rewrite !dom_insert_L, !dom_empty_L.
      rewrite (right_id_L ∅ (∪)), (comm_L (∪)). done.
Qed.

End IdentityClaims.

(** ** RBF: the competitive update of the centers *)

Lemma filterR_ok {X} (f : X -> result bool) (g : X -> bool) (l : list X) :
  (forall x, x ∈ l -> f x = Ok (g x)) -> filterR f l = Ok (List.filter g l).
Proof.
  induction l as [|x l IH]; intros Hf; simpl; [done|].
  rewrite Hf by left. simpl.
  rewrite IH by (intros y Hy; apply Hf; by right). simpl.
  by destruct (g x).
Qed.

Section RBFFacts.
Context {A : Type} `{Scalar A}.
Variable normal : A -> A -> size_t -> result (ndarray A).
#[local] Instance RBF_layer : LayerImpl (RBF A) := RBF_impl normal.
Arguments bop : simpl never.
Arguments iop : simpl never.

(** A center [c] moved toward the input row [x]:
    [c + step_size * (x - c)]. *)
Definition moved (step : A) (c x : list A) : list A :=
  zip_with add c (map (mul step) (zip_with sub x c)).

(** The winner of a row of activations: the first index of a maximal
    entry. *)
Definition winner (o : list A) : nat :=
  match o with
  | [] => 0
  | a :: o' => argmax_from a 0 1 o'
  end.

(** Center [k] is within [nb_radius] of the winner [j] in activation. *)
Definition near (self : Layer A (RBF A)) (o : list A) (j k : nat) : bool :=
  match o !! j, o !! k with
  | Some oj, Some ok => leb (abs (sub oj ok)) (nb_radius (own self))
  | _, _ => false
  end.

(** Center [k] is updated for a row with activations [o]. *)
Definition selected (self : Layer A (RBF A)) (o : list A) (k : nat) : bool :=
  bool_decide (k = winner o)
  || (update_neighbors (own self) && bool_decide (k < size self)
      && near self o (winner o) k).

(** The centers after the update for one input row [x] with recorded
    activations [o]. *)
Definition row_update (self : Layer A (RBF A)) (C : list (list A))
    (x o : list A) : list (list A) :=
  imap (fun k c => if selected self o k
                   then moved (step_size (own self)) c x else c) C.

(** The centers after the update for row [i] of the batch. *)
Definition row_step (self : Layer A (RBF A)) (X O : list (list A))
    (C : list (list A)) (i : nat) : list (list A) :=
  match X !! i, O !! i with
  | Some x, Some o => row_update self C x o
  | _, _ => C
  end.

(** The layer with the value of its centers replaced. *)
Definition with_centers (self : Layer A (RBF A)) (c : Parameter_t A)
    (C : list (list A)) : Layer A (RBF A) :=
  set_centers self (mkParameter (Mat C) (_grad c) (_dirty c)).

Lemma length_moved step c x :
  length x = length c -> length (moved step c x) = length c.
Proof.
  intros Hl. unfold moved.
  rewrite length_zip_with, length_map, length_zip_with. lia.
Qed.

Lemma move_center_ok self c C X i k x ck :
  input self = Some (Mat X) ->
  X !! i = Some x -> C !! k = Some ck -> length x = length ck ->
  move_center (with_centers self c C) i k =
  Ok (with_centers self c (<[k := moved (step_size (own self)) ck x]> C)).
Proof.
  intros Hin Hx Hck Hl. unfold move_center, with_centers.
  cbn [input set_centers set_sub]. rewrite Hin.
  cbn [mbind result_bind item]. rewrite Hx.
  cbn [mbind result_bind get_centers own centers set_centers set_sub value
       item].
  rewrite Hck. cbn [mbind result_bind].
  assert (bop sub (Vec x) (Vec ck) = Ok (Vec (zip_with sub x ck))) as ->.
  { unfold bop. by rewrite bc1_same. }
  cbn [mbind result_bind step_size].
  assert (bop mul (Num (step_size (own self))) (Vec (zip_with sub x ck))
          = Ok (Vec (map (mul (step_size (own self))) (zip_with sub x ck))))
    as -> by done.
  cbn [mbind result_bind].
  assert (aug add (Vec ck)
            (Vec (map (mul (step_size (own self))) (zip_with sub x ck)))
          = Ok (Vec (moved (step_size (own self)) ck x))) as ->.
  { unfold aug, iop, bop. rewrite bc1_same
      by (rewrite length_map, length_zip_with; lia).
    cbn [fmap result_fmap mbind result_bind]. unfold shape_eqb.
    rewrite bool_decide_eq_true_2; [done|]. simpl.
    fold (moved (step_size (own self)) ck x). by rewrite length_moved. }
  cbn [mbind result_bind setitem]. rewrite Hck.
  rewrite length_moved, Nat.eqb_refl by done.
  reflexivity.
Qed.

Lemma moves_ok self c X i x d (l : list nat) : forall C,
  input self = Some (Mat X) -> X !! i = Some x -> length x = d ->
  Forall (fun r => length r = d) C ->
  NoDup l -> (forall k, k ∈ l -> k < length C) ->
  foldR (fun s k => move_center s i k) l (with_centers self c C) =
  Ok (with_centers self c
        (imap (fun k ck => if bool_decide (k ∈ l)
                           then moved (step_size (own self)) ck x else ck) C)).
Proof.
  induction l as [|k l IH]; intros C Hin Hx Hlx HC Hnd Hlt.
  - simpl. f_equal. f_equal. apply list_eq. intros n.
    rewrite list_lookup_imap. by destruct (C !! n).
  - apply NoDup_cons in Hnd as [Hk Hnd].
    destruct (lookup_lt_is_Some_2 C k) as [ck Hck]; [apply Hlt; by left|].
    assert (Hlck : length ck = d).
    { rewrite Forall_forall in HC. apply HC.
      by eapply list_elem_of_lookup_2. }
    cbn [foldR].
    rewrite (move_center_ok self c C X i k x ck) by (done || congruence).
    cbn [mbind result_bind].
    rewrite IH; try done.
    + f_equal. f_equal. apply list_eq. intros n.
      rewrite !list_lookup_imap.
      destruct (decide (n = k)) as [->|Hne].
      * rewrite list_lookup_insert_eq by (by eapply lookup_lt_Some).
        rewrite Hck. simpl.
        rewrite bool_decide_eq_false_2 by done.
        by rewrite bool_decide_eq_true_2 by left.
      * rewrite list_lookup_insert_ne by done.
        destruct (C !! n) as [cn|]; simpl; [|done]. f_equal.
        destruct (decide (n ∈ l)).
        -- rewrite !bool_decide_eq_true_2; [done|by right|done].
        -- rewrite !bool_decide_eq_false_2; [done| |done].
           rewrite elem_of_cons. tauto.
    + apply Forall_forall. intros r Hr.
      apply list_elem_of_lookup in Hr as [n Hn].
      destruct (decide (n = k)) as [->|Hne].
      * rewrite list_lookup_insert_eq in Hn by (by eapply lookup_lt_Some).
        injection Hn as <-. rewrite length_moved; congruence.
      * rewrite list_lookup_insert_ne in Hn by done.
        rewrite Forall_forall in HC. apply HC.
        by eapply list_elem_of_lookup_2.
    + intros k' Hk'. rewrite length_insert. apply Hlt. by right.
Qed.

(** The winner is an index of the row. *)
Lemma argmax_from_bound (l : list A) : forall best ibest i,
  ibest < i -> argmax_from best ibest i l < i + length l.
Proof.
  induction l as [|a l IH]; intros best ibest i Hi; simpl; [lia|].
  destruct (ltb best a).
  - specialize (IH a i (S i)). lia.
  - specialize (IH best ibest (S i)). lia.
Qed.

Lemma winner_bound (o : list A) : o <> [] -> winner o < length o.
Proof.
  destruct o as [|a o]; [done|]. intros _. simpl.
  pose proof (argmax_from_bound o a 0 1). lia.
Qed.

(** The winner holds a maximal entry, for a total preorder [leb]. *)
Lemma argmax_from_max (l : list A) : forall (pre : list A) best ibest,
  (forall x y, leb x y = true \/ leb y x = true) ->
  (forall x y z, leb x y = true -> leb y z = true -> leb x z = true) ->
  pre !! ibest = Some best ->
  (forall k y, pre !! k = Some y -> leb y best = true) ->
  exists w, (pre ++ l) !! argmax_from best ibest (length pre) l = Some w /\
            forall k y, (pre ++ l) !! k = Some y -> leb y w = true.
Proof.
  induction l as [|a l IH]; intros pre best ibest Htot Htrans Hbest Hmax.
  - simpl. rewrite app_nil_r. eauto.
  - simpl.
    assert (Happ : pre ++ a :: l = (pre ++ [a]) ++ l) by by rewrite <- app_assoc.
    assert (Hlen : S (length pre) = length (pre ++ [a]))
      by (rewrite length_app; simpl; lia).
    rewrite Happ, Hlen. unfold ltb. destruct (leb a best) eqn:Hab; simpl.
    + apply IH; try done.
      * rewrite lookup_app_l; [done|]. by eapply lookup_lt_Some.
      * intros k y Hk. apply lookup_app_Some in Hk as [Hk|[_ Hk]]; [eauto|].
        destruct (k - length pre) as [|?]; simpl in Hk; [|done].
        assert (y = a) as -> by congruence. done.
    + apply IH; try done.
      * rewrite lookup_app_r by lia. by rewrite Nat.sub_diag.
      * intros k y Hk. apply lookup_app_Some in Hk as [Hk|[_ Hk]].
        -- apply (Htrans _ best); [eauto|].
           destruct (Htot best a) as [?|?]; [done|congruence].
        -- destruct (k - length pre) as [|?]; simpl in Hk; [|done].
           assert (y = a) as -> by congruence. destruct (Htot a a); done.
Qed.

Lemma winner_max (o : list A) :
  (forall x y, leb x y = true \/ leb y x = true) ->
  (forall x y z, leb x y = true -> leb y z = true -> leb x z = true) ->
  o <> [] ->
  exists w, o !! winner o = Some w /\
            forall k y, o !! k = Some y -> leb y w = true.
Proof.
  intros Htot Htrans Ho. destruct o as [|a o]; [done|].
  apply (argmax_from_max o [a] a 0); try done.
  intros [|k] y Hk; simpl in Hk; [|done].
  assert (y = a) as -> by congruence. destruct (Htot a a); done.
Qed.

Lemma argmax_axis1_ok n c (O : list (list A)) :
  rect n c O -> 0 < c ->
  argmax_axis1 (Mat O) = Ok (map winner O).
Proof.
  intros HO Hc. simpl. apply mapR_ok. intros o Ho.
  pose proof (rect_elem _ _ _ _ HO Ho) as Hlo.
  destruct o as [|a o]; [simpl in Hlo; lia|done].
Qed.

(** The set of nodes to update is the set of selected centers. *)
Lemma nodes_to_update_ok self O i o :
  O !! i = Some o -> length o = size self -> 0 < size self ->
  exists N,
    nodes_to_update self (Mat O) i (winner o) = Ok N /\
    (forall k, k ∈ N <-> selected self o k = true) /\
    (forall k, k ∈ N -> k < size self).
Proof.
  intros Ho Hlo Hs.
  assert (Hw : winner o < size self).
  { rewrite <- Hlo. apply winner_bound. intros ->. simpl in Hlo. lia. }
  unfold nodes_to_update, selected.
  destruct (update_neighbors (own self)); cbn [andb orb].
  - rewrite (filterR_ok _ (near self o (winner o))).
    + cbn [mbind result_bind]. eexists. split; [reflexivity|]. split.
      * intros k. rewrite elem_of_union, elem_of_singleton,
          elem_of_list_to_set, list_elem_of_In, filter_In, in_seq.
        rewrite orb_true_iff, andb_true_iff, !bool_decide_eq_true.
        intuition lia.
      * intros k. rewrite elem_of_union, elem_of_singleton,
          elem_of_list_to_set, list_elem_of_In, filter_In, in_seq.
        intros [->|[? _]]; lia.
    + intros k Hk. apply list_elem_of_In, in_seq in Hk.
      unfold is_neighbor, item2, near. rewrite Ho.
      destruct (lookup_lt_is_Some_2 o (winner o)) as [oj ->]; [lia|].
      destruct (lookup_lt_is_Some_2 o k) as [ok ->]; [lia|].
      reflexivity.
  - eexists. split; [reflexivity|]. split.
    + intros k. rewrite elem_of_singleton, orb_false_r, bool_decide_eq_true.
      done.
    + intros k. rewrite elem_of_singleton. by intros ->.
Qed.

Lemma rect_row_update self n d C x o :
  rect n d C -> length x = d -> rect n d (row_update self C x o).
Proof.
  intros [Hn HC] Hx. unfold row_update. split; [by rewrite length_imap|].
  apply Forall_forall. intros r Hr.
  apply list_elem_of_lookup in Hr as [k Hk].
  rewrite list_lookup_imap in Hk.
  destruct (C !! k) as [ck|] eqn:Hck; [|done]. simpl in Hk.
  injection Hk as <-.
  assert (length ck = d).
  { rewrite Forall_forall in HC. apply HC. by eapply list_elem_of_lookup_2. }
  destruct (selected self o k); [|done]. rewrite length_moved; congruence.
Qed.

Lemma update_row_ok self c C X O i x o d :
  input self = Some (Mat X) ->
  X !! i = Some x -> O !! i = Some o ->
  length x = d -> length o = size self -> rect (size self) d C ->
  0 < size self ->
  update_row (with_centers self c C) (Mat O) (i, winner o) =
  Ok (with_centers self c (row_update self C x o)).
Proof.
  intros Hin Hx Ho Hlx Hlo [HCn HC] Hs. unfold update_row.
  cbn [fst snd].
  destruct (nodes_to_update_ok self O i o Ho Hlo Hs) as (N & HN & Hsel & Hlt).
  assert (nodes_to_update (with_centers self c C) (Mat O) i (winner o)
          = Ok N) as -> by exact HN.
  cbn [mbind result_bind].
  rewrite (moves_ok self c X i x d); try done.
  - f_equal. f_equal. unfold row_update. apply imap_ext.
    intros k ck Hck. simpl.
    destruct (selected self o k) eqn:Hk.
    + rewrite bool_decide_eq_true_2; [done|].
      by apply elem_of_elements, Hsel.
    + rewrite bool_decide_eq_false_2; [done|].
      rewrite elem_of_elements, Hsel. congruence.
  - apply NoDup_elements.
  - intros k Hk. rewrite HCn. apply Hlt. by apply elem_of_elements.
Qed.

(** The outer loop, over a list of row numbers. *)
Lemma rows_ok self c X O n d (l : list nat) : forall C,
  input self = Some (Mat X) ->
  rect n d X -> rect n (size self) O -> rect (size self) d C ->
  0 < size self -> (forall i, i ∈ l -> i < n) ->
  foldR (fun s ij => update_row s (Mat O) ij)
        (map (fun i => (i, winner (default [] (O !! i)))) l)
        (with_centers self c C) =
  Ok (with_centers self c (fold_left (row_step self X O) l C)).
Proof.
  induction l as [|i l IH]; intros C Hin HX HO HC Hs Hl; [done|].
  destruct (lookup_lt_is_Some_2 X i) as [x Hx].
  { destruct HX as [-> _]. apply Hl. by left. }
  destruct (lookup_lt_is_Some_2 O i) as [o Ho].
  { destruct HO as [-> _]. apply Hl. by left. }
  assert (Hlx : length x = d).
  { eapply rect_elem; [exact HX|]. by eapply list_elem_of_lookup_2. }
  assert (Hlo : length o = size self).
  { eapply rect_elem; [exact HO|]. by eapply list_elem_of_lookup_2. }
  cbn [map foldR fold_left]. rewrite Ho.
  change (default [] (Some o)) with o.
  rewrite (update_row_ok self c C X O i x o d) by done.
  cbn [mbind result_bind].
  unfold row_step at 2. rewrite Hx, Ho.
  apply IH; try done.
  - by apply rect_row_update.
  - intros k Hk. apply Hl. by right.
Qed.

Lemma zip_seq_winners (O : list (list A)) :
  zip (seq 0 (length (map winner O))) (map winner O) =
  map (fun i => (i, winner (default [] (O !! i)))) (seq 0 (length O)).
Proof.
  rewrite length_map. apply list_eq. intros i.
  rewrite lookup_zip_with.
  change (map winner O) with (winner <$> O).
  change (map ?f (seq 0 (length O))) with (f <$> seq 0 (length O)).
  rewrite !list_lookup_fmap.
  destruct (decide (i < length O)) as [Hi|Hi].
  - rewrite lookup_seq_lt by done.
    destruct (lookup_lt_is_Some_2 O i Hi) as [o Ho]. rewrite Ho. simpl.
    by rewrite Ho.
  - rewrite lookup_seq_ge by lia. done.
Qed.

(** [RBF.backward] on a layer with cached input [X] and output [O]. *)
Lemma RBF_backward_ok self c C X O n d error pe :
  move_centers (own self) = true ->
  centers (own self) = Some c -> value c = Mat C ->
  input self = Some (Mat X) -> output self = Some (Mat O) ->
  rect n d X -> rect n (size self) O -> rect (size self) d C ->
  0 < size self ->
  RBF_backward self error pe =
  Ok (with_centers self c (fold_left (row_step self X O) (seq 0 n) C), None).
Proof.
  intros Hmv Hc HvC Hin Hout HX HO HC Hs.
  unfold RBF_backward. rewrite Hmv, Hout. cbn [negb mbind result_bind].
  rewrite (argmax_axis1_ok n (size self)) by done.
  cbn [mbind result_bind]. rewrite zip_seq_winners.
  assert (Hself : self = with_centers self c C).
  { unfold with_centers, set_centers, set_sub.
    destruct self as [sz i o idim act bt dr r]. simpl in *.
    destruct r, c. simpl in *. by subst. }
  rewrite Hself at 1.
  destruct HO as [HOn HOc].
  rewrite HOn, (rows_ok self c X O n d); try done.
  intros i Hi. apply list_elem_of_In, in_seq in Hi. lia.
Qed.

(** The activation of center [mu] at the input row [x]. *)
Definition gauss (self : Layer A (RBF A)) (x mu : list A) : A :=
  exp (div (opp (pow (sum (map abs (zip_with sub x mu))) 2))
           (mul two (pow (sigma (own self)) 2))).

Lemma RBF_forward_ok self c C X n d :
  centers (own self) = Some c -> value c = Mat C ->
  rect (size self) d C -> rect n d X ->
  RBF_forward self (Mat X) =
    Ok (Mat (map (fun x => map (gauss self x) C) X)) /\
  rect n (size self) (map (fun x => map (gauss self x) C) X).
Proof.
  intros Hc HvC HC HX. split.
  - unfold RBF_forward, get_centers. rewrite Hc.
    cbn [mbind result_bind]. rewrite HvC.
    rewrite (mapR_ok _ (fun x => map (gauss self x) C)); [done|].
    intros x Hx. apply mapR_ok. intros mu Hmu.
    unfold gaussian_rbf, distance. rewrite bc1_same; [done|].
    rewrite (rect_elem _ _ _ _ HX Hx), (rect_elem _ _ _ _ HC Hmu). done.
  - split; [rewrite length_map; apply HX|].
    apply Forall_forall. intros r Hr.
    apply list_elem_of_In, in_map_iff in Hr as (x & <- & _).
    rewrite length_map. apply HC.
Qed.

(** C8. A built RBF layer with [move_centers], no activation and no
    dropout: a forward on the batch [X] records the activations [O], and
    the backward that follows returns [None] and replaces the centers,
    row after row of [X], by [row_update]: for row [i] every selected
    center [c] becomes [c + step_size * (X[i] - c)] and the others stay;
    the selected centers are the winner, which holds a maximal activation
    of the row, and, with [update_neighbors], the centers whose
    activation is within [nb_radius] of the winner's.  The gradient slot
    of the centers is not written. *)
Theorem RBF_backward_moves_centers self c C n d X error pe :
  (forall x y : A, leb x y = true \/ leb y x = true) ->
  (forall x y z : A, leb x y = true -> leb y z = true -> leb x z = true) ->
  centers (own self) = Some c -> value c = Mat C ->
  rect (size self) d C -> 0 < size self ->
  move_centers (own self) = true ->
  activation self = None -> dropout self = Some None ->
  rect n d X -> 0 < n ->
  exists O C' L2,
    _wrapped_forward self (Mat X) =
      Ok (set_io self (Some (Mat X)) (Some (Mat O)), Mat O) /\
    rect n (size self) O /\
    C' = fold_left (row_step self X O) (seq 0 n) C /\
    _wrapped_backward (set_io self (Some (Mat X)) (Some (Mat O))) error pe =
      Ok (L2, None) /\
    input L2 = None /\ output L2 = None /\
    centers (own L2) = Some (mkParameter (Mat C') (_grad c) (_dirty c)) /\
    (forall C0 x o k ck, C0 !! k = Some ck ->
       row_update self C0 x o !! k =
       Some (if selected self o k
             then moved (step_size (own self)) ck x else ck)) /\
    (forall o k, selected self o k = true <->
       k = winner o \/
       (update_neighbors (own self) = true /\ k < size self /\
        near self o (winner o) k = true)) /\
    (forall o, o ∈ O ->
       exists w, o !! winner o = Some w /\
                 forall k y, o !! k = Some y -> leb y w = true).
Proof.
  intros Htot Htrans Hc HvC HC Hs Hmv Hact Hdrop HX Hn.
  destruct (RBF_forward_ok self c C X n d Hc HvC HC HX) as [Hfwd HO].
  set (O := map (fun x => map (gauss self x) C) X) in *.
  exists O. do 2 eexists.
  split; [|split; [exact HO|split; [reflexivity|split; [|split; [|split; [|split; [|split; [|split]]]]]]]].
  - unfold _wrapped_forward, get_dropout.
    assert (reshape_rows (Mat X) = Ok (Mat X)) as ->.
    { destruct X; [destruct HX; simpl in *; lia|done]. }
    cbn [mbind result_bind forward RBF_layer RBF_impl]. rewrite Hfwd.
    cbn [mbind result_bind activation dropout set_io].
    rewrite Hact, Hdrop. reflexivity.
  - unfold _wrapped_backward, get_dropout. cbn [output set_io dropout activation].
    rewrite Hdrop, Hact.
    cbn [mbind result_bind backward RBF_layer RBF_impl].
    rewrite (RBF_backward_ok _ c C X O n d) by done.
    reflexivity.
  - reflexivity.
  - reflexivity.
  - reflexivity.
  - intros C0 x o k ck Hck. unfold row_update.
    by rewrite list_lookup_imap, Hck.
  - intros o k. unfold selected.
    rewrite orb_true_iff, !andb_true_iff, !bool_decide_eq_true. tauto.
  - intros o Ho. apply winner_max; try done.
    pose proof (rect_elem _ _ _ _ HO Ho) as Hlo.
    intros ->. simpl in Hlo. lia.
Qed.

End RBFFacts.

(* ===================================================================== *)
(** * The statements on concrete inputs *)
(* ===================================================================== *)

Section OnIntegers.
Local Open Scope Z_scope.

#[local] Instance Z_Dense : LayerImpl (Dense Z) := Dense_layer (constant_draw 0).
#[local] Instance Z_RBF : LayerImpl (RBF Z) := RBF_layer (constant_draw 0).

Lemma Z_leb_refl (x : Z) : leb x x = true.
Proof. apply Z.leb_refl. Defined.

Lemma Z_leb_total (x y : Z) : leb x y = true \/ leb y x = true.
Proof. cbn [leb Z_Scalar]. rewrite !Z.leb_le. lia. Defined.

Lemma Z_leb_trans (x y z : Z) :
  leb x y = true -> leb y z = true -> leb x z = true.
Proof. cbn [leb Z_Scalar]. rewrite !Z.leb_le. lia. Defined.

Lemma Z_ring : ring_theory (R := Z) zero one add mul sub opp eq.
Proof. exact Zth. Defined.

(** The weights of the scenario: bias [10, 20] and a 3 x 2 matrix. *)
Definition W32 : list (list Z) := [[10; 20]; [1; 2]; [3; 4]; [5; 6]].

Lemma rect_W32 : rect 4 2 W32.
Proof. split; [reflexivity|]. repeat constructor. Defined.

(** The scenario of C1 on [W32], from a fresh gradient. *)
Lemma Dense_scenario_witness :
  grad_slot_ok (A := Z) None 4 2 /\
  exists L1 L2,
    _wrapped_forward (Dense_with 3 2 W32 None None) (Mat [[1; 2; 3]]) =
      Ok (L1, Mat [[32; 48]]) /\
    _wrapped_backward L1 (Mat [[1; 1]]) true = Ok (L2, Some (Mat [[3; 7; 11]])) /\
    weights_grad L2 = Some (Mat [[1; 1]; [1; 1]; [2; 2]; [3; 3]]).
Proof.
  split; [by left|].
  destruct (Dense_scenario (constant_draw 0) Z_ring 10 20 1 2 3 4 5 6 None None
              (or_introl eq_refl)) as (L1 & Hfwd & Hbwd).
  destruct (Hbwd true) as (L2 & Hcall & _ & Hgrad & _).
  exists L1, L2. split; [exact Hfwd|]. split; [exact Hcall|exact Hgrad].
Defined.

(** C1 as stated fails: the gradient of the scenario has the bias row
    first, so it is not [outer([1,2,3,1],[1,1])], whose bias row is
    last. *)
Lemma Dense_scenario_bias_row_is_first :
  exists L1 y L2 u,
    _wrapped_forward (Dense_with 3 2 W32 None None) (Mat [[1; 2; 3]]) =
      Ok (L1, y) /\
    _wrapped_backward L1 (Mat [[1; 1]]) true = Ok (L2, u) /\
    weights_grad L2 = Some (Mat [[1; 1]; [1; 1]; [2; 2]; [3; 3]]) /\
    outer [1; 2; 3; 1] [1; 1] = [[1; 1]; [2; 2]; [3; 3]; [1; 1]] /\
    weights_grad L2 <> Some (Mat (outer [1; 2; 3; 1] [1; 1])).
Proof.
  do 4 eexists. split; [reflexivity|]. split; [reflexivity|].
  split; [reflexivity|]. split; [reflexivity|]. discriminate.
Qed.

(** C2 on [W32] and two batches. *)
Lemma gradient_accumulates_witness :
  rect (rows_of true 3) 2 W32 /\
  exists L1 y1 L2 u1 L3 y2 L4 u2,
    _wrapped_forward (fresh_Dense true 3 2 W32) (Mat [[1; 2; 3]]) = Ok (L1, y1) /\
    _wrapped_backward L1 (Mat [[1; 1]]) true = Ok (L2, u1) /\
    _wrapped_forward L2 (Mat [[0; 1; 0]; [2; 0; 1]]) = Ok (L3, y2) /\
    _wrapped_backward L3 (Mat [[1; 0]; [0; 1]]) true = Ok (L4, u2) /\
    weights_grad L2 = Some (Mat [[1; 1]; [1; 1]; [2; 2]; [3; 3]]) /\
    weights_grad L4 = Some (Mat [[2; 2]; [1; 3]; [3; 2]; [3; 4]]).
Proof.
  split; [exact rect_W32|].
  assert (Hr : forall n c (m : list (list Z)),
             length m = n -> Forall (fun r => length r = c) m -> rect n c m)
    by (intros; by split).
  destruct (gradient_accumulates (constant_draw 0) Z_ring true 3 2 W32 1 2
              [[1; 2; 3]] [[1; 1]] [[0; 1; 0]; [2; 0; 1]] [[1; 0]; [0; 1]]
              true true)
    as (_ & _ & L1 & y1 & L2 & u1 & L3 & y2 & L4 & u2 & H1 & H2 & H3 & H4 & H5 & H6);
    try (apply Hr; [reflexivity|repeat constructor]); try lia.
  { intros _. cbv. lia. }
  exists L1, y1, L2, u1, L3, y2, L4, u2.
  repeat split; assumption.
Defined.

(** The Dense layer of two nodes that [Dense(2)] constructs: no
    [input_dim], so no weights yet. *)
Definition Dense_unbuilt : Layer Z (Dense Z) :=
  mkLayer 2 None None None None false (Some None) (mkDense true None).

(** C3 for a Dense layer.  On the layer that the constructor returns a
    backward call returns [None] and changes nothing; on the layer on
    [W32] a backward call after a forward call returns a gradient, and
    the next backward call returns [None]. *)
Lemma backward_needs_forward_witness :
  setup_keeps_cache (LayerImpl0 := Z_Dense) /\
  Layer_init (mkDense true None) 2 None None None = Ok Dense_unbuilt /\
  _wrapped_backward Dense_unbuilt (Mat [[1; 1]]) true
    = Ok (Dense_unbuilt, None) /\
  exists L1 y L2 u,
    _wrapped_forward (fresh_Dense true 3 2 W32) (Mat [[1; 2; 3]])
      = Ok (L1, y) /\
    _wrapped_backward L1 (Mat [[1; 1]]) true = Ok (L2, Some u) /\
    _wrapped_backward L2 (Mat [[1; 1]]) true = Ok (L2, None).
Proof.
  pose proof (Dense_setup_keeps_cache (constant_draw 0)) as Hkeeps.
  split; [exact Hkeeps|].
  assert (Hinit : Layer_init (mkDense true None) 2 None None None
                  = Ok Dense_unbuilt) by reflexivity.
  split; [exact Hinit|].
  destruct (backward_needs_forward Hkeeps) as (_ & Hnew & _ & Hnext).
  split; [exact (Hnew _ _ _ _ _ Dense_unbuilt (Mat [[1; 1]]) true Hinit)|].
  set (L1 := set_io (fresh_Dense true 3 2 W32) (Some (Mat [[1; 2; 3]]))
                    (Some (Mat [[32; 48]]))).
  assert (Hfwd : _wrapped_forward (fresh_Dense true 3 2 W32)
                                  (Mat [[1; 2; 3]])
                 = Ok (L1, Mat [[32; 48]])) by reflexivity.
  destruct (_wrapped_backward L1 (Mat [[1; 1]]) true)
    as [[L2 [u|]]|e2] eqn:Hbwd;
    [|vm_compute in Hbwd; discriminate|vm_compute in Hbwd; discriminate].
  exists L1, (Mat [[32; 48]]), L2, u.
  split; [exact Hfwd|]. split; [exact Hbwd|].
  destruct (Hnext _ _ _ _ _ Hbwd) as (_ & _ & Hagain).
  exact (Hagain (Mat [[1; 1]]) true).
Defined.

Lemma built_W32 : built (fresh_Dense true 3 2 W32) true 3 2 W32.
Proof. apply built_fresh. exact rect_W32. Defined.

(** The layer on [W32] after [weights.zero_grad()]: the gradient of the
    weights is the number 0. *)
Definition W32_zeroed : Layer Z (Dense Z) :=
  mkLayer 2 None None (Some 3%nat) None false (Some None)
          (mkDense true (Some (zero_grad (mkParameter (Mat W32) None None)))).

Lemma built_W32_zeroed : built W32_zeroed true 3 2 W32.
Proof.
  split; [reflexivity|]. split; [eexists; split; reflexivity|].
  split; [exact rect_W32|]. split; reflexivity.
Defined.

Lemma zeroed_shape_preserving : shape_preserving W32_zeroed.
Proof.
  split; [intros ? Hsome; discriminate Hsome|].
  exists None. split; [reflexivity|]. intros ? Hsome. discriminate Hsome.
Defined.

(** C4 on [W32] after [zero_grad]: the shapes of an unbatched forward
    and of the backward that follows it. *)
Lemma Dense_shapes_witness :
  built W32_zeroed true 3 2 W32 /\
  (0 < 3)%nat /\ (0 < 2)%nat /\ shape_preserving W32_zeroed /\
  exists L1 y L2 u,
    _wrapped_forward W32_zeroed (Vec [1; 2; 3]) = Ok (L1, Vec y) /\
    length y = 2%nat /\
    _wrapped_backward L1 (Mat [[1; 1]]) true = Ok (L2, Some (Mat u)) /\
    rect 1 3 u.
Proof.
  split; [exact built_W32_zeroed|]. split; [lia|]. split; [lia|].
  split; [exact zeroed_shape_preserving|].
  destruct (Dense_shapes (constant_draw 0) W32_zeroed true 3 2 W32
              built_W32_zeroed ltac:(lia) ltac:(lia) zeroed_shape_preserving)
    as [Hv _].
  destruct (Hv [1; 2; 3] eq_refl) as (L1 & y & Hfwd & Hlen & Hback).
  destruct (Hback eq_refl) with (e := [[1; 1]]) as (L2 & u & Hbwd & Hu).
  { intros w [= <-]. exact I. }
  { split; [reflexivity|repeat constructor]. }
  exists L1, y, L2, u. repeat split; assumption || apply Hu.
Defined.

(** C4 as stated fails: after a forward on an unbatched input of shape
    [3], whose output has shape [2], a backward on an output-gradient of
    that shape raises, and a backward on the batched gradient of shape
    [1, 2] returns an upstream gradient of shape [1, 3], not [3]. *)
Lemma Dense_backward_is_not_debatched :
  exists L1,
    _wrapped_forward (fresh_Dense true 3 2 W32) (Vec [1; 2; 3]) =
      Ok (L1, Vec [32; 48]) /\
    _wrapped_backward L1 (Vec [1; 1]) true = Raise ValueError /\
    exists L2 u,
      _wrapped_backward L1 (Mat [[1; 1]]) true = Ok (L2, Some u) /\
      shape u = [1; 3]%nat /\ shape u <> shape (Vec [1; 2; 3]).
Proof.
  eexists. split; [reflexivity|]. split; [reflexivity|].
  do 2 eexists. split; [reflexivity|]. split; [reflexivity|]. discriminate.
Qed.

(** Without bias [Dense.backward] still leaves out the first row of the
    weights: the upstream gradient of a layer with three inputs has two
    columns. *)
Example Dense_without_bias_upstream :
  exists L1 y L2 u,
    _wrapped_forward (fresh_Dense false 3 2 [[1; 2]; [3; 4]; [5; 6]])
                     (Mat [[1; 2; 3]]) = Ok (L1, y) /\
    _wrapped_backward L1 (Mat [[1; 1]]) true = Ok (L2, Some u) /\
    u = Mat [[7; 11]].
Proof. do 4 eexists. split; [reflexivity|]. split; reflexivity. Qed.

(** C8 on two centers in the plane and one input row. *)
Definition rbf2 : Layer Z (RBF Z) :=
  mkLayer 2 None None (Some 2%nat) None false (Some None)
          (mkRBF 1 true 0 (Some 1) 1 false 0
                 (Some (mkParameter (Mat [[0; 0]; [10; 10]]) None None))).

Lemma RBF_backward_moves_centers_witness :
  rect 2 2 [[0; 0]; [10; 10]] /\ rect 1 2 [[1; 1]] /\
  exists O L1 L2,
    _wrapped_forward rbf2 (Mat [[1; 1]]) = Ok (L1, Mat O) /\
    _wrapped_backward L1 (Mat [[0; 0]]) true = Ok (L2, None) /\
    input L2 = None /\ output L2 = None.
Proof.
  assert (HC : rect 2 2 [[0; 0]; [10; 10]])
    by (split; [reflexivity|repeat constructor]).
  assert (HX : rect 1 2 [[1; 1]])
    by (split; [reflexivity|repeat constructor]).
  split; [exact HC|]. split; [exact HX|].
  destruct (RBF_backward_moves_centers (constant_draw 0) rbf2
              (mkParameter (Mat [[0; 0]; [10; 10]]) None None)
              [[0; 0]; [10; 10]] 1 2 [[1; 1]] (Mat [[0; 0]]) true
              Z_leb_total Z_leb_trans eq_refl eq_refl HC ltac:(simpl; lia)
              eq_refl eq_refl eq_refl HX ltac:(lia))
    as (O & C' & L2 & Hfwd & _ & _ & Hbwd & Hin & Hout & _).
  exists O, (set_io rbf2 (Some (Mat [[1; 1]])) (Some (Mat O))), L2.
  split; [exact Hfwd|]. split; [exact Hbwd|].
  split; assumption.
Defined.

(** A backward on a hand-made cache: the activations [1, 5, 3] make
    center 1 the winner; with a neighbourhood of radius 2 center 2 moves
    as well.  The step size is 1, so a moved center lands on the input. *)
Definition rbf3 (neighbors : bool) : Layer Z (RBF Z) :=
  mkLayer 3 (Some (Mat [[1; 1]])) (Some (Mat [[1; 5; 3]])) (Some 2%nat)
          None false (Some None)
          (mkRBF 1 true 0 (Some 1) 1 neighbors 2
                 (Some (mkParameter (Mat [[0; 0]; [10; 10]; [0; 1]])
                                    (Some (Num 7)) (Some true)))).

Example RBF_backward_winner_only :
  option_map value (centers (own (rbf3 false))) = Some (Mat [[0; 0]; [10; 10]; [0; 1]]) /\
  exists L,
    RBF_backward (rbf3 false) (Mat [[0; 0; 0]]) true = Ok (L, None) /\
    centers (own L) =
      Some (mkParameter (Mat [[0; 0]; [1; 1]; [0; 1]]) (Some (Num 7)) (Some true)).
Proof. split; [reflexivity|]. eexists. split; reflexivity. Qed.

Example RBF_backward_with_neighbors :
  exists L,
    RBF_backward (rbf3 true) (Mat [[0; 0; 0]]) true = Ok (L, None) /\
    centers (own L) =
      Some (mkParameter (Mat [[0; 0]; [1; 1]; [1; 1]]) (Some (Num 7)) (Some true)).
Proof. eexists. split; reflexivity. Qed.

(** C9 on two vectors of integers. *)
Lemma Parameter_value_equality_witness :
  (forall x : Z, leb x x = true) /\
  exists b,
    Parameter_eq (mkParameter (Vec [1; 2]) None None)
                 (mkParameter (Vec [1; 2]) (Some (Num 5)) (Some true)) = Ok b /\
    all_true b = true.
Proof.
  split; [exact Z_leb_refl|].
  destruct (Parameter_value_equality_identity_keys Z_leb_refl)
    as (Heq & _).
  exact (Heq (mkParameter (Vec [1; 2]) None None)
             (mkParameter (Vec [1; 2]) (Some (Num 5)) (Some true)) eq_refl).
Defined.

(** C9 as stated fails for the Parameter of [layers.py]: two distinct
    objects that hold the same values compare equal entry by entry, and
    a Parameter cannot be stored as a key. *)
Lemma Parameter_compares_by_value :
  let p : positive * Parameter_t Z := (1%positive, mkParameter (Vec [1; 2]) None None) in
  let q : positive * Parameter_t Z := (2%positive, mkParameter (Vec [1; 2]) None None) in
  p.1 <> q.1 /\
  Parameter_eq p.2 q.2 = Ok (Vec [true; true]) /\
  Parameter_hash p.2 = Raise TypeError /\
  dict_setitem [] p.2 0 = Raise TypeError.
Proof. repeat split. discriminate. Qed.

End OnIntegers.

Section OnAttributes.
Import Attr.

(** A name given by its letters is not reserved. *)
Ltac not_reserved :=
  unfold reserved; rewrite !elem_of_cons, elem_of_nil;
  let Hr := fresh "Hr" in
  intros Hr; repeat (destruct Hr as [Hr|Hr]; [discriminate Hr|]);
  exact Hr.

(** C10 on two assignments to one name. *)
Lemma setattr_tracks_parameters_witness :
  parameters_ok ∅ /\ synced ∅ /\
  exists self',
    assign_all ∅ [("weights", VParameter 1%positive); ("weights", VNone)] = Ok self' /\
    synced self'.
Proof.
  destruct new_instance_synced as [Hok Hsync].
  split; [exact Hok|]. split; [exact Hsync|].
  destruct (setattr_tracks_parameters ∅
              [("weights", VParameter 1%positive); ("weights", VNone)] Hok Hsync)
    as (self' & Hrun & Hs & _).
  { repeat constructor; cbn [fst]; not_reserved. }
  exists self'. split; assumption.
Defined.

(** C10 as stated fails: after [self.weights = Parameter(...)] and
    [self.parameters = {}] the attribute [weights] is bound to a
    Parameter and is not a key of [self.parameters]. *)
Lemma setattr_parameters_untracks :
  exists self',
    assign_all ∅ [("weights", VParameter 1%positive); ("parameters", VDict ∅)] = Ok self' /\
    bound_to_Parameter self' "weights" /\
    ~ is_key self' "weights" /\
    ~ synced self'.
Proof.
  exists (<["parameters" := VDict ∅]>
            (<["weights" := VParameter 1%positive]>
               (<["parameters" := VDict (<["weights" := VParameter 1%positive]> ∅)]>
                  (<["parameters" := VDict ∅]> ∅)))).
  assert (Hbound : bound_to_Parameter
            (<["parameters" := VDict ∅]>
               (<["weights" := VParameter 1%positive]>
                  (<["parameters" := VDict (<["weights" := VParameter 1%positive]> ∅)]>
                     (<["parameters" := VDict ∅]> ∅)))) "weights").
  { exists 1%positive. rewrite lookup_insert_ne by done.
    by rewrite lookup_insert_eq. }
  assert (Hkey : ~ is_key
            (<["parameters" := VDict ∅]>
               (<["weights" := VParameter 1%positive]>
                  (<["parameters" := VDict (<["weights" := VParameter 1%positive]> ∅)]>
                     (<["parameters" := VDict ∅]> ∅)))) "weights").
  { intros (d & Hd & Hs). rewrite lookup_insert_eq in Hd.
    injection Hd as <-. rewrite lookup_empty in Hs. by destruct Hs. }
  split; [|split; [exact Hbound|split; [exact Hkey|]]].
  - unfold assign_all. cbn [foldR fst snd]. unfold __setattr__ at 1.
    vm_compute. reflexivity.
  - intros Hsync. apply Hkey, Hsync, Hbound.
Qed.

(** The same happens through [__dict__]: after
    [self.weights = Parameter(...)] the assignment
    [self.__dict__ = {'weights': ...}] replaces the instance dictionary,
    and the layer is left with a Parameter and without the map. *)
Example setattr_dict_replaces_instance :
  assign_all ∅ [("weights", VParameter 1%positive);
                ("__dict__", VDict {[ "weights" := VParameter 1%positive ]})]
    = Ok {[ "weights" := VParameter 1%positive ]} /\
  bound_to_Parameter {[ "weights" := VParameter 1%positive ]} "weights" /\
  ~ is_key {[ "weights" := VParameter 1%positive ]} "weights".
Proof.
  split; [|split].
  - unfold assign_all. cbn [foldR fst snd]. unfold __setattr__ at 1.
    vm_compute. reflexivity.
  - exists 1%positive. apply lookup_singleton_eq.
  - intros (d & Hd & _). rewrite lookup_singleton_ne in Hd by done.
    discriminate Hd.
Qed.

End OnAttributes.

Section OnReals.
Import optim.
Local Open Scope R_scope.

Lemma R_field :
  field_theory (R := R) zero one add mul sub opp div inv eq.
Proof. exact Rfield. Defined.

(** The default hyperparameters of Adam. *)
Definition adam_defaults : Optimizer R := mkOptimizer (1 / 1000) None (2 / 1000) None.
Definition default_b1 : R := 9 / 10.
Definition default_b2 : R := 999 / 1000.
Definition default_eps : R := 1 / 100000000.

(** C5 with the default hyperparameters on a vector of two entries. *)
Lemma Adam_first_step_witness :
  sub one default_b1 <> zero /\ sub one default_b2 <> zero /\
  Adam_call (Adam_new adam_defaults default_b1 default_b2 default_eps)
            {[ 1%positive := mkParam (Vec [1; 2]) (Some (Vec [3; 4])) ]}
            [1%positive] =
  Ok (mkAdam adam_defaults default_b1 default_b2 default_eps 1
        {[ 1%positive :=
             amap (fun gi => add (mul default_b1 zero)
                                 (mul (sub one default_b1) gi)) (Vec [3; 4]) ]}
        {[ 1%positive :=
             amap (fun gi => add (mul default_b2 zero)
                                 (mul (sub one default_b2) (pow gi 2)))
                  (Vec [3; 4]) ]},
      <[ 1%positive :=
           mkParam (Vec [ 1 - (1 / 1000 * 3) / (R_sqrt.sqrt (3 * 3) + default_eps);
                          2 - (1 / 1000 * 4) / (R_sqrt.sqrt (4 * 4) + default_eps) ])
                   None ]>
        {[ 1%positive := mkParam (Vec [1; 2]) (Some (Vec [3; 4])) ]}).
Proof.
  assert (H1 : sub one default_b1 <> zero).
  { unfold default_b1. cbn [sub one zero R_Scalar]. lra. }
  assert (H2 : sub one default_b2 <> zero).
  { unfold default_b2. cbn [sub one zero R_Scalar]. lra. }
  split; [exact H1|]. split; [exact H2|].
  destruct (Adam_first_step R_field adam_defaults default_b1 default_b2
              default_eps
              {[ 1%positive := mkParam (Vec [1; 2]) (Some (Vec [3; 4])) ]}
              1%positive (Vec [1; 2]) (Vec [3; 4])
              eq_refl eq_refl (lookup_singleton_eq _ _) eq_refl H1 H2)
    as (_ & _ & Hcall).
  exact Hcall.
Defined.

End OnReals.

(* ===================================================================== *)
(** * Further properties of the code *)
(* ===================================================================== *)

(** ** Compose *)

Section ComposeFacts.
Import model.
Context {X : Type}.

Lemma apply_loop_app (a b : list (operation X)) (x : X) (o : option X) :
  apply_loop (a ++ b) x o =
  match apply_loop a x (Some x) with
  | Return r =>
      match a with
      | [] => apply_loop b x o
      | _ => apply_loop b r (Some r)
      end
  | Throw e => Throw e
  end.
Proof.
  revert x o. induction a as [|op a IH]; intros x o; simpl.
  - reflexivity.
  - destruct (op x) as [r|e]; [|reflexivity].
    rewrite IH. destruct (apply_loop a r (Some r)) as [r'|e] eqn:Ha;
      [|reflexivity].
    destruct a; [|reflexivity]. simpl in Ha. by injection Ha as ->.
Qed.

Lemma apply_loop_bound (a : list (operation X)) (x y : X) :
  a <> [] -> apply_loop a x (Some y) = apply_loop a x None.
Proof. destruct a as [|op a]; [done|]. reflexivity. Qed.

(** X1. A composition of nested compositions applies the operations of
    all groups in order: if every group has an operation,
    the composition of the compositions of the groups computes what
    the composition of all their operations computes, exceptions
    included. *)
Theorem Compose_flatten (groups : list (list (operation X))) (x : X) :
  Forall (fun g => g <> []) groups ->
  Compose_apply (map Compose_apply groups) x = Compose_apply (concat groups) x.
Proof.
  unfold Compose_apply. intros Hne.
  destruct groups as [|g groups]; [reflexivity|].
  apply Forall_cons in Hne as [Hg Hne]. simpl.
  rewrite apply_loop_app, (apply_loop_bound g x x Hg).
  destruct (apply_loop g x None) as [r|e]; [|reflexivity].
  destruct g as [|op g]; [done|]. clear Hg op g x.
  revert r. induction Hne as [|g groups Hg Hne IH]; intros r; [reflexivity|].
  simpl. rewrite apply_loop_app, (apply_loop_bound g r r Hg).
  destruct (apply_loop g r None) as [r'|e]; [|reflexivity].
  destruct g as [|op g]; [done|]. apply IH.
Qed.

(** X2. A composition of no operation cannot be applied: [output] is
    never bound and the call ends in [UnboundLocalError]; with at least
    one operation the call ends in that error only if an operation did. *)
Theorem Compose_empty_unbound (ops : list (operation X)) (x : X) :
  (ops = [] -> Compose_apply ops x = Throw UnboundLocalError) /\
  (ops <> [] ->
   (forall op y, op ∈ ops -> op y <> Throw UnboundLocalError) ->
   Compose_apply ops x <> Throw UnboundLocalError).
Proof.
  split; [by intros ->|].
  intros Hne Hops. unfold Compose_apply.
  destruct ops as [|op ops]; [done|]. simpl.
  destruct (op x) as [r|e] eqn:Hop.
  - assert (Hrest : forall op' y, op' ∈ ops -> op' y <> Throw UnboundLocalError)
      by (intros; apply Hops; by right).
    clear Hop Hops Hne. revert r Hrest.
    induction ops as [|op' ops IH]; intros r Hrest; simpl; [discriminate|].
    destruct (op' r) as [r'|e] eqn:Hop'.
    + apply IH. intros; apply Hrest; by right.
    + rewrite <- Hop'. apply Hrest. by left.
  - rewrite <- Hop. apply Hops. by left.
Qed.

End ComposeFacts.

(** ** Parameter: construction from a value, and the update flag *)

Section MoreParameter.
Context {A : Type} `{Scalar A}.
Variable normal : A -> A -> size_t -> result (ndarray A).

Lemma shape_full_num (size : size_t) (x y : A) :
  shape (full_num size x) = shape (full_num size y).
Proof.
  destruct size as [n|n|n c]; simpl; rewrite ?repeat_length; try done.
  destruct n; simpl; by rewrite ?repeat_length.
Qed.

Lemma full_Num (size : size_t) (x : A) :
  full size (Num x) = Ok (full_num size x).
Proof.
  unfold full, iop. rewrite bop_Num_r. cbn [mbind result_bind].
  assert (amap (fun _ : A => x) (full_num size zero) = full_num size x) as ->.
  { destruct size as [n|n|n c]; simpl; rewrite ?map_repeat; done. }
  unfold shape_eqb.
  by rewrite bool_decide_eq_true_2 by apply shape_full_num.
Qed.

(** X3. [Parameter(value)] holds [value] as it is; [Parameter(x, size=s)]
    for a number [x] is the array of shape [s] filled with [x]; a vector
    given with a size is kept when its length is the size and rejected
    with [ValueError] when its length is neither the size nor 1.  None of
    them has a gradient recorded. *)
Theorem Parameter_from_value (mean : A) (scale : option A) :
  (forall v, Parameter_new normal (Some v) None mean scale =
             Ok (mkParameter v None None)) /\
  (forall x size, Parameter_new normal (Some (Num x)) (Some size) mean scale =
                  Ok (mkParameter (full_num size x) None None)) /\
  (forall v, Parameter_new normal (Some (Vec v)) (Some (SInt (length v))) mean scale =
             Ok (mkParameter (Vec v) None None)) /\
  (forall v n, length v <> n -> length v <> 1 ->
     Parameter_new normal (Some (Vec v)) (Some (SInt n)) mean scale =
     Raise ValueError).
Proof.
  split; [reflexivity|]. split; [|split].
  - intros x size. unfold Parameter_new. by rewrite full_Num.
  - intros v. unfold Parameter_new, full. cbn [full_num].
    rewrite iop_same by (simpl; by rewrite repeat_length).
    cbn [mbind result_bind azip]. do 3 f_equal.
    induction v as [|a v IH]; simpl; [done|]. by rewrite IH.
  - intros v n Hn H1. unfold Parameter_new, full, iop, bop, bc1, bc.
    cbn [full_num]. rewrite repeat_length.
    destruct (Nat.eqb_spec n (length v)) as [->|_]; [done|].
    destruct n as [|[|n]]; simpl.
    + destruct v as [|a [|b v]]; simpl in *; done.
    + rewrite (mapR_ok _ (fun y => y)) by done. simpl.
      unfold shape_eqb. rewrite bool_decide_eq_false_2; [done|].
      simpl. rewrite length_map. congruence.
    + destruct v as [|a [|b v]]; simpl in *; done.
Qed.

(** X4. [need_update] reads [_dirty] without a default: on a Parameter
    that has just been created it raises [AttributeError]; once [grad]
    has been read it is false, once [grad] has been assigned it is true,
    and [zero_grad] makes it false again. *)
Theorem need_update_lifecycle value size mean scale (p : Parameter_t A) g :
  Parameter_new normal value size mean scale = Ok p ->
  need_update p = Raise AttributeError /\
  need_update (grad p).1 = Ok false /\
  need_update (set_grad p g) = Ok true /\
  need_update (set_grad (grad p).1 g) = Ok true /\
  need_update (zero_grad (set_grad p g)) = Ok false /\
  (grad (set_grad p g)).2 = g.
Proof.
  intros Hnew.
  assert (Hfresh : _grad p = None /\ _dirty p = None).
  { unfold Parameter_new in Hnew.
    destruct value as [v|].
    - apply bind_Ok_inv in Hnew as (v' & _ & [= <-]). done.
    - destruct size as [size|]; [|discriminate].
      apply bind_Ok_inv in Hnew as (v' & _ & [= <-]). done. }
  destruct Hfresh as [Hg Hd]. unfold need_update, grad.
  rewrite Hg, Hd. done.
Qed.

End MoreParameter.

(** ** Layers: what forward and setup do and do not change *)

Section MoreLayer.
Context {A : Type} `{Scalar A} {S : Type} `{!LayerImpl (A := A) S}.

(** X5. What a forward call records.  After a forward call that returns,
    [self.input] holds the input in batched form and [self.output] what
    the subclass [forward] returned for it, before activation and
    dropout; [size], [input_dim], [activation], [dropout] and the
    attributes of the subclass hold what they held before.  (The dict
    [parameters] is not part of the statement.) *)
Theorem forward_records_input_output (self self' : Layer A S) x y :
  _wrapped_forward self x = Ok (self', y) ->
  exists xin out,
    reshape_rows x = Ok xin /\ forward self xin = Ok out /\
    input self' = Some xin /\ output self' = Some out /\
    own self' = own self /\ size self' = size self /\
    input_dim self' = input_dim self /\
    activation self' = activation self /\ dropout self' = dropout self.
Proof.
  unfold _wrapped_forward. intros Hf.
  apply bind_Ok_inv in Hf as (xin & Hre & Hf).
  apply bind_Ok_inv in Hf as (out & Hfw & Hf).
  apply bind_Ok_inv in Hf as (o1 & _ & Hf).
  apply bind_Ok_inv in Hf as (drop & _ & Hf).
  apply bind_Ok_inv in Hf as (o2 & _ & Hf).
  apply bind_Ok_inv in Hf as (o3 & _ & Hf).
  injection Hf as <- <-. exists xin, out. done.
Qed.

End MoreLayer.

Section MoreDense.
Context {A : Type} `{Scalar A}.
Variable normal : A -> A -> size_t -> result (ndarray A).
#[local] Instance Dense_methods : LayerImpl (Dense A) := Dense_layer normal.
#[local] Instance RBF_methods : LayerImpl (RBF A) := RBF_layer normal.
Arguments matmul : simpl never.
Arguments bop : simpl never.
Arguments iop : simpl never.

Lemma reshape_rows_Some (x xin : ndarray A) :
  reshape_rows x = Ok xin -> exists m, xin = Mat m /\ m <> [].
Proof.
  destruct x as [a|v|[|r m]]; simpl; intros [= <-]; eauto.
Qed.

(** X6. A layer constructed without [input_dim] has no parameters, and
    forward does not set it up: on a Dense and on an RBF layer every
    forward call raises, with [AttributeError] for the missing parameter
    on every input that can be put in batched form. *)
Theorem forward_before_setup bias sz act drop (r : RBF A) :
  centers r = None ->
  let D := mkLayer sz None None None act false (Some drop)
                   (mkDense bias None) in
  let R := mkLayer sz None None None act false (Some drop) r in
  Layer_init (mkDense bias None) sz None act drop = Ok D /\
  Layer_init r sz None act drop = Ok R /\
  (forall x xin, reshape_rows x = Ok xin ->
     _wrapped_forward D x = Raise AttributeError /\
     _wrapped_forward R x = Raise AttributeError) /\
  (forall x res, _wrapped_forward D x <> Ok res) /\
  (forall x res, _wrapped_forward R x <> Ok res).
Proof.
  intros Hc D R.
  assert (HD : forall x xin, reshape_rows x = Ok xin ->
                 _wrapped_forward D x = Raise AttributeError).
  { intros x xin Hre. unfold _wrapped_forward, get_dropout. rewrite Hre. reflexivity. }
  assert (HR : forall x xin, reshape_rows x = Ok xin ->
                 _wrapped_forward R x = Raise AttributeError).
  { intros x xin Hre. unfold _wrapped_forward, get_dropout. rewrite Hre.
    cbn [mbind result_bind forward RBF_methods RBF_layer RBF_impl].
    unfold RBF_forward, get_centers. cbn [own R]. rewrite Hc. reflexivity. }
  split; [reflexivity|]. split; [reflexivity|]. split; [|split].
  - intros x xin Hre. eauto.
  - intros x res Hf. destruct (reshape_rows x) as [xin|e] eqn:Hre.
    + rewrite (HD x xin Hre) in Hf. discriminate.
    + unfold _wrapped_forward, get_dropout in Hf. rewrite Hre in Hf. discriminate.
  - intros x res Hf. destruct (reshape_rows x) as [xin|e] eqn:Hre.
    + rewrite (HR x xin Hre) in Hf. discriminate.
    + unfold _wrapped_forward, get_dropout in Hf. rewrite Hre in Hf. discriminate.
Qed.

(** X7. [input_dim] cannot be given at construction.  The constructor
    calls [setup] before it assigns [self.dropout], and [Layer.setup]
    prints the layer, whose [__repr__] reads [self.dropout]: constructing
    a Dense or an RBF layer with [input_dim] raises [AttributeError],
    whatever the other arguments.  The layer constructed without
    [input_dim] is set up by [setup(d)]: when the random draw returns,
    the result is that layer with [input_dim = d] and the drawn
    parameter.  On a constructed Dense layer [setup(None)] never
    succeeds: it raises [AssertionError] when no [input_dim] is recorded
    and [TypeError] when one is. *)
Theorem setup_only_after_construction bias (r : RBF A) sz d act drop :
  Layer_init (mkDense bias None) sz (Some d) act drop = Raise AttributeError /\
  Layer_init r sz (Some d) act drop = Raise AttributeError /\
  (forall w,
     Parameter_new normal None (Some (SList2 (rows_of bias d) sz)) zero None
       = Ok w ->
     (L ← Layer_init (mkDense bias None) sz None act drop; setup L (Some d)) =
     Ok (mkLayer sz None None (Some d) act false (Some drop)
                 (mkDense bias (Some w)))) /\
  (forall c,
     Parameter_new normal None (Some (SList2 sz d)) (centers_mean r)
                   (centers_dev r) = Ok c ->
     (L ← Layer_init r sz None act drop; setup L (Some d)) =
     Ok (set_centers (mkLayer sz None None (Some d) act false (Some drop) r)
                     c)) /\
  (forall self : Layer A (Dense A), is_Some (dropout self) ->
     Dense_setup normal self None =
     Raise (match input_dim self with
            | None => AssertionError
            | Some _ => TypeError
            end)).
Proof.
  split; [reflexivity|]. split; [reflexivity|]. split; [|split].
  - intros w Hw. unfold Layer_init.
    cbn [mbind result_bind setup Dense_methods Dense_layer Dense_impl].
    unfold Dense_setup, Layer_setup, Layer_repr, get_dropout.
    cbn [mbind result_bind set_input_dim set_dropout dropout own size
         with_bias].
    fold (rows_of bias d). rewrite Hw. reflexivity.
  - intros c Hc. unfold Layer_init.
    cbn [mbind result_bind setup RBF_methods RBF_layer RBF_impl].
    unfold RBF_setup, Layer_setup, Layer_repr, get_dropout.
    cbn [mbind result_bind set_input_dim set_dropout dropout own size].
    rewrite Hc. reflexivity.
  - intros self [drop' Hdrop].
    unfold Dense_setup, Layer_setup, Layer_repr, get_dropout.
    destruct (input_dim self); [|reflexivity].
    cbn [mbind result_bind]. rewrite Hdrop. reflexivity.
Qed.

(** X8. The rows of a batch go through a Dense layer independently: row
    [i] of the output for a batch is the output for row [i] given alone,
    unbatched. *)
Theorem Dense_forward_rowwise self bias n d s W x i v :
  built self bias d s W -> activation self = None -> dropout self = Some None ->
  rect n d x -> 0 < d -> x !! i = Some v ->
  exists L y L' yv,
    _wrapped_forward self (Mat x) = Ok (L, Mat y) /\
    _wrapped_forward self (Vec v) = Ok (L', Vec yv) /\
    y !! i = Some yv.
Proof.
  intros Hb Ha Hdr Hx Hd Hv.
  assert (Hn : 0 < n).
  { destruct Hx as [<- _]. apply lookup_lt_Some in Hv. lia. }
  assert (Hlv : length v = d).
  { eapply rect_elem; [exact Hx|]. by eapply list_elem_of_lookup_2. }
  do 4 eexists. split; [|split].
  - eapply wrapped_forward_batch; eauto.
  - unfold _wrapped_forward, get_dropout.
    cbn [reshape_rows mbind result_bind forward Dense_methods Dense_layer Dense_impl].
    assert (Hx1 : rect 1 d [v]) by (split; [done|by constructor]).
    erewrite Dense_forward_ok by eauto.
    cbn [mbind result_bind activation dropout set_io]. rewrite Ha, Hdr.
    assert (Hrow : dense_out bias W [v]
                   = [hd [] (dense_out bias W [v])]).
    { unfold dense_out, mmul. by destruct bias. }
    rewrite Hrow. reflexivity.
  - unfold dense_out, mmul. destruct bias; simpl.
    + change (map ?f ?l) with (f <$> l).
      rewrite !list_lookup_fmap, Hv. reflexivity.
    + change (map ?f x) with (f <$> x).
      rewrite list_lookup_fmap, Hv. reflexivity.
Qed.

(** X9. A batch whose rows do not have [input_dim] entries is rejected:
    forward raises [ValueError]. *)
Theorem Dense_forward_wrong_width self bias n d d' s W x :
  built self bias d s W -> rect n d' x -> 0 < n -> d' <> d ->
  _wrapped_forward self (Mat x) = Raise ValueError.
Proof.
  intros (Hbias & (w & Hw & HW) & Hrect & _) Hx Hn Hdd.
  unfold _wrapped_forward, get_dropout.
  destruct x as [|r x]; [destruct Hx; simpl in *; lia|].
  assert (Hr : length r = d').
  { eapply rect_elem; [exact Hx|]. by left. }
  cbn [reshape_rows mbind result_bind forward Dense_methods Dense_layer Dense_impl].
  unfold Dense_forward, get_weights. rewrite Hw. cbn [mbind result_bind].
  rewrite Hbias, HW. unfold rows_of in Hrect. destruct bias.
  - replace (d + 1) with (Datatypes.S d) in Hrect by lia.
    pose proof (rect_tail _ _ _ Hrect) as [Ht _].
    destruct W as [|b Wt]; [destruct Hrect; discriminate|].
    simpl in Ht. cbn [item lookup list_lookup from1 tail mbind result_bind].
    assert (row_matmul r Wt = Raise ValueError) as Hrow.
    { unfold row_matmul. rewrite Hr, Ht.
      by destruct (Nat.eqb_spec d' d). }
    unfold matmul. cbn [mapR]. rewrite Hrow. reflexivity.
  - rewrite Nat.add_0_r in Hrect. destruct Hrect as [HWn _].
    assert (row_matmul r W = Raise ValueError) as Hrow.
    { unfold row_matmul. rewrite Hr, HWn.
      by destruct (Nat.eqb_spec d' d). }
    unfold matmul. cbn [mapR]. rewrite Hrow. reflexivity.
Qed.

Lemma grad_iadd_inv (w w' : Parameter_t A) g :
  grad_iadd w g = Ok w' -> value w' = value w /\ need_update w' = Ok true.
Proof.
  unfold grad_iadd, grad. destruct (_grad w) as [g0|].
  - intros Hg. apply bind_Ok_inv in Hg as (g1 & _ & [= <-]). done.
  - intros Hg. apply bind_Ok_inv in Hg as (g1 & _ & [= <-]). done.
Qed.

(** X10. What a backward call on a Dense layer keeps.  After a backward
    call on a cached output that returns, the weights hold the values
    they held before, [with_bias], [size] and [input_dim] are as before,
    [weights.need_update] is true, [input] and [output] are [None], and
    the call has returned [None] exactly when [pass_error] is false.
    (The dict [parameters] is not part of the statement.) *)
Theorem Dense_backward_keeps_weights (self self' : Layer A (Dense A))
    error pe r :
  output self <> None ->
  _wrapped_backward self error pe = Ok (self', r) ->
  (exists w w', weights (own self) = Some w /\ weights (own self') = Some w' /\
                value w' = value w /\ need_update w' = Ok true) /\
  with_bias (own self') = with_bias (own self) /\
  size self' = size self /\ input_dim self' = input_dim self /\
  input self' = None /\ output self' = None /\
  (r = None <-> pe = false).
Proof.
  intros Hout Hb. unfold _wrapped_backward in Hb.
  destruct (output self) as [out|]; [|done].
  apply bind_Ok_inv in Hb as (drop & _ & Hb).
  apply bind_Ok_inv in Hb as (e1 & _ & Hb).
  apply bind_Ok_inv in Hb as (e2 & _ & Hb).
  apply bind_Ok_inv in Hb as ([self2 r2] & Hback & Hb).
  injection Hb as <- <-.
  cbn [backward Dense_methods Dense_layer Dense_impl] in Hback.
  unfold Dense_backward in Hback.
  apply bind_Ok_inv in Hback as (inp & _ & Hback).
  apply bind_Ok_inv in Hback as (g & _ & Hback).
  apply bind_Ok_inv in Hback as (g' & _ & Hback).
  apply bind_Ok_inv in Hback as (w & Hw & Hback).
  apply bind_Ok_inv in Hback as (w' & Hadd & Hback).
  unfold get_weights in Hw.
  destruct (weights (own self)) as [w0|] eqn:Hw0; [|discriminate].
  injection Hw as <-.
  apply grad_iadd_inv in Hadd as [Hval Hupd].
  destruct pe.
  - apply bind_Ok_inv in Hback as (w1 & _ & Hback).
    apply bind_Ok_inv in Hback as (e & _ & Hback).
    injection Hback as <- <-. split; [eauto 10|]. by repeat split.
  - injection Hback as <- <-. split; [eauto 10|]. by repeat split.
Qed.

(** X11. [Dense.backward] does not check the width of the error it is
    given.  On a fresh gradient and without [pass_error], an error with
    [s'] columns for a layer of size [s <> s'] is accepted and recorded
    as a gradient with [s'] columns, which is not the shape of the
    weights; with [pass_error] the same call raises [ValueError], in the
    product with the weights. *)
Theorem Dense_backward_unchecked_width self n d s s' W x out e dirty :
  own self = mkDense true (Some (mkParameter (Mat W) None dirty)) ->
  input self = Some (Mat x) -> output self = Some out ->
  activation self = None -> dropout self = Some None ->
  rect (d + 1) s W -> rect n d x -> rect n s' e ->
  0 < n -> 0 < d -> s' <> s ->
  (exists L2 G,
     _wrapped_backward self (Mat e) false = Ok (L2, None) /\
     weights_grad L2 = Some (Mat G) /\
     rect (d + 1) s' G /\ ~ rect (d + 1) s G) /\
  _wrapped_backward self (Mat e) true = Raise ValueError.
Proof.
  intros Hown Hin Hout Ha Hdr HW Hx He Hn Hd Hss.
  pose proof (rect_transpose _ _ _ Hx Hn) as Hxt.
  pose proof (rect_dense_grad true n d s' x e Hx He Hn) as HG.
  assert (Hgrad :
    (grad ← matmul (T (Mat x)) (Mat e);
     grad_b ← sum_axis0 (Mat e); insert0 grad grad_b)
    = Ok (Mat (dense_grad true x e))).
  { cbn [T]. rewrite (matmul_Mat d n) by (done || apply He).
    cbn [mbind result_bind sum_axis0]. by rewrite insert0_grad. }
  assert (Hpre : forall pe,
    _wrapped_backward self (Mat e) pe =
    (if pe then
       w1 ← from1 (Mat W); u ← matmul (Mat e) (T w1);
       Ok (set_io (set_sub self (mkDense true (Some
             (mkParameter (Mat W)
                (Some (Mat (map (map (add zero)) (dense_grad true x e))))
                (Some true))))) None None, Some u)
     else
       Ok (set_io (set_sub self (mkDense true (Some
             (mkParameter (Mat W)
                (Some (Mat (map (map (add zero)) (dense_grad true x e))))
                (Some true))))) None None, None))).
  { intros pe. unfold _wrapped_backward, get_dropout. rewrite Hout, Hdr, Ha.
    cbn [mbind result_bind backward Dense_methods Dense_layer Dense_impl].
    unfold Dense_backward, get_weights. rewrite Hin, Hown.
    cbn [mbind result_bind with_bias weights].
    apply bind_Ok_inv in Hgrad as (g & Hg & Hgrad). rewrite Hg.
    cbn [mbind result_bind]. rewrite Hgrad. cbn [mbind result_bind].
    unfold grad_iadd, grad. cbn [_grad value aug].
    unfold bop at 1. cbn [mbind result_bind set_grad value].
    destruct pe; [|reflexivity].
    destruct (from1 (Mat W)) as [w1|]; [|reflexivity].
    cbn [mbind result_bind]. destruct (matmul (Mat e) (T w1)); reflexivity. }
  split.
  - rewrite (Hpre false). do 2 eexists. split; [reflexivity|].
    split; [reflexivity|].
    unfold rows_of in HG. split; [by apply rect_map|].
    intros [_ Hbad]. apply rect_map with (f := add zero) in HG.
    destruct HG as [HGn HGc].
    destruct (map (map (add zero)) (dense_grad true x e)) as [|g0 G];
      [simpl in HGn; lia|].
    apply Forall_cons in Hbad as [Hb _]. apply Forall_cons in HGc as [Hg _].
    congruence.
  - rewrite (Hpre true). cbn [from1 mbind result_bind T].
    replace (d + 1) with (Datatypes.S d) in HW by lia.
    pose proof (rect_tail _ _ _ HW) as Ht.
    assert (Hlen : length (transpose (tail W)) = s).
    { rewrite length_transpose. eauto using rect_ncols. }
    destruct e as [|r e]; [destruct He; simpl in *; lia|].
    assert (Hr : length r = s').
    { eapply rect_elem; [exact He|]. by left. }
    assert (row_matmul r (transpose (tail W)) = Raise ValueError) as Hrow.
    { unfold row_matmul. rewrite Hr, Hlen.
      by destruct (Nat.eqb_spec s' s). }
    unfold matmul. cbn [mapR]. rewrite Hrow. reflexivity.
Qed.

End MoreDense.

(** ** Dense: the gradient of a batch is the sum over its parts *)

Section BatchGradient.
Context {A : Type} `{Scalar A}.
Variable normal : A -> A -> size_t -> result (ndarray A).
#[local] Instance Dense_batch_methods : LayerImpl (Dense A) :=
  Dense_layer normal.
Hypothesis Ath : ring_theory zero one add mul sub opp (@eq A).
Add Ring A_ring_batch : Ath.

(** Column [j] of a matrix given by its rows. *)
Definition column (j : nat) (m : list (list A)) : list A :=
  map (fun r => nth j r zero) m.

Lemma fold_add_acc (l : list A) (a : A) :
  fold_left add l a = add a (sum l).
Proof.
  unfold sum. revert a. induction l as [|x l IH]; intros a; simpl.
  - ring.
  - rewrite IH, (IH (add zero x)). ring.
Qed.

Lemma sum_app (l1 l2 : list A) : sum (l1 ++ l2) = add (sum l1) (sum l2).
Proof. unfold sum at 1. rewrite fold_left_app. apply fold_add_acc. Qed.

Lemma dot_app (u1 u2 v1 v2 : list A) :
  length u1 = length v1 ->
  dot (u1 ++ u2) (v1 ++ v2) = add (dot u1 v1) (dot u2 v2).
Proof. intros Hl. unfold dot. rewrite zip_with_app by done. apply sum_app. Qed.

Lemma zip_with_map_diag {X Y Z W} (f : Y -> Z -> W) (g : X -> Y) (h : X -> Z)
    (l : list X) :
  zip_with f (map g l) (map h l) = map (fun x => f (g x) (h x)) l.
Proof. induction l; simpl; congruence. Qed.

Lemma rect_app n1 n2 c (m1 m2 : list (list A)) :
  rect n1 c m1 -> rect n2 c m2 -> rect (n1 + n2) c (m1 ++ m2).
Proof.
  intros [Hn1 Hc1] [Hn2 Hc2]. split.
  - rewrite length_app. lia.
  - by apply Forall_app.
Qed.

Lemma transpose_columns n c (m : list (list A)) :
  rect n c m -> 0 < n ->
  transpose m = map (fun j => column j m) (seq 0 c).
Proof.
  intros Hm Hn. unfold transpose. by rewrite (rect_ncols _ _ _ Hm Hn).
Qed.

Lemma mmul_transpose n d s (x e : list (list A)) :
  rect n d x -> rect n s e -> 0 < n ->
  mmul (transpose x) e =
  map (fun j => map (fun k => dot (column j x) (column k e)) (seq 0 s))
      (seq 0 d).
Proof.
  intros Hx He Hn. unfold mmul.
  rewrite (transpose_columns _ _ _ Hx Hn), (transpose_columns _ _ _ He Hn).
  rewrite map_map. apply map_ext. intros j. by rewrite map_map.
Qed.

Lemma dense_grad_app bias n1 n2 d s (x1 e1 x2 e2 : list (list A)) :
  rect n1 d x1 -> rect n1 s e1 -> rect n2 d x2 -> rect n2 s e2 ->
  0 < n1 -> 0 < n2 ->
  dense_grad bias (x1 ++ x2) (e1 ++ e2) =
  madd (dense_grad bias x1 e1) (dense_grad bias x2 e2).
Proof.
  intros Hx1 He1 Hx2 He2 Hn1 Hn2.
  pose proof (rect_app _ _ _ _ _ Hx1 Hx2) as Hx.
  pose proof (rect_app _ _ _ _ _ He1 He2) as He.
  assert (Hcol : forall k (m : list (list A)) c, rect n1 c m ->
                   length (column k m) = n1).
  { intros k m c [Hm _]. unfold column. by rewrite length_map. }
  assert (Hmm :
    mmul (transpose (x1 ++ x2)) (e1 ++ e2) =
    madd (mmul (transpose x1) e1) (mmul (transpose x2) e2)).
  { rewrite (mmul_transpose _ _ _ _ _ Hx He) by lia.
    rewrite (mmul_transpose _ _ _ _ _ Hx1 He1) by lia.
    rewrite (mmul_transpose _ _ _ _ _ Hx2 He2) by lia.
    unfold madd. rewrite zip_with_map_diag. apply map_ext. intros j.
    rewrite zip_with_map_diag. apply map_ext. intros k.
    unfold column at 1 2. rewrite !map_app. fold (column j x1) (column j x2).
    fold (column k e1) (column k e2). apply dot_app.
    by rewrite (Hcol _ _ _ Hx1), (Hcol _ _ _ He1). }
  unfold dense_grad. rewrite Hmm. destruct bias; [|done].
  cbn [app]. unfold madd at 2. cbn [zip_with]. f_equal.
  rewrite (transpose_columns _ _ _ He) by lia.
  rewrite (transpose_columns _ _ _ He1) by lia.
  rewrite (transpose_columns _ _ _ He2) by lia.
  rewrite !map_map, zip_with_map_diag. apply map_ext. intros k.
  unfold column. rewrite map_app. apply sum_app.
Qed.

(** X12. The gradient of a batch is the sum of the gradients of its
    parts: one forward and backward call of a fresh Dense layer on the
    batch [x1 ++ x2] with the errors [e1 ++ e2] records the same gradient
    of the weights as a forward and backward call on [x1], [e1] followed
    by one on [x2], [e2]. *)
Theorem batch_gradient_splits bias d s W n1 n2 x1 e1 x2 e2 :
  rect (rows_of bias d) s W ->
  rect n1 d x1 -> rect n1 s e1 -> rect n2 d x2 -> rect n2 s e2 ->
  0 < n1 -> 0 < n2 -> 0 < d ->
  exists L1 y L2 La ya Lb Lc yc Ld,
    _wrapped_forward (fresh_Dense bias d s W) (Mat (x1 ++ x2)) = Ok (L1, y) /\
    _wrapped_backward L1 (Mat (e1 ++ e2)) false = Ok (L2, None) /\
    _wrapped_forward (fresh_Dense bias d s W) (Mat x1) = Ok (La, ya) /\
    _wrapped_backward La (Mat e1) false = Ok (Lb, None) /\
    _wrapped_forward Lb (Mat x2) = Ok (Lc, yc) /\
    _wrapped_backward Lc (Mat e2) false = Ok (Ld, None) /\
    weights_grad L2 = Some (Mat (dense_grad bias (x1 ++ x2) (e1 ++ e2))) /\
    weights_grad Ld = weights_grad L2.
Proof.
  intros HW Hx1 He1 Hx2 He2 Hn1 Hn2 Hd.
  pose proof (rect_app _ _ _ _ _ Hx1 Hx2) as Hx.
  pose proof (rect_app _ _ _ _ _ He1 He2) as He.
  pose proof (rect_dense_grad bias n1 d s x1 e1 Hx1 He1 Hn1) as HG1.
  do 9 eexists. split; [|split; [|split; [|split; [|split; [|split]]]]].
  - eapply wrapped_forward_batch; eauto using built_fresh. lia.
  - eapply (wrapped_backward_cached normal _ bias (n1 + n2) d s W);
      try reflexivity; eauto; [by left|lia|done].
  - eapply wrapped_forward_batch; eauto using built_fresh.
  - eapply (wrapped_backward_cached normal _ bias n1 d s W);
      try reflexivity; eauto; [by left|done].
  - eapply wrapped_forward_batch; eauto.
    repeat split; simpl; eauto; apply HW.
  - eapply (wrapped_backward_cached normal _ bias n2 d s W);
      try reflexivity; eauto; [|done].
    right. eexists. split; [reflexivity|].
    apply rect_accumulate; [by left|done].
  - cbn. rewrite !(add_zero_rows Ath).
    by rewrite (dense_grad_app bias n1 n2 d s).
Qed.

End BatchGradient.

(** ** RBF: what the update of the centers keeps *)

Section MoreRBF.
Context {A : Type} `{Scalar A}.
Variable normal : A -> A -> size_t -> result (ndarray A).
#[local] Instance RBF_more_methods : LayerImpl (RBF A) := RBF_layer normal.

Lemma rect_row_step self n m d X O C i :
  rect n d X -> rect m d C -> rect m d (row_step self X O C i).
Proof.
  intros HX HC. unfold row_step.
  destruct (X !! i) as [x|] eqn:Hx; [|done].
  destruct (O !! i) as [o|]; [|done].
  apply rect_row_update; [done|].
  eapply rect_elem; [exact HX|]. by eapply list_elem_of_lookup_2.
Qed.

Lemma rect_row_steps self n m d X O (l : list nat) : forall C,
  rect n d X -> rect m d C -> rect m d (fold_left (row_step self X O) l C).
Proof.
  induction l as [|i l IH]; intros C HX HC; [done|].
  simpl. apply IH; [done|]. by eapply rect_row_step.
Qed.

Lemma row_steps_unselected self X O k (l : list nat) : forall C,
  (forall i o, i ∈ l -> O !! i = Some o -> selected self o k = false) ->
  fold_left (row_step self X O) l C !! k = C !! k.
Proof.
  induction l as [|i l IH]; intros C Hsel; [done|].
  simpl. rewrite IH by (intros i' o Hi'; apply Hsel; by right).
  unfold row_step. destruct (X !! i) as [x|]; [|done].
  destruct (O !! i) as [o|] eqn:Ho; [|done].
  unfold row_update. rewrite list_lookup_imap.
  destruct (C !! k) as [ck|]; [|done]. simpl.
  by rewrite (Hsel i o) by (done || by left).
Qed.

(** X13. The update of the centers keeps their shape, and a center that
    no row of the batch selects keeps its value: after a backward call on
    cached input [X] and activations [O] the centers are again [size]
    rows of [d] entries, and row [k] is as before when [k] is neither the
    winner nor a selected neighbour for any row of [O]. *)
Theorem RBF_backward_keeps_shape self c C n d X O error pe :
  centers (own self) = Some c -> value c = Mat C ->
  rect (size self) d C -> 0 < size self ->
  move_centers (own self) = true ->
  activation self = None -> dropout self = Some None ->
  input self = Some (Mat X) -> output self = Some (Mat O) ->
  rect n d X -> rect n (size self) O ->
  exists L2 C',
    _wrapped_backward self error pe = Ok (L2, None) /\
    centers (own L2) = Some (mkParameter (Mat C') (_grad c) (_dirty c)) /\
    rect (size self) d C' /\
    size L2 = size self /\
    (forall k, (forall o, o ∈ O -> selected self o k = false) ->
               C' !! k = C !! k).
Proof.
  intros Hc HvC HC Hs Hmv Hact Hdrop Hin Hout HX HO.
  exists (set_io (with_centers self c
                    (fold_left (row_step self X O) (seq 0 n) C)) None None).
  exists (fold_left (row_step self X O) (seq 0 n) C).
  split; [|split; [reflexivity|split; [|split; [reflexivity|]]]].
  - unfold _wrapped_backward, get_dropout. rewrite Hout, Hdrop, Hact.
    cbn [mbind result_bind backward RBF_more_methods RBF_layer RBF_impl].
    rewrite (RBF_backward_ok self c C X O n d) by done.
    reflexivity.
  - by eapply rect_row_steps.
  - intros k Hk. apply row_steps_unselected.
    intros i o _ Ho. apply Hk. by eapply list_elem_of_lookup_2.
Qed.

Hypothesis Ath : ring_theory zero one add mul sub opp (@eq A).
Add Ring A_ring_rbf : Ath.

Lemma moved_zero (c x : list A) :
  length x = length c -> moved zero c x = c.
Proof.
  unfold moved. revert x. induction c as [|a c IH]; intros [|b x] Hl;
    simpl in *; try done.
  f_equal; [ring|]. apply IH. lia.
Qed.

Lemma moved_one (c x : list A) :
  length x = length c -> moved one c x = x.
Proof.
  unfold moved. revert x. induction c as [|a c IH]; intros [|b x] Hl;
    simpl in *; try done.
  f_equal; [ring|]. apply IH. lia.
Qed.

Lemma row_steps_still self n m d X O (l : list nat) : forall C,
  step_size (own self) = zero ->
  rect n d X -> rect m d C -> fold_left (row_step self X O) l C = C.
Proof.
  induction l as [|i l IH]; intros C Hst HX HC; [done|].
  simpl.
  assert (row_step self X O C i = C) as ->; [|by apply IH].
  unfold row_step. destruct (X !! i) as [x|] eqn:Hx; [|done].
  destruct (O !! i) as [o|]; [|done].
  unfold row_update. apply list_eq. intros k. rewrite list_lookup_imap.
  destruct (C !! k) as [ck|] eqn:Hck; [|done]. simpl.
  destruct (selected self o k); [|done]. rewrite Hst, moved_zero; [done|].
  rewrite (rect_elem _ _ _ _ HX (list_elem_of_lookup_2 _ _ _ Hx)).
  by rewrite (rect_elem _ _ _ _ HC (list_elem_of_lookup_2 _ _ _ Hck)).
Qed.

(** X14. The step size scales the move of a center.  With [step_size = 0]
    a backward call leaves every center where it was; with
    [step_size = 1] a center ends on the last input row that selected
    it. *)
Theorem RBF_step_size_extremes self c C n d X O error pe :
  centers (own self) = Some c -> value c = Mat C ->
  rect (size self) d C -> 0 < size self ->
  move_centers (own self) = true ->
  activation self = None -> dropout self = Some None ->
  input self = Some (Mat X) -> output self = Some (Mat O) ->
  rect n d X -> rect n (size self) O ->
  exists L2 C',
    _wrapped_backward self error pe = Ok (L2, None) /\
    centers (own L2) = Some (mkParameter (Mat C') (_grad c) (_dirty c)) /\
    (step_size (own self) = zero -> C' = C) /\
    (step_size (own self) = one ->
     forall k i x o, k < size self ->
       X !! i = Some x -> O !! i = Some o -> selected self o k = true ->
       (forall i' o', i < i' -> O !! i' = Some o' ->
                      selected self o' k = false) ->
       C' !! k = Some x).
Proof.
  intros Hc HvC HC Hs Hmv Hact Hdrop Hin Hout HX HO.
  exists (set_io (with_centers self c
                    (fold_left (row_step self X O) (seq 0 n) C)) None None).
  exists (fold_left (row_step self X O) (seq 0 n) C).
  split; [|split; [reflexivity|split]].
  - unfold _wrapped_backward, get_dropout. rewrite Hout, Hdrop, Hact.
    cbn [mbind result_bind backward RBF_more_methods RBF_layer RBF_impl].
    rewrite (RBF_backward_ok self c C X O n d) by done.
    reflexivity.
  - intros Hst. by eapply row_steps_still.
  - intros Hst k i x o Hk Hx Ho Hsel Hlater.
    assert (Hi : i < n).
    { destruct HX as [<- _]. by eapply lookup_lt_Some. }
    replace n with (i + (1 + (n - S i))) by lia.
    rewrite seq_app, seq_app, !fold_left_app. cbn [seq fold_left].
    rewrite row_steps_unselected.
    2:{ intros i' o' Hi' Ho'. apply (Hlater i'); [|done].
        apply list_elem_of_In, in_seq in Hi'. lia. }
    set (C0 := fold_left (row_step self X O) (seq 0 i) C).
    assert (HC0 : rect (size self) d C0) by by eapply rect_row_steps.
    rewrite Nat.add_0_l. unfold row_step. rewrite Hx, Ho.
    unfold row_update. rewrite list_lookup_imap.
    destruct (lookup_lt_is_Some_2 C0 k) as [ck Hck];
      [destruct HC0 as [-> _]; done|].
    rewrite Hck. simpl. rewrite Hsel, Hst, moved_one; [done|].
    rewrite (rect_elem _ _ _ _ HX (list_elem_of_lookup_2 _ _ _ Hx)).
    by rewrite (rect_elem _ _ _ _ HC0 (list_elem_of_lookup_2 _ _ _ Hck)).
Qed.

End MoreRBF.

(** ** Layer.__setattr__: the entries of the map of parameters *)

Section MoreSetattr.
Import Attr.

(** The map [parameters], read as empty while the attribute is unset,
    holds under each name the Parameter the attribute of that name is
    bound to, and nothing else. *)
Definition tracked (self : instance) : Prop :=
  exists d,
    (self !! "parameters" = Some (VDict d) \/
     (self !! "parameters" = None /\ d = ∅)) /\
    forall name v, d !! name = Some v <->
                   self !! name = Some v /\ isinstance_Parameter v = true.

(** The assignments as plain updates of the instance dictionary. *)
Definition plain_assign (self : instance) (l : list (string * pyval))
  : instance :=
  fold_left (fun s nv => <[nv.1 := nv.2]> s) l self.

Lemma tracked_new : tracked ∅.
Proof.
  exists ∅. split; [right; split; [apply lookup_empty|done]|].
  intros name v. rewrite !lookup_empty. split; [done|]. by intros [? _].
Qed.

Lemma tracked_step (self : instance) name value :
  tracked self -> name <> "parameters" -> plain name ->
  exists self' d',
    __setattr__ self name value = Ok self' /\
    self' = <[name := value]> (<["parameters" := VDict d']> self) /\
    forall n v, d' !! n = Some v <->
                self' !! n = Some v /\ isinstance_Parameter v = true.
Proof.
  intros (d & Hd & Hkeys) Hname Hplain.
  set (self1 := if hasattr self "parameters" then self
                else <["parameters" := VDict ∅]> self).
  assert (Hd1 : self1 !! "parameters" = Some (VDict d)).
  { unfold self1, hasattr. destruct Hd as [Hd|[Hd ->]].
    - by rewrite bool_decide_eq_true_2 by (rewrite Hd; eauto).
    - rewrite bool_decide_eq_false_2 by (rewrite Hd; by intros [? ?]).
      by rewrite lookup_insert_eq. }
  assert (Hins : forall x, <["parameters" := x]> self1
                           = <["parameters" := x]> self).
  { intros x. unfold self1, hasattr.
    case_bool_decide; [done|]. by rewrite insert_insert_eq. }
  set (d' := if isinstance_Parameter value then <[name := value]> d
             else delete name d).
  exists (<[name := value]> (<["parameters" := VDict d']> self)), d'.
  split; [|split; [reflexivity|]].
  - unfold __setattr__. rewrite setattr_first. fold self1.
    cbn [mbind result_bind]. unfold getattr. rewrite Hd1.
    cbn [mbind result_bind]. unfold d'.
    destruct (isinstance_Parameter value).
    + cbn [py_setitem mbind result_bind].
      rewrite object_setattr_plain by done. by rewrite Hins.
    + cbn [py_contains mbind result_bind]. case_bool_decide as Hin.
      * cbn [py_delitem mbind result_bind].
        rewrite object_setattr_plain by done. by rewrite Hins.
      * cbn [mbind result_bind]. rewrite object_setattr_plain by done.
        rewrite <- Hins.
        rewrite delete_id by (by apply eq_None_not_Some).
        by rewrite (insert_id self1 "parameters" (VDict d)).
  - assert (Hnopar : d !! "parameters" = None).
    { apply eq_None_not_Some. intros [v Hv]. apply Hkeys in Hv as [Hv Hp].
      destruct Hd as [Hd|[Hd _]]; rewrite Hd in Hv; [|done].
      injection Hv as <-. done. }
    intros n v. destruct (decide (n = name)) as [->|Hne].
    + rewrite lookup_insert_eq. unfold d'.
      destruct (isinstance_Parameter value) eqn:Hv.
      * rewrite lookup_insert_eq. split; [intros [= <-]; done|].
        by intros [? _].
      * rewrite lookup_delete_eq. split; [done|].
        intros [[= <-] ?]. congruence.
    + rewrite lookup_insert_ne by done.
      assert (d' !! n = d !! n) as ->.
      { unfold d'. destruct (isinstance_Parameter value).
        - by rewrite lookup_insert_ne.
        - by rewrite lookup_delete_ne. }
      destruct (decide (n = "parameters")) as [->|Hnp].
      * rewrite lookup_insert_eq, Hnopar. split; [done|].
        by intros [[= <-] ?].
      * rewrite lookup_insert_ne by done. apply Hkeys.
Qed.

Lemma plain_assign_delete (l : list (string * pyval)) : forall a b : instance,
  delete "parameters" a = delete "parameters" b ->
  delete "parameters" (plain_assign a l) =
  delete "parameters" (plain_assign b l).
Proof.
  unfold plain_assign.
  induction l as [|[n v] l IH]; intros a b Hab; [done|].
  simpl. apply IH. apply map_eq. intros k.
  destruct (decide (k = "parameters")) as [->|Hk].
  - by rewrite !lookup_delete_eq.
  - rewrite !lookup_delete_ne by done.
    destruct (decide (k = n)) as [->|Hkn].
    + by rewrite !lookup_insert_eq.
    + rewrite !lookup_insert_ne by done.
      apply (f_equal (fun m => m !! k)) in Hab.
      by rewrite !lookup_delete_ne in Hab by done.
Qed.

Lemma tracked_run (self : instance) (l : list (string * pyval)) :
  tracked self -> Forall (fun nv => ~ reserved nv.1) l ->
  exists self',
    assign_all self l = Ok self' /\ tracked self' /\
    delete "parameters" self' = delete "parameters" (plain_assign self l) /\
    (l <> [] -> is_Some (self' !! "parameters")).
Proof.
  intros Htr Hl. revert self Htr. unfold assign_all.
  induction Hl as [|[name value] l Hnv Hl IH]; intros self Htr.
  - exists self. by repeat split.
  - simpl in Hnv. pose proof (not_reserved_plain _ Hnv) as Hplain.
    apply not_reserved_parameters in Hnv.
    destruct (tracked_step self name value Htr Hnv Hplain)
      as (self1 & d1 & Hstep & Hself1 & Hkeys1).
    assert (Hpar1 : self1 !! "parameters" = Some (VDict d1)).
    { rewrite Hself1, lookup_insert_ne by done. by rewrite lookup_insert_eq. }
    assert (Htr1 : tracked self1) by (exists d1; eauto).
    destruct (IH self1 Htr1) as (self' & Hrun & Htr' & Hdel & Hsome).
    exists self'. cbn [foldR fst snd]. rewrite Hstep.
    cbn [mbind result_bind]. split; [exact Hrun|]. split; [exact Htr'|].
    split.
    + rewrite Hdel. unfold plain_assign at 2. cbn [fold_left fst snd].
      apply plain_assign_delete. rewrite Hself1. apply map_eq. intros k.
      destruct (decide (k = "parameters")) as [->|Hk].
      * by rewrite !lookup_delete_eq.
      * rewrite !lookup_delete_ne by done.
        destruct (decide (k = name)) as [->|Hkn].
        -- by rewrite !lookup_insert_eq.
        -- by rewrite !lookup_insert_ne by done.
    + intros _. destruct l as [|nv l'].
      * simpl in Hrun. injection Hrun as <-. rewrite Hpar1. eauto.
      * by apply Hsome.
Qed.

(** X15. [self.parameters] is the sub-dictionary of the attributes that
    hold a Parameter.  After any non-empty sequence of assignments to
    names other than [parameters], the descriptors [activation],
    [__dict__], [__class__] and [__weakref__], and the redirected names
    [forward] and [backward], on a layer in that state (a new instance
    in particular), [parameters] is a dict whose entries are the
    instance attributes bound to a Parameter, each under its name and
    with that Parameter as its value; every other attribute whose value
    is not a dict holds the value that was assigned to it last, as after
    plain assignments.  (A dict is a value here; an attribute that
    shares the dict of [parameters] is left out of the last part.) *)
Theorem setattr_parameters_mirror (self : instance)
    (l : list (string * pyval)) :
  tracked self -> Forall (fun nv => ~ reserved nv.1) l -> l <> [] ->
  exists self' d,
    assign_all self l = Ok self' /\
    self' !! "parameters" = Some (VDict d) /\
    d = filter (fun kv => isinstance_Parameter kv.2 = true) self' /\
    forall name, name <> "parameters" ->
      (forall d', plain_assign self l !! name <> Some (VDict d')) ->
      self' !! name = plain_assign self l !! name.
Proof.
  intros Htr Hl Hne.
  destruct (tracked_run self l Htr Hl)
    as (self' & Hrun & (d & Hd & Hkeys) & Hdel & Hsome).
  destruct (Hsome Hne) as [x Hx].
  destruct Hd as [Hd|[Hd _]]; [|congruence].
  exists self', d. split; [done|]. split; [done|]. split.
  - apply map_eq. intros k. apply option_eq. intros v.
    rewrite Hkeys, map_lookup_filter_Some. done.
  - intros name Hname _.
    apply (f_equal (fun m => m !! name)) in Hdel.
    by rewrite !lookup_delete_ne in Hdel by done.
Qed.

(** X16. Once [parameters] is rebound to a value that is not a
    container, the layer accepts no assignment any more: the assignment
    [self.parameters = None] (or an integer) succeeds, and every
    assignment after it, to any name and of any value, raises
    [TypeError]. *)
Theorem parameters_rebound_blocks (self : instance) (x : pyval)
    (l : list (string * pyval)) :
  parameters_ok self -> x = VNone \/ (exists z, x = VInt z) -> l <> [] ->
  exists self',
    __setattr__ self "parameters" x = Ok self' /\
    self' !! "parameters" = Some x /\
    (forall name value, __setattr__ self' name value = Raise TypeError) /\
    assign_all self' l = Raise TypeError.
Proof.
  intros Hok Hx Hl.
  assert (Hnp : isinstance_Parameter x = false).
  { by destruct Hx as [->|[z ->]]. }
  assert (Hblock : forall s : instance, s !! "parameters" = Some x ->
            forall name value, __setattr__ s name value = Raise TypeError).
  { intros s Hs name value. unfold __setattr__. rewrite setattr_first.
    unfold hasattr. rewrite bool_decide_eq_true_2 by (rewrite Hs; eauto).
    cbn [mbind result_bind]. unfold getattr. rewrite Hs.
    cbn [mbind result_bind].
    destruct (isinstance_Parameter value), Hx as [->|[z ->]]; reflexivity. }
  assert (Hfirst : exists self',
            __setattr__ self "parameters" x = Ok self' /\
            self' !! "parameters" = Some x).
  { unfold __setattr__. rewrite setattr_first.
    cbn [mbind result_bind]. unfold hasattr, getattr. rewrite Hnp.
    destruct Hok as [Hnone|(d & Hd)].
    - rewrite bool_decide_eq_false_2 by (rewrite Hnone; by intros [? ?]).
      rewrite lookup_insert_eq. cbn [mbind result_bind py_contains].
      rewrite lookup_empty.
      rewrite bool_decide_eq_false_2 by (by intros [? ?]).
      cbn [mbind result_bind].
      rewrite object_setattr_plain by apply plain_parameters.
      eexists. split; [reflexivity|]. by rewrite lookup_insert_eq.
    - rewrite bool_decide_eq_true_2 by (rewrite Hd; eauto).
      rewrite Hd. cbn [mbind result_bind py_contains].
      case_bool_decide; cbn [py_delitem mbind result_bind];
        rewrite object_setattr_plain by apply plain_parameters;
        (eexists; split; [reflexivity|]); by rewrite lookup_insert_eq. }
  destruct Hfirst as (self' & Hset & Hpar).
  exists self'. split; [exact Hset|]. split; [exact Hpar|].
  split; [by apply Hblock|].
  destruct l as [|[name value] l]; [done|].
  unfold assign_all. cbn [foldR fst snd]. by rewrite (Hblock self' Hpar).
Qed.

End MoreSetattr.

(** ** Optimizers: what a call touches *)

Section MoreOptim.
Import optim.
Context {A : Type} `{Scalar A}.

Lemma get_param_inv (h : gmap ref (Param A)) p q :
  get_param h p = Ok q -> h !! p = Some q.
Proof. unfold get_param. destruct (h !! p); by intros [= <-]. Qed.

(** The body of the loop of [Optimizer.__call__], read backwards. *)
Lemma step_inv {St} `{!OptimizerImpl (A := A) St} (s s' : St)
    (h h' : gmap ref (Param A)) p :
  step (s, h) p = Ok (s', h') ->
  exists q0 h1 h2 q2 q3,
    h !! p = Some q0 /\ has_grad q0 = true /\
    (h1 = h \/ exists q1, h1 = <[p := q1]> h) /\
    update s h1 p = Ok (s', h2) /\
    h2 !! p = Some q2 /\
    regularize (base s') q2 = Ok q3 /\
    h' = <[p := del_grad q3]> h2.
Proof.
  unfold step. intros Hs.
  apply bind_Ok_inv in Hs as (q0 & Hq0%get_param_inv & Hs).
  destruct (has_grad q0) eqn:Hg; [|discriminate]. cbn [negb] in Hs.
  apply bind_Ok_inv in Hs as (h1 & Hh1 & Hs).
  apply bind_Ok_inv in Hs as ([s2 h2] & Hup & Hs).
  apply bind_Ok_inv in Hs as (q2 & Hq2%get_param_inv & Hs).
  apply bind_Ok_inv in Hs as (q3 & Hreg & Hs).
  injection Hs as <- <-.
  exists q0, h1, h2, q2, q3. repeat split; try done.
  destruct (grad_lim (base s)) as [lim|]; [|injection Hh1 as <-; by left].
  destruct (is_zero lim); [injection Hh1 as <-; by left|].
  apply bind_Ok_inv in Hh1 as (q1 & _ & [= <-]). right. eauto.
Qed.

(** X17. An optimizer updates parameters that carry a gradient only:
    when the parameters before [par] in the list have been processed and
    [par] is not a parameter of the heap or has no gradient, the call
    raises [AssertionError], whatever the subclass of [Optimizer]. *)
Theorem Optimizer_call_needs_grad {St} `{!OptimizerImpl (A := A) St}
    (self s1 : St) (h h1 : gmap ref (Param A)) (before after : list ref)
    (par : ref) :
  Optimizer_call self h before = Ok (s1, h1) ->
  (h1 !! par = None \/ exists q, h1 !! par = Some q /\ param_grad q = None) ->
  Optimizer_call self h (before ++ par :: after) = Raise AssertionError.
Proof.
  unfold Optimizer_call. revert self h.
  induction before as [|p l IH]; intros self h Hrun Hpar.
  - injection Hrun as <- <-. cbn [app foldR]. unfold step, get_param.
    destruct Hpar as [->|(q & -> & Hq)]; [done|].
    cbn [mbind result_bind]. unfold has_grad. by rewrite Hq.
  - cbn [app foldR] in *.
    destruct (step (self, h) p) as [[s2 h2]|]; [|discriminate].
    cbn [mbind result_bind] in *. by apply IH.
Qed.

Lemma SGD_update_inv (s s' : SGD A) (h h' : gmap ref (Param A)) p :
  SGD_update s h p = Ok (s', h') ->
  exists q d delta,
    h !! p = Some q /\ h' = <[p := mkParam d (param_grad q)]> h /\
    s' = mkSGD (sgd_base s) (mom s) (<[p := delta]> (old_delta s)).
Proof.
  unfold SGD_update. intros Hs.
  apply bind_Ok_inv in Hs as (q & Hq%get_param_inv & Hs).
  apply bind_Ok_inv in Hs as (g & _ & Hs).
  apply bind_Ok_inv in Hs as (delta & _ & Hs).
  apply bind_Ok_inv in Hs as (d1 & _ & Hs).
  apply bind_Ok_inv in Hs as (d2 & _ & Hs).
  injection Hs as <- <-. eauto 10.
Qed.

Lemma Adam_update_inv (s s' : Adam A) (h h' : gmap ref (Param A)) p :
  Adam_update s h p = Ok (s', h') ->
  exists q d m1 v1,
    h !! p = Some q /\ h' = <[p := mkParam d (param_grad q)]> h /\
    s' = mkAdam (adam_base s) (b1 s) (b2 s) (eps s) (t s)
                (<[p := m1]> (optim.m s)) (<[p := v1]> (optim.v s)).
Proof.
  unfold Adam_update. intros Hs.
  apply bind_Ok_inv in Hs as (q & Hq%get_param_inv & Hs).
  apply bind_Ok_inv in Hs as (g & _ & Hs).
  apply bind_Ok_inv in Hs as (m1 & _ & Hs).
  apply bind_Ok_inv in Hs as (v1 & _ & Hs).
  apply bind_Ok_inv in Hs as (mh & _ & Hs).
  apply bind_Ok_inv in Hs as (vh & _ & Hs).
  apply bind_Ok_inv in Hs as (num & _ & Hs).
  apply bind_Ok_inv in Hs as (den & _ & Hs).
  apply bind_Ok_inv in Hs as (d1 & _ & Hs).
  apply bind_Ok_inv in Hs as (d2 & _ & Hs).
  injection Hs as <- <-. eauto 10.
Qed.

(** What one round of the loop keeps, for an [update] that writes the
    heap at [p] only. *)
Lemma step_heap_frame {St} `{!OptimizerImpl (A := A) St} (s s' : St)
    (h h' : gmap ref (Param A)) p :
  (forall h1 h2, update s h1 p = Ok (s', h2) ->
                 exists q, h2 = <[p := q]> h1) ->
  step (s, h) p = Ok (s', h') ->
  p ∈ dom h /\ dom h' = dom h /\ forall q, q <> p -> h' !! q = h !! q.
Proof.
  intros Hloc Hs.
  apply step_inv in Hs as (q0 & h1 & h2 & q2 & q3 & Hq0 & _ & Hh1 & Hup &
                           _ & _ & ->).
  destruct (Hloc _ _ Hup) as (q & ->).
  assert (Hin : p ∈ dom h) by (apply elem_of_dom; eauto).
  assert (Hdom : forall x (g : gmap ref (Param A)),
            p ∈ dom g -> dom (<[p := x]> g) = dom g).
  { intros x g Hg. rewrite dom_insert_L. apply set_eq. intros k.
    rewrite elem_of_union, elem_of_singleton. split; [|tauto].
    intros [->|?]; done. }
  split; [done|].
  destruct Hh1 as [->|(q1 & ->)].
  - split.
    + rewrite !Hdom; [done|done|]. by rewrite Hdom.
    + intros k Hk. by rewrite !lookup_insert_ne.
  - assert (Hin1 : p ∈ dom (<[p := q1]> h)) by by rewrite Hdom.
    split.
    + rewrite !Hdom; [done|done|done|]. by rewrite Hdom.
    + intros k Hk. by rewrite !lookup_insert_ne.
Qed.

(** X18. A call of SGD touches the listed parameters only.  When
    [SGD.__call__] returns, every listed parameter is one of the heap,
    the heap holds the same objects as before, the objects that are not
    listed are unchanged, the hyperparameters are unchanged, and
    [old_delta] has gained an entry for exactly the listed parameters. *)
Theorem SGD_call_frame (self self' : SGD A) (h h' : gmap ref (Param A))
    (parameters : list ref) :
  Optimizer_call self h parameters = Ok (self', h') ->
  sgd_base self' = sgd_base self /\ mom self' = mom self /\
  (forall p, p ∈ parameters -> p ∈ dom h) /\
  dom h' = dom h /\
  dom (old_delta self') = dom (old_delta self) ∪ list_to_set parameters /\
  (forall q, q ∉ parameters ->
     h' !! q = h !! q /\ old_delta self' !! q = old_delta self !! q).
Proof.
  unfold Optimizer_call. revert self h.
  induction parameters as [|p l IH]; intros self h Hrun.
  - injection Hrun as <- <-. repeat split; try done.
    + intros p Hp. by apply elem_of_nil in Hp.
    + cbn [list_to_set]. by rewrite (right_id_L ∅ (∪)).
  - cbn [foldR] in Hrun.
    apply bind_Ok_inv in Hrun as ([s1 h1] & Hstep & Hrun).
    destruct (IH _ _ Hrun) as (Hb & Hm & Hin & Hdom & Hod & Hfr).
    assert (Hup : exists delta,
              s1 = mkSGD (sgd_base self) (mom self)
                         (<[p := delta]> (old_delta self))).
    { apply step_inv in Hstep as (? & ? & ? & ? & ? & _ & _ & _ & Hup & _).
      apply SGD_update_inv in Hup as (? & ? & delta & _ & _ & ->). eauto. }
    destruct Hup as (delta & ->).
    apply step_heap_frame in Hstep as (Hp & Hdom1 & Hfr1).
    2:{ intros g1 g2 Hu. apply SGD_update_inv in Hu as (? & ? & ? & _ & -> & _).
        eauto. }
    cbn [sgd_base mom old_delta] in *.
    split; [done|]. split; [done|]. split; [|split; [|split]].
    + intros k [->|Hk]%elem_of_cons; [done|]. rewrite <- Hdom1. by apply Hin.
    + congruence.
    + rewrite Hod, dom_insert_L. cbn [list_to_set].
      apply set_eq. intros k.
      rewrite !elem_of_union, elem_of_singleton. tauto.
    + intros q Hq. apply not_elem_of_cons in Hq as [Hqp Hq].
      destruct (Hfr q Hq) as [-> ->]. split; [by apply Hfr1|].
      by rewrite lookup_insert_ne.
Qed.

(** X19. A call of Adam counts one step and touches the listed
    parameters only.  When [Adam.__call__] returns, [t] has grown by one
    whatever the number of parameters, the hyperparameters are
    unchanged, the moments [m] and [v] have gained an entry for exactly
    the listed parameters, and the objects of the heap that are not
    listed are unchanged. *)
Theorem Adam_call_frame (self self' : Adam A) (h h' : gmap ref (Param A))
    (params : list ref) :
  Adam_call self h params = Ok (self', h') ->
  t self' = t self + 1 /\
  adam_base self' = adam_base self /\
  b1 self' = b1 self /\ b2 self' = b2 self /\ eps self' = eps self /\
  dom h' = dom h /\
  dom (optim.m self') = dom (optim.m self) ∪ list_to_set params /\
  dom (optim.v self') = dom (optim.v self) ∪ list_to_set params /\
  (forall q, q ∉ params ->
     h' !! q = h !! q /\ optim.m self' !! q = optim.m self !! q /\
     optim.v self' !! q = optim.v self !! q).
Proof.
  unfold Adam_call, Optimizer_call.
  set (s0 := mkAdam (adam_base self) (b1 self) (b2 self) (eps self)
                    (t self + 1) (optim.m self) (optim.v self)).
  assert (Hgen : forall (s : Adam A) h,
    foldR step params (s, h) = Ok (self', h') ->
    t self' = t s /\ adam_base self' = adam_base s /\
    b1 self' = b1 s /\ b2 self' = b2 s /\ eps self' = eps s /\
    dom h' = dom h /\
    dom (optim.m self') = dom (optim.m s) ∪ list_to_set params /\
    dom (optim.v self') = dom (optim.v s) ∪ list_to_set params /\
    (forall q, q ∉ params ->
       h' !! q = h !! q /\ optim.m self' !! q = optim.m s !! q /\
       optim.v self' !! q = optim.v s !! q)).
  { clear s0 h. induction params as [|p l IH]; intros s h Hrun.
    - injection Hrun as <- <-. repeat split; try done;
        cbn [list_to_set]; by rewrite (right_id_L ∅ (∪)).
    - cbn [foldR] in Hrun.
      apply bind_Ok_inv in Hrun as ([s1 h1] & Hstep & Hrun).
      destruct (IH _ _ Hrun)
        as (Ht & Hb & Hb1 & Hb2 & He & Hdom & Hm & Hv & Hfr).
      assert (Hup : exists m1 v1,
                s1 = mkAdam (adam_base s) (b1 s) (b2 s) (eps s) (t s)
                            (<[p := m1]> (optim.m s))
                            (<[p := v1]> (optim.v s))).
      { apply step_inv in Hstep as (? & ? & ? & ? & ? & _ & _ & _ & Hup & _).
        apply Adam_update_inv in Hup as (? & ? & m1 & v1 & _ & _ & ->).
        eauto. }
      destruct Hup as (m1 & v1 & ->).
      apply step_heap_frame in Hstep as (Hp & Hdom1 & Hfr1).
      2:{ intros g1 g2 Hu.
          apply Adam_update_inv in Hu as (? & ? & ? & ? & _ & -> & _). eauto. }
      cbn [adam_base optim.b1 optim.b2 optim.eps optim.t optim.m optim.v] in *.
      repeat (split; [done || congruence|]).
      split; [|split].
      + rewrite Hm, dom_insert_L. cbn [list_to_set].
        apply set_eq. intros k.
        rewrite !elem_of_union, elem_of_singleton. tauto.
      + rewrite Hv, dom_insert_L. cbn [list_to_set].
        apply set_eq. intros k.
        rewrite !elem_of_union, elem_of_singleton. tauto.
      + intros q Hq. apply not_elem_of_cons in Hq as [Hqp Hq].
        destruct (Hfr q Hq) as (-> & -> & ->).
        split; [by apply Hfr1|]. by rewrite !lookup_insert_ne. }
  intros Hrun. apply Hgen in Hrun. exact Hrun.
Qed.

End MoreOptim.

(** ** Optimizers: the steps of SGD and the regularization *)

Section MoreSteps.
Import optim.
Context {A : Type} `{Scalar A}.

Lemma same_shape_refl (a : ndarray A) : same_shape a a.
Proof.
  destruct a as [x|u|m]; simpl; try done.
  apply Forall_Forall2_diag, Forall_forall. done.
Qed.

Lemma same_shape_sym (a b : ndarray A) : same_shape a b -> same_shape b a.
Proof.
  destruct a as [x|u|m], b as [y|v|m']; simpl; try done.
  intros Hm. induction Hm; constructor; done.
Qed.

Lemma same_shape_trans (a b c : ndarray A) :
  same_shape a b -> same_shape b c -> same_shape a c.
Proof.
  destruct a as [x|u|m], b as [y|v|m'], c as [z|w|m'']; simpl; try done.
  - congruence.
  - intros Hab. revert m''. induction Hab as [|r r' k k' Hr Hk IH];
      intros m'' Hbc; inversion Hbc; subst; constructor; [congruence|].
    by apply IH.
Qed.

Lemma same_shape_azip (f : A -> A -> A) (a b : ndarray A) :
  same_shape a b -> same_shape (azip f a b) a.
Proof.
  destruct a as [x|u|m], b as [y|v|m']; simpl; try done.
  - intros Hl. rewrite length_zip_with. lia.
  - intros Hm. induction Hm as [|r r' k k' Hr Hk IH]; simpl; constructor;
      [|done]. rewrite length_zip_with. lia.
Qed.

Lemma azip_amap_l (f : A -> A -> A) (u : A -> A) (a b : ndarray A) :
  same_shape a b ->
  azip f (amap u a) b = azip (fun x y => f (u x) y) a b.
Proof.
  destruct a as [x|v|m], b as [y|w|m']; simpl; try done; intros Hs; f_equal.
  - revert w Hs. induction v as [|x v IH]; intros [|y w] Hs;
      simpl in *; try done. f_equal. apply IH. lia.
  - induction Hs as [|r r' m m' Hr Hm IH]; simpl; [done|]. f_equal; [|done].
    clear -Hr. revert r' Hr. induction r as [|x r IH]; intros [|y r'] Hr;
      simpl in *; try done. f_equal. apply IH. lia.
Qed.

Lemma azip_ext (f g : A -> A -> A) (a b : ndarray A) :
  (forall x y, f x y = g x y) -> azip f a b = azip g a b.
Proof.
  intros Hfg. destruct a as [x|v|m], b as [y|w|m']; simpl; try done; f_equal.
  - apply Hfg.
  - revert w. induction v as [|x v IH]; intros [|y w]; simpl; try done.
    by rewrite Hfg, IH.
  - revert m'. induction m as [|r m IH]; intros [|r' m']; simpl; try done.
    rewrite IH. f_equal. clear -Hfg. revert r'.
    induction r as [|x r IH]; intros [|y r']; simpl; try done.
    by rewrite Hfg, IH.
Qed.

Lemma amap_azip (u : A -> A) (f : A -> A -> A) (a b : ndarray A) :
  same_shape a b ->
  amap u (azip f a b) = azip (fun x y => u (f x y)) a b.
Proof.
  destruct a as [x|v|m], b as [y|w|m']; simpl; try done; intros Hs; f_equal.
  - revert w Hs. induction v as [|x v IH]; intros [|y w] Hs;
      simpl in *; try done. f_equal. apply IH. lia.
  - induction Hs as [|r r' m m' Hr Hm IH]; simpl; [done|]. f_equal; [|done].
    clear -Hr. revert r' Hr. induction r as [|x r IH]; intros [|y r'] Hr;
      simpl in *; try done. f_equal. apply IH. lia.
Qed.

Lemma azip_snd (u : A -> A) (a b : ndarray A) :
  same_shape a b -> azip (fun _ y => u y) a b = amap u b.
Proof.
  destruct a as [x|v|m], b as [y|w|m']; simpl; try done; intros Hs; f_equal.
  - revert w Hs. induction v as [|x v IH]; intros [|y w] Hs;
      simpl in *; try done. f_equal. apply IH. lia.
  - induction Hs as [|r r' m m' Hr Hm IH]; simpl; [done|]. f_equal; [|done].
    clear -Hr. revert r' Hr. induction r as [|x r IH]; intros [|y r'] Hr;
      simpl in *; try done. f_equal. apply IH. lia.
Qed.

Lemma get_param_ok (h : gmap ref (Param A)) p q :
  h !! p = Some q -> get_param h p = Ok q.
Proof. intros Hq. unfold get_param. by rewrite Hq. Qed.

(** The momentum term of [SGD.update]. *)
Definition sgd_delta (mom : A) (od : option (ndarray A)) (g : ndarray A)
  : ndarray A :=
  match od with
  | Some o => azip (fun oi gi => sub (mul mom oi) (mul (sub one mom) gi)) o g
  | None => amap opp g
  end.

Lemma SGD_update_ok (s : SGD A) (h : gmap ref (Param A)) p x g :
  h !! p = Some (mkParam x (Some g)) -> same_shape x g ->
  (forall od, old_delta s !! p = Some od -> same_shape od g) ->
  let delta := sgd_delta (mom s) (old_delta s !! p) g in
  same_shape x delta /\
  SGD_update s h p =
  Ok (mkSGD (sgd_base s) (mom s) (<[p := delta]> (old_delta s)),
      <[p := mkParam (azip (fun xi di => add xi (mul (lr (sgd_base s)) di))
                           x delta) (Some g)]> h).
Proof.
  intros Hp Hs Hod delta.
  assert (Hdelta :
    match old_delta s !! p with
    | Some od =>
        x ← bop mul (Num (mom s)) od;
        y ← bop mul (Num (sub one (mom s))) g;
        bop sub x y
    | None => Ok (amap opp g)
    end = Ok delta /\ same_shape x delta).
  { unfold delta, sgd_delta. destruct (old_delta s !! p) as [od|].
    - specialize (Hod od eq_refl). rewrite !bop_Num_l.
      cbn [mbind result_bind].
      assert (Hs1 : same_shape (amap (mul (mom s)) od)
                               (amap (mul (sub one (mom s))) g)).
      { apply same_shape_amap_r, same_shape_sym, same_shape_amap_r.
        by apply same_shape_sym. }
      rewrite bop_same by done. split.
      + f_equal. rewrite azip_amap_r.
        * rewrite azip_amap_l by done. done.
        * apply same_shape_sym, same_shape_amap_r. by apply same_shape_sym.
      + apply same_shape_sym. eapply same_shape_trans.
        * by apply same_shape_azip.
        * apply same_shape_sym. eapply same_shape_trans; [exact Hs|].
          by apply same_shape_sym.
    - split; [done|]. by apply same_shape_amap_r. }
  destruct Hdelta as [Hdelta Hsd]. split; [done|].
  unfold SGD_update, get_param. rewrite Hp.
  cbn [mbind result_bind get_grad param_grad data]. rewrite Hdelta.
  cbn [mbind result_bind sgd_base]. rewrite bop_Num_l.
  cbn [mbind result_bind]. rewrite iop_same by (by apply same_shape_amap_r).
  cbn [mbind result_bind]. by rewrite azip_amap_r.
Qed.

(** One call of SGD on one parameter, without regularization and
    gradient limit. *)
Lemma SGD_call_one (s : SGD A) (h : gmap ref (Param A)) p x g :
  reg (sgd_base s) = None -> grad_lim (sgd_base s) = None ->
  h !! p = Some (mkParam x (Some g)) -> same_shape x g ->
  (forall od, old_delta s !! p = Some od -> same_shape od g) ->
  let delta := sgd_delta (mom s) (old_delta s !! p) g in
  Optimizer_call s h [p] =
  Ok (mkSGD (sgd_base s) (mom s) (<[p := delta]> (old_delta s)),
      <[p := mkParam (azip (fun xi di => add xi (mul (lr (sgd_base s)) di))
                           x delta) None]> h).
Proof.
  intros Hreg Hlim Hp Hs Hod delta.
  destruct (SGD_update_ok s h p x g Hp Hs Hod) as [_ Hup].
  unfold Optimizer_call. cbn [foldR step base SGD_impl].
  rewrite (get_param_ok _ _ _ Hp).
  cbn [mbind result_bind has_grad param_grad negb]. rewrite Hlim.
  cbn [mbind result_bind update SGD_impl]. rewrite Hup.
  cbn [mbind result_bind sgd_base].
  rewrite (get_param_ok _ _ _ (lookup_insert_eq _ _ _)).
  cbn [mbind result_bind].
  unfold regularize. rewrite Hreg. cbn [mbind result_bind del_grad data].
  by rewrite insert_insert_eq.
Qed.

(** X20. One call of SGD on a parameter [x] with gradient [g].  The
    first time the parameter is seen the step is [-g] whatever the
    momentum; afterwards it is [mom * old - (1 - mom) * g] for the step
    [old] recorded for this parameter.  The step is recorded, the
    parameter becomes [x + lr * step] entry by entry, and its gradient is
    cleared. *)
Theorem SGD_momentum_step (s : SGD A) (h : gmap ref (Param A)) p x g :
  reg (sgd_base s) = None -> grad_lim (sgd_base s) = None ->
  h !! p = Some (mkParam x (Some g)) -> same_shape x g ->
  (forall od, old_delta s !! p = Some od -> same_shape od g) ->
  exists delta s' h',
    Optimizer_call s h [p] = Ok (s', h') /\
    old_delta s' !! p = Some delta /\
    h' !! p = Some (mkParam
                      (azip (fun xi di => add xi (mul (lr (sgd_base s)) di))
                            x delta) None) /\
    (old_delta s !! p = None -> delta = amap opp g) /\
    (forall od, old_delta s !! p = Some od ->
       delta = azip (fun oi gi => sub (mul (mom s) oi)
                                      (mul (sub one (mom s)) gi)) od g).
Proof.
  intros Hreg Hlim Hp Hs Hod.
  exists (sgd_delta (mom s) (old_delta s !! p) g). do 2 eexists.
  split; [by apply SGD_call_one|].
  cbn [old_delta]. rewrite !lookup_insert_eq.
  split; [done|]. split; [done|]. split.
  - by intros ->.
  - by intros od ->.
Qed.

Hypothesis Ath : ring_theory zero one add mul sub opp (@eq A).
Add Ring A_ring_steps : Ath.

(** X21. Without momentum SGD is plain gradient descent: with [mom = 0]
    one call replaces [x] by [x - lr * g] entry by entry, whatever step
    was recorded for the parameter before. *)
Theorem SGD_zero_momentum (s : SGD A) (h : gmap ref (Param A)) p x g :
  mom s = zero ->
  reg (sgd_base s) = None -> grad_lim (sgd_base s) = None ->
  h !! p = Some (mkParam x (Some g)) -> same_shape x g ->
  (forall od, old_delta s !! p = Some od -> same_shape od g) ->
  Optimizer_call s h [p] =
  Ok (mkSGD (sgd_base s) zero (<[p := amap opp g]> (old_delta s)),
      <[p := mkParam (azip (fun xi gi => sub xi (mul (lr (sgd_base s)) gi))
                           x g) None]> h).
Proof.
  intros Hmom Hreg Hlim Hp Hs Hod.
  rewrite (SGD_call_one s h p x g) by done.
  assert (Hdelta : sgd_delta (mom s) (old_delta s !! p) g = amap opp g).
  { unfold sgd_delta. destruct (old_delta s !! p) as [od|]; [|done].
    rewrite <- (azip_snd opp od g) by (by apply Hod).
    apply azip_ext. intros oi gi. rewrite Hmom. ring. }
  rewrite Hdelta, Hmom. rewrite azip_amap_r by done.
  rewrite (azip_ext _ (fun xi gi => sub xi (mul (lr (sgd_base s)) gi)));
    [done|].
  intros xi gi. ring.
Qed.

Lemma l2_not_l1 (w : string) :
  w ∈ ["l2"; "ridge"] -> (w ∉ ["l1"; "lasso"]) /\ w <> "".
Proof.
  rewrite !elem_of_cons, !elem_of_nil.
  intros [->|[->|[]]]; (split; [|done]); intros [?|[?|[]]]; discriminate.
Qed.

Lemma regularize_l2 (o : Optimizer A) s (q : Param A) :
  reg o = Some (RegStr s) -> lower s ∈ ["l2"; "ridge"] ->
  regularize o q =
  Ok (mkParam (amap (fun xi => sub xi (mul (mul (lr o) (lamb o)) xi)) (data q))
              (param_grad q)).
Proof.
  intros Hreg Hs. unfold regularize. rewrite Hreg.
  destruct (l2_not_l1 _ Hs) as [Hl1 Hne].
  destruct s as [|c s]; [done|].
  rewrite bool_decide_eq_false_2 by done.
  rewrite bool_decide_eq_true_2 by done.
  cbn [mbind result_bind]. rewrite bop_Num_l. cbn [mbind result_bind].
  rewrite iop_same by apply same_shape_amap_r, same_shape_refl.
  cbn [mbind result_bind]. do 2 f_equal.
  rewrite <- (amap_id (data q)) at 1. by rewrite azip_amap_same.
Qed.

(** X22. Regularization acts on the updated parameter.  The first call
    of SGD with the regularization [l2] or [ridge], in any case of the
    letters, replaces [x] by [(x - lr * g) * (1 - lr * lamb)] entry by
    entry: the decay applies to the value after the gradient step, not
    to the value the gradient was computed at. *)
Theorem SGD_l2_decay_after_update (s : SGD A) (h : gmap ref (Param A))
    p x g name :
  reg (sgd_base s) = Some (RegStr name) -> lower name ∈ ["l2"; "ridge"] ->
  grad_lim (sgd_base s) = None ->
  old_delta s !! p = None ->
  h !! p = Some (mkParam x (Some g)) -> same_shape x g ->
  let o := sgd_base s in
  Optimizer_call s h [p] =
  Ok (mkSGD o (mom s) (<[p := amap opp g]> (old_delta s)),
      <[p := mkParam
               (azip (fun xi gi => mul (sub xi (mul (lr o) gi))
                                       (sub one (mul (lr o) (lamb o)))) x g)
               None]> h).
Proof.
  intros Hreg Hname Hlim Hnew Hp Hs o.
  destruct (SGD_update_ok s h p x g Hp Hs) as [_ Hup].
  { intros od Hod. congruence. }
  rewrite Hnew in Hup. cbn [sgd_delta] in Hup.
  unfold Optimizer_call. cbn [foldR step base SGD_impl].
  rewrite (get_param_ok _ _ _ Hp).
  cbn [mbind result_bind has_grad param_grad negb]. rewrite Hlim.
  cbn [mbind result_bind update SGD_impl]. rewrite Hup.
  cbn [mbind result_bind sgd_base].
  rewrite (get_param_ok _ _ _ (lookup_insert_eq _ _ _)).
  cbn [mbind result_bind].
  rewrite (regularize_l2 _ name) by done.
  cbn [mbind result_bind del_grad data]. rewrite insert_insert_eq.
  fold o. rewrite azip_amap_r by done. rewrite amap_azip by done.
  rewrite (azip_ext _ (fun xi gi => mul (sub xi (mul (lr o) gi))
                                        (sub one (mul (lr o) (lamb o)))));
    [done|].
  intros xi gi. ring.
Qed.

End MoreSteps.

Section MoreRegularize.
Import optim.
Context {A : Type} `{Scalar A}.

(** X23. The kinds of regularization.  A [reg] that is false as a truth
    value ([None], the empty name, [0], [False], an empty container)
    leaves the parameter as it is; a name is matched without regard to
    the case of its letters; [l1] and [lasso] subtract
    [lr * lamb * sign x] from each entry [x], leaving the gradient as it
    is; a name that is none of the four known ones raises [ValueError];
    a true value that is neither callable nor a string raises
    [TypeError]. *)
Theorem regularize_kinds (o : Optimizer A) (q : Param A) :
  (reg o = None -> regularize o q = Ok q) /\
  (forall r, reg o = Some r -> reg_truth r = false ->
     regularize o q = Ok q) /\
  (forall s, reg o = Some (RegStr s) -> lower s ∈ ["l1"; "lasso"] ->
     regularize o q =
     Ok (mkParam (amap (fun x => sub x (mul (mul (lr o) (lamb o)) (sign x)))
                       (data q))
                 (param_grad q))) /\
  (forall s, reg o = Some (RegStr s) -> s <> "" ->
     lower s ∉ ["l1"; "lasso"; "l2"; "ridge"] ->
     regularize o q = Raise ValueError) /\
  (reg o = Some (RegOther true) -> regularize o q = Raise TypeError).
Proof.
  split; [|split; [|split; [|split]]].
  - unfold regularize. by intros ->.
  - intros r Hreg Hr. unfold regularize. by rewrite Hreg, Hr.
  - intros s Hreg Hs. unfold regularize. rewrite Hreg.
    destruct s as [|c s].
    { simpl in Hs. rewrite !elem_of_cons, elem_of_nil in Hs.
      destruct Hs as [?|[?|[]]]; discriminate. }
    cbn [reg_truth negb].
    rewrite bool_decide_eq_true_2 by done.
    cbn [mbind result_bind]. rewrite bop_Num_l, amap_amap.
    cbn [mbind result_bind].
    rewrite iop_same by apply same_shape_amap_r, same_shape_refl.
    cbn [mbind result_bind]. do 2 f_equal.
    rewrite <- (amap_id (data q)) at 1. by rewrite azip_amap_same.
  - intros s Hreg Hne Hs. unfold regularize. rewrite Hreg.
    destruct s as [|c s]; [done|]. cbn [reg_truth negb].
    rewrite !not_elem_of_cons in Hs. destruct Hs as (H1 & H2 & H3 & H4 & _).
    rewrite !bool_decide_eq_false_2; [done| |].
    + rewrite !elem_of_cons, elem_of_nil. tauto.
    + rewrite !elem_of_cons, elem_of_nil. tauto.
  - unfold regularize. by intros ->.
Qed.

End MoreRegularize.

(* ===================================================================== *)
(** * The further properties on concrete inputs *)
(* ===================================================================== *)

Section ComposeOnIntegers.
Import model.
Local Open Scope Z_scope.

Definition increment : operation Z := fun x => Return (x + 1).
Definition double : operation Z := fun x => Return (2 * x).

(** X1 on [Compose(Compose(increment, double), Compose(increment))]. *)
Lemma Compose_flatten_witness :
  Forall (fun g : list (operation Z) => g <> [])
         [[increment; double]; [increment]] /\
  Compose_apply (map Compose_apply [[increment; double]; [increment]]) 3 =
  Compose_apply (concat [[increment; double]; [increment]]) 3.
Proof.
  assert (Hne : Forall (fun g : list (operation Z) => g <> [])
                       [[increment; double]; [increment]])
    by (repeat constructor; discriminate).
  split; [exact Hne|]. exact (Compose_flatten _ 3 Hne).
Defined.

End ComposeOnIntegers.

Section LayersOnIntegers.
Local Open Scope Z_scope.

#[local] Instance Z_Dense_more : LayerImpl (Dense Z) :=
  Dense_layer (constant_draw 0).
#[local] Instance Z_RBF_more : LayerImpl (RBF Z) :=
  RBF_layer (constant_draw 0).

Lemma rect_rows (n c : nat) (m : list (list Z)) :
  length m = n -> Forall (fun r => length r = c) m -> rect n c m.
Proof. intros; by split. Defined.

(** X4 on a Parameter made from a vector. *)
Lemma need_update_lifecycle_witness :
  Parameter_new (constant_draw 0) (Some (Vec [1; 2])) None 0 None =
    Ok (mkParameter (Vec [1; 2]) None None) /\
  need_update (mkParameter (Vec [1; 2]) None None) = Raise AttributeError /\
  need_update (set_grad (mkParameter (Vec [1; 2]) None None) (Vec [3; 4]))
    = Ok true.
Proof.
  split; [reflexivity|].
  destruct (need_update_lifecycle (constant_draw 0) (Some (Vec [1; 2])) None 0
              None (mkParameter (Vec [1; 2]) None None) (Vec [3; 4]) eq_refl)
    as (H1 & _ & H3 & _).
  split; [exact H1|exact H3].
Defined.

(** The layer on [W32] after a forward call on the row [1, 2, 3]. *)
Definition W32_forwarded : Layer Z (Dense Z) :=
  set_io (fresh_Dense true 3 2 W32) (Some (Mat [[1; 2; 3]]))
         (Some (Mat [[32; 48]])).

(** X5 on the layer on [W32]. *)
Lemma forward_records_input_output_witness :
  _wrapped_forward (fresh_Dense true 3 2 W32) (Mat [[1; 2; 3]]) =
    Ok (W32_forwarded, Mat [[32; 48]]) /\
  exists xin out,
    reshape_rows (Mat [[1; 2; 3]]) = Ok xin /\
    forward (fresh_Dense true 3 2 W32) xin = Ok out /\
    input W32_forwarded = Some xin /\ output W32_forwarded = Some out /\
    own W32_forwarded = own (fresh_Dense true 3 2 W32).
Proof.
  assert (Hcall : _wrapped_forward (fresh_Dense true 3 2 W32)
                                   (Mat [[1; 2; 3]]) =
                  Ok (W32_forwarded, Mat [[32; 48]])) by reflexivity.
  split; [exact Hcall|].
  destruct (forward_records_input_output (fresh_Dense true 3 2 W32)
              W32_forwarded (Mat [[1; 2; 3]]) (Mat [[32; 48]]) Hcall)
    as (xin & out & H1 & H2 & H3 & H4 & H5 & _).
  exists xin, out. split; [exact H1|]. split; [exact H2|].
  split; [exact H3|]. split; [exact H4|exact H5].
Defined.

(** An RBF layer of two nodes that has not been set up. *)
Definition RBF_unset : RBF Z := mkRBF 1 true 0 (Some 1) 1 false 0 None.

(** X6 on a Dense and an RBF layer of two nodes. *)
Lemma forward_before_setup_witness :
  centers RBF_unset = None /\
  _wrapped_forward
    (mkLayer 2%nat None None None None false (Some None)
             (mkDense true None))
    (Mat [[1; 2; 3]]) = Raise AttributeError /\
  _wrapped_forward
    (mkLayer 2%nat None None None None false (Some None) RBF_unset)
    (Mat [[1; 2; 3]]) = Raise AttributeError.
Proof.
  split; [reflexivity|].
  destruct (forward_before_setup (constant_draw 0) true 2%nat None None
              RBF_unset eq_refl) as (_ & _ & Hf & _).
  exact (Hf (Mat [[1; 2; 3]]) (Mat [[1; 2; 3]]) eq_refl).
Defined.

(** X7 on a Dense layer of two nodes and three inputs, for the draw that
    gives the weights 0. *)
Lemma setup_only_after_construction_witness :
  Layer_init (mkDense true None) 2%nat (Some 3%nat) None None
    = Raise AttributeError /\
  Parameter_new (constant_draw 0) None (Some (SList2 (rows_of true 3) 2))
                zero None
    = Ok (mkParameter (Mat [[0; 0]; [0; 0]; [0; 0]; [0; 0]]) None None) /\
  (L ← Layer_init (mkDense true None) 2%nat None None None;
   setup L (Some 3%nat)) =
  Ok (fresh_Dense true 3 2 [[0; 0]; [0; 0]; [0; 0]; [0; 0]]).
Proof.
  assert (Hdraw :
    Parameter_new (constant_draw 0) None (Some (SList2 (rows_of true 3) 2))
                  zero None
    = Ok (mkParameter (Mat [[0; 0]; [0; 0]; [0; 0]; [0; 0]]) None None))
    by reflexivity.
  destruct (setup_only_after_construction (constant_draw 0) true RBF_unset
              2%nat 3%nat None None) as (Heager & _ & Hdeferred & _).
  split; [exact Heager|]. split; [exact Hdraw|].
  exact (Hdeferred _ Hdraw).
Defined.

Lemma built_W32_more : built (fresh_Dense true 3 2 W32) true 3 2 W32.
Proof.
  apply built_fresh. apply rect_rows; [reflexivity|repeat constructor].
Defined.

(** X8 on [W32] and a batch of two rows. *)
Lemma Dense_forward_rowwise_witness :
  built (fresh_Dense true 3 2 W32) true 3 2 W32 /\
  rect 2 3 [[1; 2; 3]; [0; 1; 0]] /\
  exists L y L' yv,
    _wrapped_forward (fresh_Dense true 3 2 W32) (Mat [[1; 2; 3]; [0; 1; 0]])
      = Ok (L, Mat y) /\
    _wrapped_forward (fresh_Dense true 3 2 W32) (Vec [0; 1; 0])
      = Ok (L', Vec yv) /\
    y !! 1%nat = Some yv.
Proof.
  assert (Hx : rect 2 3 [[1; 2; 3]; [0; 1; 0]])
    by (apply rect_rows; [reflexivity|repeat constructor]).
  split; [exact built_W32_more|]. split; [exact Hx|].
  exact (Dense_forward_rowwise (constant_draw 0) (fresh_Dense true 3 2 W32)
           true 2 3 2 W32 [[1; 2; 3]; [0; 1; 0]] 1 [0; 1; 0]
           built_W32_more eq_refl eq_refl Hx ltac:(lia) eq_refl).
Defined.

(** X9 on [W32] and a row of two entries. *)
Lemma Dense_forward_wrong_width_witness :
  built (fresh_Dense true 3 2 W32) true 3 2 W32 /\
  rect 1 2 [[1; 2]] /\
  _wrapped_forward (fresh_Dense true 3 2 W32) (Mat [[1; 2]]) = Raise ValueError.
Proof.
  assert (Hx : rect 1 2 [[1; 2]])
    by (apply rect_rows; [reflexivity|repeat constructor]).
  split; [exact built_W32_more|]. split; [exact Hx|].
  exact (Dense_forward_wrong_width (constant_draw 0)
           (fresh_Dense true 3 2 W32) true 1 3 2 2 W32 [[1; 2]]
           built_W32_more Hx ltac:(lia) ltac:(lia)).
Defined.

(** X10 on the layer on [W32], after a forward call. *)
Lemma Dense_backward_keeps_weights_witness :
  output W32_forwarded <> None /\
  exists L2 u,
    _wrapped_backward W32_forwarded (Mat [[1; 1]]) true = Ok (L2, u) /\
    (exists w w', weights (own W32_forwarded) = Some w /\
                  weights (own L2) = Some w' /\
                  value w' = value w /\ need_update w' = Ok true) /\
    (u = None <-> true = false).
Proof.
  assert (Hout : output W32_forwarded <> None) by discriminate.
  split; [exact Hout|].
  destruct (_wrapped_backward W32_forwarded (Mat [[1; 1]]) true)
    as [[L2 u]|e] eqn:Hcall; [|vm_compute in Hcall; discriminate].
  exists L2, u. split; [reflexivity|].
  destruct (Dense_backward_keeps_weights (constant_draw 0) W32_forwarded
              L2 (Mat [[1; 1]]) true u Hout Hcall)
    as (Hw & _ & _ & _ & _ & _ & Hu).
  split; [exact Hw|exact Hu].
Defined.

(** X11 on the layer on [W32] and an error of three columns. *)
Lemma Dense_backward_unchecked_width_witness :
  rect (3 + 1) 2 W32 /\ rect 1 3 [[1; 2; 3]] /\ rect 1 3 [[1; 1; 1]] /\
  (exists L2 G,
     _wrapped_backward W32_forwarded (Mat [[1; 1; 1]]) false = Ok (L2, None) /\
     weights_grad L2 = Some (Mat G) /\ rect (3 + 1) 3 G) /\
  _wrapped_backward W32_forwarded (Mat [[1; 1; 1]]) true = Raise ValueError.
Proof.
  assert (HW : rect (3 + 1) 2 W32)
    by (apply rect_rows; [reflexivity|repeat constructor]).
  assert (Hx : rect 1 3 [[1; 2; 3]])
    by (apply rect_rows; [reflexivity|repeat constructor]).
  assert (He : rect 1 3 [[1; 1; 1]])
    by (apply rect_rows; [reflexivity|repeat constructor]).
  split; [exact HW|]. split; [exact Hx|]. split; [exact He|].
  destruct (Dense_backward_unchecked_width (constant_draw 0) W32_forwarded
              1 3 2 3 W32 [[1; 2; 3]] (Mat [[32; 48]]) [[1; 1; 1]] None
              eq_refl eq_refl eq_refl eq_refl eq_refl HW Hx He
              ltac:(lia) ltac:(lia) ltac:(lia))
    as ((L2 & G & Hcall & Hgrad & HG & _) & Hraise).
  split; [|exact Hraise].
  exists L2, G. split; [exact Hcall|]. split; [exact Hgrad|exact HG].
Defined.

(** X12 on [W32]: a batch of two rows, and its rows one after the
    other. *)
Lemma batch_gradient_splits_witness :
  rect (rows_of true 3) 2 W32 /\
  exists L1 y L2 La ya Lb Lc yc Ld,
    _wrapped_forward (fresh_Dense true 3 2 W32)
                     (Mat ([[1; 2; 3]] ++ [[0; 1; 0]])) = Ok (L1, y) /\
    _wrapped_backward L1 (Mat ([[1; 1]] ++ [[1; 0]])) false = Ok (L2, None) /\
    _wrapped_forward (fresh_Dense true 3 2 W32) (Mat [[1; 2; 3]])
      = Ok (La, ya) /\
    _wrapped_backward La (Mat [[1; 1]]) false = Ok (Lb, None) /\
    _wrapped_forward Lb (Mat [[0; 1; 0]]) = Ok (Lc, yc) /\
    _wrapped_backward Lc (Mat [[1; 0]]) false = Ok (Ld, None) /\
    weights_grad Ld = weights_grad L2.
Proof.
  assert (HW : rect (rows_of true 3) 2 W32)
    by (apply rect_rows; [reflexivity|repeat constructor]).
  split; [exact HW|].
  destruct (batch_gradient_splits (constant_draw 0) Z_ring true 3 2 W32 1 1
              [[1; 2; 3]] [[1; 1]] [[0; 1; 0]] [[1; 0]] HW
              (rect_rows 1 3 [[1; 2; 3]] eq_refl ltac:(repeat constructor))
              (rect_rows 1 2 [[1; 1]] eq_refl ltac:(repeat constructor))
              (rect_rows 1 3 [[0; 1; 0]] eq_refl ltac:(repeat constructor))
              (rect_rows 1 2 [[1; 0]] eq_refl ltac:(repeat constructor))
              ltac:(lia) ltac:(lia) ltac:(lia))
    as (L1 & y & L2 & La & ya & Lb & Lc & yc & Ld &
        H1 & H2 & H3 & H4 & H5 & H6 & _ & H8).
  exists L1, y, L2, La, ya, Lb, Lc, yc, Ld.
  repeat split; assumption.
Defined.

(** The centers of [rbf3]. *)
Definition centers3 : Parameter_t Z :=
  mkParameter (Mat [[0; 0]; [10; 10]; [0; 1]]) (Some (Num 7)) (Some true).

(** X13 on [rbf3]: center 1 wins, centers 0 and 2 stay. *)
Lemma RBF_backward_keeps_shape_witness :
  rect 3 2 [[0; 0]; [10; 10]; [0; 1]] /\ rect 1 2 [[1; 1]] /\
  rect 1 3 [[1; 5; 3]] /\
  exists L2 C',
    _wrapped_backward (rbf3 false) (Mat [[0; 0; 0]]) true = Ok (L2, None) /\
    centers (own L2) = Some (mkParameter (Mat C') (Some (Num 7)) (Some true)) /\
    rect 3 2 C'.
Proof.
  assert (HC : rect 3 2 [[0; 0]; [10; 10]; [0; 1]])
    by (apply rect_rows; [reflexivity|repeat constructor]).
  assert (HX : rect 1 2 [[1; 1]])
    by (apply rect_rows; [reflexivity|repeat constructor]).
  assert (HO : rect 1 3 [[1; 5; 3]])
    by (apply rect_rows; [reflexivity|repeat constructor]).
  split; [exact HC|]. split; [exact HX|]. split; [exact HO|].
  destruct (RBF_backward_keeps_shape (constant_draw 0) (rbf3 false) centers3
              [[0; 0]; [10; 10]; [0; 1]] 1 2 [[1; 1]] [[1; 5; 3]]
              (Mat [[0; 0; 0]]) true eq_refl eq_refl HC ltac:(simpl; lia)
              eq_refl eq_refl eq_refl eq_refl eq_refl HX HO)
    as (L2 & C' & Hcall & Hc & Hrect & _).
  exists L2, C'. split; [exact Hcall|]. split; [exact Hc|exact Hrect].
Defined.

(** X14 on [rbf3], whose step size is 1: the winner lands on the
    input. *)
Lemma RBF_step_size_extremes_witness :
  rect 3 2 [[0; 0]; [10; 10]; [0; 1]] /\ rect 1 2 [[1; 1]] /\
  rect 1 3 [[1; 5; 3]] /\
  exists L2 C',
    _wrapped_backward (rbf3 false) (Mat [[0; 0; 0]]) true = Ok (L2, None) /\
    centers (own L2) = Some (mkParameter (Mat C') (Some (Num 7)) (Some true)) /\
    C' !! 1%nat = Some [1; 1].
Proof.
  assert (HC : rect 3 2 [[0; 0]; [10; 10]; [0; 1]])
    by (apply rect_rows; [reflexivity|repeat constructor]).
  assert (HX : rect 1 2 [[1; 1]])
    by (apply rect_rows; [reflexivity|repeat constructor]).
  assert (HO : rect 1 3 [[1; 5; 3]])
    by (apply rect_rows; [reflexivity|repeat constructor]).
  split; [exact HC|]. split; [exact HX|]. split; [exact HO|].
  destruct (RBF_step_size_extremes (constant_draw 0) Z_ring (rbf3 false)
              centers3 [[0; 0]; [10; 10]; [0; 1]] 1 2 [[1; 1]] [[1; 5; 3]]
              (Mat [[0; 0; 0]]) true eq_refl eq_refl HC ltac:(simpl; lia)
              eq_refl eq_refl eq_refl eq_refl eq_refl HX HO)
    as (L2 & C' & Hcall & Hc & _ & Hone).
  exists L2, C'. split; [exact Hcall|]. split; [exact Hc|].
  apply (Hone eq_refl 1%nat 0%nat [1; 1] [1; 5; 3]);
    [simpl; lia|reflexivity|reflexivity|reflexivity|].
  intros [|i'] o' Hi' Ho'; [lia|discriminate Ho'].
Defined.

End LayersOnIntegers.

Section MoreOnAttributes.
Import Attr.

Ltac not_reserved_name :=
  unfold reserved; rewrite !elem_of_cons, elem_of_nil;
  let Hr := fresh "Hr" in
  intros Hr; repeat (destruct Hr as [Hr|Hr]; [discriminate Hr|]);
  exact Hr.

(** X15 on a new instance: a Parameter and an integer. *)
Lemma setattr_parameters_mirror_witness :
  tracked ∅ /\
  exists self' d,
    assign_all ∅ [("weights", VParameter 1%positive); ("size", VInt 3)]
      = Ok self' /\
    self' !! "parameters" = Some (VDict d) /\
    d = filter (fun kv => isinstance_Parameter kv.2 = true) self'.
Proof.
  split; [exact tracked_new|].
  destruct (setattr_parameters_mirror ∅
              [("weights", VParameter 1%positive); ("size", VInt 3)]
              tracked_new)
    as (self' & d & Hrun & Hpar & Hd & _).
  { repeat constructor; cbn [fst]; not_reserved_name. }
  { discriminate. }
  exists self', d. split; [exact Hrun|]. split; [exact Hpar|exact Hd].
Defined.

(** X16 on a new instance. *)
Lemma parameters_rebound_blocks_witness :
  parameters_ok ∅ /\
  exists self',
    __setattr__ ∅ "parameters" VNone = Ok self' /\
    assign_all self' [("weights", VParameter 1%positive)] = Raise TypeError.
Proof.
  assert (Hok : parameters_ok ∅) by (left; apply lookup_empty).
  split; [exact Hok|].
  destruct (parameters_rebound_blocks ∅ VNone
              [("weights", VParameter 1%positive)] Hok (or_introl eq_refl))
    as (self' & Hset & _ & _ & Hall).
  { discriminate. }
  exists self'. split; [exact Hset|exact Hall].
Defined.

End MoreOnAttributes.

Section OptimOnIntegers.
Import optim.
Local Open Scope Z_scope.

(** An optimizer with learning rate 2 and without regularization. *)
Definition plain2 : Optimizer Z := mkOptimizer 2 None 3 None.

(** The same with the regularization [Ridge]. *)
Definition ridge2 : Optimizer Z := mkOptimizer 2 (Some (RegStr "Ridge")) 3 None.

(** A heap of two parameters with gradients. *)
Definition heap2 : gmap ref (Param Z) :=
  <[1%positive := mkParam (Vec [1; 2]) (Some (Vec [3; 4]))]>
    (<[2%positive := mkParam (Num 5) (Some (Num 1))]> ∅).

(** X17 on a parameter whose gradient is absent. *)
Lemma Optimizer_call_needs_grad_witness :
  Optimizer_call (SGD_new plain2 0)
                 (<[3%positive := mkParam (Num 5) None]> heap2) []
    = Ok (SGD_new plain2 0, <[3%positive := mkParam (Num 5) None]> heap2) /\
  Optimizer_call (SGD_new plain2 0)
                 (<[3%positive := mkParam (Num 5) None]> heap2)
                 ([] ++ 3%positive :: [1%positive]) = Raise AssertionError.
Proof.
  split; [reflexivity|].
  apply (Optimizer_call_needs_grad (SGD_new plain2 0) (SGD_new plain2 0)
           (<[3%positive := mkParam (Num 5) None]> heap2)
           (<[3%positive := mkParam (Num 5) None]> heap2)
           [] [1%positive] 3%positive eq_refl).
  right. exists (mkParam (Num 5) None). split; [|reflexivity].
  apply lookup_insert_eq.
Defined.

(** X18 on [heap2]: one of its two parameters is listed. *)
Lemma SGD_call_frame_witness :
  exists self' h',
    Optimizer_call (SGD_new plain2 0) heap2 [1%positive] = Ok (self', h') /\
    dom h' = dom heap2 /\
    dom (old_delta self') = dom (old_delta (SGD_new plain2 0))
                            ∪ list_to_set [1%positive] /\
    h' !! 2%positive = heap2 !! 2%positive.
Proof.
  destruct (Optimizer_call (SGD_new plain2 0) heap2 [1%positive])
    as [[self' h']|e] eqn:Hcall; [|vm_compute in Hcall; discriminate].
  exists self', h'. split; [reflexivity|].
  destruct (SGD_call_frame (SGD_new plain2 0) self' heap2 h' [1%positive]
              Hcall) as (_ & _ & _ & Hdom & Hod & Hfr).
  split; [exact Hdom|]. split; [exact Hod|].
  apply Hfr. intros Hin. apply elem_of_cons in Hin as [Hin|Hin];
    [discriminate|]. by apply elem_of_nil in Hin.
Defined.

(** X19 on [heap2]. *)
Lemma Adam_call_frame_witness :
  exists self' h',
    Adam_call (Adam_new plain2 0 0 1) heap2 [1%positive] = Ok (self', h') /\
    t self' = Nat.add (t (Adam_new plain2 0 0 1)) 1 /\
    h' !! 2%positive = heap2 !! 2%positive.
Proof.
  destruct (Adam_call (Adam_new plain2 0 0 1) heap2 [1%positive])
    as [[self' h']|e] eqn:Hcall; [|vm_compute in Hcall; discriminate].
  exists self', h'. split; [reflexivity|].
  destruct (Adam_call_frame (Adam_new plain2 0 0 1) self' heap2 h'
              [1%positive] Hcall) as (Ht & _ & _ & _ & _ & _ & _ & _ & Hfr).
  split; [exact Ht|].
  apply Hfr. intros Hin. apply elem_of_cons in Hin as [Hin|Hin];
    [discriminate|]. by apply elem_of_nil in Hin.
Defined.

(** An SGD with momentum 3 that has recorded the step [1, 1] for
    parameter 1. *)
Definition SGD_seen (o : Optimizer Z) (mom : Z) : SGD Z :=
  mkSGD o mom (<[1%positive := Vec [1; 1]]> ∅).

Lemma SGD_seen_shape o mom (od : ndarray Z) :
  old_delta (SGD_seen o mom) !! 1%positive = Some od ->
  same_shape od (Vec [3; 4]).
Proof.
  cbn [old_delta SGD_seen]. rewrite lookup_insert_eq. by intros [= <-].
Defined.

(** X20 on [heap2], with a recorded step. *)
Lemma SGD_momentum_step_witness :
  heap2 !! 1%positive = Some (mkParam (Vec [1; 2]) (Some (Vec [3; 4]))) /\
  exists delta s' h',
    Optimizer_call (SGD_seen plain2 3) heap2 [1%positive] = Ok (s', h') /\
    old_delta s' !! 1%positive = Some delta /\
    delta = azip (fun oi gi => sub (mul 3 oi) (mul (sub one 3) gi))
                 (Vec [1; 1]) (Vec [3; 4]).
Proof.
  assert (Hp : heap2 !! 1%positive
               = Some (mkParam (Vec [1; 2]) (Some (Vec [3; 4]))))
    by apply lookup_insert_eq.
  split; [exact Hp|].
  destruct (SGD_momentum_step (SGD_seen plain2 3) heap2 1%positive
              (Vec [1; 2]) (Vec [3; 4]) eq_refl eq_refl Hp eq_refl
              (SGD_seen_shape plain2 3))
    as (delta & s' & h' & Hcall & Hod & _ & _ & Hmom).
  exists delta, s', h'. split; [exact Hcall|]. split; [exact Hod|].
  apply Hmom. apply lookup_insert_eq.
Defined.

(** X21 on [heap2], with a recorded step and no momentum. *)
Lemma SGD_zero_momentum_witness :
  mom (SGD_seen plain2 0) = 0 /\
  Optimizer_call (SGD_seen plain2 0) heap2 [1%positive] =
  Ok (mkSGD plain2 0
        (<[1%positive := Vec [-3; -4]]> (old_delta (SGD_seen plain2 0))),
      <[1%positive := mkParam (Vec [-5; -6]) None]> heap2).
Proof.
  split; [reflexivity|].
  exact (SGD_zero_momentum Z_ring (SGD_seen plain2 0) heap2 1%positive
           (Vec [1; 2]) (Vec [3; 4]) eq_refl eq_refl eq_refl
           (lookup_insert_eq _ _ _) eq_refl (SGD_seen_shape plain2 0)).
Defined.

(** X22 on [heap2] with the regularization [Ridge]: from [1, 2] the
    gradient step leads to [-5, -6], which the decay multiplies by
    [1 - 2 * 3]. *)
Lemma SGD_l2_decay_after_update_witness :
  lower "Ridge" ∈ ["l2"; "ridge"] /\
  Optimizer_call (SGD_new ridge2 0) heap2 [1%positive] =
  Ok (mkSGD ridge2 0 (<[1%positive := Vec [-3; -4]]> ∅),
      <[1%positive := mkParam (Vec [25; 30]) None]> heap2).
Proof.
  assert (Hname : lower "Ridge" ∈ ["l2"; "ridge"])
    by (rewrite !elem_of_cons; right; left; reflexivity).
  split; [exact Hname|].
  exact (SGD_l2_decay_after_update Z_ring (SGD_new ridge2 0) heap2 1%positive
           (Vec [1; 2]) (Vec [3; 4]) "Ridge" eq_refl Hname eq_refl
           (lookup_empty _) (lookup_insert_eq _ _ _) eq_refl).
Defined.

End OptimOnIntegers.
